(** * CAPES Research Exporter: a verified model of the content script

    A shallow embedding of [src/content.js] (the page sequencer, the
    article extractor, the format converters, the file names, the
    checkpoint store and the export controller),
    followed by the properties of the written specification that the
    code satisfies, and by concrete runs where it does something else.

    JavaScript strings are sequences of UTF-16 code units; they are
    modelled as [list N].  Numbers that the script only ever uses as
    integers (page indices, counts) are modelled as [Z] and [N].  A
    JavaScript number is a double: it holds an integer exactly below 2^53
    in absolute value, and rounds it from there on.  The model computes
    with the exact integers, so it follows the script where the numbers
    read from the page stay below 2^53; the statements that depend on the
    value of such a number say so. *)

From Stdlib Require Import Ascii String.
From Stdlib Require Import Sorted.
From stdpp Require Import base option list numbers gmap.

Local Open Scope N_scope.

(** ** Strings *)

Module JS.

(** A string is a list of UTF-16 code units. *)
Abbreviation jstr := (list N).

(** The code units of an ASCII literal. *)
Definition cu (s : string) : jstr :=
  List.map N_of_ascii (list_ascii_of_string s).

Definition LF : jstr := [10].
Definition CRLF : jstr := [13; 10].

(** [Array.prototype.join]. *)
Fixpoint join (sep : jstr) (parts : list jstr) : jstr :=
  match parts with
  | [] => []
  | [p] => p
  | p :: rest => p ++ sep ++ join sep rest
  end.

(** The regular-expression class [\d] (without the unicode flag). *)
Definition isDigit (c : N) : bool := (48 <=? c) && (c <=? 57).

(** The class [\s]: WhiteSpace and LineTerminator code units. *)
Definition isSpace (c : N) : bool :=
  ((9 <=? c) && (c <=? 13)) || (c =? 32) || (c =? 160) || (c =? 5760)
  || ((8192 <=? c) && (c <=? 8202)) || (c =? 8232) || (c =? 8233)
  || (c =? 8239) || (c =? 8287) || (c =? 12288) || (c =? 65279).

(** [str.replace(/c/g, rep)] for a single code unit [c]. *)
Definition replaceAll (c : N) (rep : jstr) (s : jstr) : jstr :=
  flat_map (fun x => if N.eqb x c then rep else [x]) s.

(** Truthiness of a string: the empty string is falsy. *)
Definition truthy (s : jstr) : bool :=
  match s with [] => false | _ => true end.

(** The longest prefix of [s] whose code units satisfy [p], and the rest. *)
Fixpoint span (p : N -> bool) (s : jstr) : jstr * jstr :=
  match s with
  | [] => ([], [])
  | c :: t => if p c then let '(a, r) := span p t in (c :: a, r) else ([], s)
  end.

Definition skip (p : N -> bool) (s : jstr) : jstr := snd (span p s).

(** [s.startsWith(prefix)]. *)
Definition startsWith (prefix s : jstr) : bool :=
  bool_decide (take (length prefix) s = prefix).

(** The value of a non-empty run of decimal digits, as [parseInt(_, 10)]
    reads it: the exact integer.  The script's value is this integer
    below 2^53 and the nearest double from there on. *)
Definition digitsValue (ds : jstr) : N :=
  fold_left (fun acc d => 10 * acc + (d - 48)) ds 0.

(** [parseInt(s, 10)]: leading white space, an optional sign, then the
    longest run of digits; [None] is NaN.  The result is the exact integer:
    it is the script's result when it is below 2^53 in absolute value. *)
Definition parseInt (s : jstr) : option Z :=
  let s := skip isSpace s in
  let '(negative, s) :=
    match s with
    | c :: r =>
        if c =? 45 then (true, r) else if c =? 43 then (false, r) else (false, s)
    | [] => (false, s)
    end in
  let ds := fst (span isDigit s) in
  if bool_decide (ds = []) then None
  else Some (if negative then - Z.of_N (digitsValue ds) else Z.of_N (digitsValue ds))%Z.

(** The values a predicate written with [&&] may return. *)
Inductive cond := CBool (b : bool) | CNull.

Definition holds (c : cond) : bool :=
  match c with CBool b => b | CNull => false end.

End JS.
Import JS.

(** ** Constants *)

(** [RIS_TYPE_MAP] and [BIBTEX_TYPE_MAP]: object literals used as maps from
    the portal's document kinds (in Portuguese) to the format's type names.
    The code units 237 and 227 are the accented letters of the keys
    [Capitulo de livro] and [Revisao]. *)
Definition RIS_TYPE_MAP : gmap jstr jstr :=
  list_to_map
    [ (cu "Artigo", cu "JOUR");
      (cu "Cap" ++ [237] ++ cu "tulo de livro", cu "CHAP");
      (cu "Carta", cu "NEWS");
      (cu "Errata", cu "JOUR");
      (cu "Revis" ++ [227] ++ cu "o", cu "JOUR") ].

Definition BIBTEX_TYPE_MAP : gmap jstr jstr :=
  list_to_map
    [ (cu "Artigo", cu "article");
      (cu "Cap" ++ [237] ++ cu "tulo de livro", cu "inbook");
      (cu "Carta", cu "article");
      (cu "Errata", cu "article");
      (cu "Revis" ++ [227] ++ cu "o", cu "article") ].

(** A property read with [map[key]] that the literal does not define is
    looked up on [Object.prototype].  The inherited values are truthy
    (native functions, and the prototype object itself for [__proto__]);
    a template literal renders them as Chrome prints them. *)
Definition objectPrototypeMethods : list jstr :=
  [ cu "__defineGetter__"; cu "__defineSetter__"; cu "hasOwnProperty";
    cu "__lookupGetter__"; cu "__lookupSetter__"; cu "isPrototypeOf";
    cu "propertyIsEnumerable"; cu "toString"; cu "valueOf";
    cu "toLocaleString" ].

Definition nativeFunctionText (name : jstr) : jstr :=
  cu "function " ++ name ++ cu "() { [native code] }".

Definition inheritedText (key : jstr) : option jstr :=
  if bool_decide (key = cu "constructor") then
    Some (nativeFunctionText (cu "Object"))
  else if bool_decide (key = cu "__proto__") then
    Some (cu "[object Object]")
  else if bool_decide (key ∈ objectPrototypeMethods) then
    Some (nativeFunctionText key)
  else None.

(** [`${MAP[key] || dflt}`]: every value of the two literals is a
    non-empty string, so [||] falls back only when the key is found
    neither on the literal nor on its prototype. *)
Definition typeLookup (m : gmap jstr jstr) (key dflt : jstr) : jstr :=
  match m !! key with
  | Some v => v
  | None => default dflt (inheritedText key)
  end.

(** ** Records *)

(** The [Article] typedef.  The field [id] of the source is [articleId]
    here. *)
Record Article := {
  articleId : jstr;
  title : jstr;
  authors : list jstr;
  journal : jstr;
  year : jstr;
  documentType : jstr;
  isOpenAccess : bool;
  isPeerReviewed : bool
}.

(** ** Format converters *)

Module FormatConverter.

(** [yearStr.match(/(\d{4})/)]: the first four consecutive digits. *)
Fixpoint yearMatch (s : jstr) : option jstr :=
  match s with
  | [] => None
  | a :: t =>
      match t with
      | b :: c :: d :: _ =>
          if isDigit a && isDigit b && isDigit c && isDigit d
          then Some [a; b; c; d]
          else yearMatch t
      | _ => None
      end
  end.

Definition buildNotesArray (article : Article) : list jstr :=
  let notes := [] in
  let notes := if isOpenAccess article then notes ++ [cu "Open Access"] else notes in
  let notes := if isPeerReviewed article then notes ++ [cu "Peer Reviewed"] else notes in
  let notes := if truthy (articleId article)
               then notes ++ [cu "CAPES ID: " ++ articleId article] else notes in
  notes.

(** The array [lines] of [articleToRIS] when it is joined. *)
Definition risLines (article : Article) : list jstr :=
  let lines := [] in
  let risType := typeLookup RIS_TYPE_MAP (documentType article) (cu "JOUR") in
  let lines := lines ++ [cu "TY  - " ++ risType] in
  let lines := if truthy (title article)
               then lines ++ [cu "TI  - " ++ title article] else lines in
  let lines := fold_left (fun lines author => lines ++ [cu "AU  - " ++ author])
                 (authors article) lines in
  let lines := if truthy (year article) then
                 match yearMatch (year article) with
                 | Some y => lines ++ [cu "PY  - " ++ y]
                 | None => lines
                 end
               else lines in
  let lines := if truthy (journal article)
               then (lines ++ [cu "T2  - " ++ journal article])
                      ++ [cu "JF  - " ++ journal article]
               else lines in
  let notes := buildNotesArray article in
  let lines := if (0 <? length notes)%nat
               then lines ++ [cu "N1  - " ++ join (cu "; ") notes] else lines in
  lines ++ [cu "ER  - "].

Definition articleToRIS (article : Article) : jstr :=
  join CRLF (risLines article).

(** The array [records] of [toRIS]. *)
Definition risRecords (articles : list Article) : list jstr :=
  List.map articleToRIS articles.

Definition toRIS (articles : list Article) : jstr :=
  join (LF ++ LF) (risRecords articles) ++ LF.

(** [escapeBibTeX]: seven global replacements, in the source's order. *)
Definition escapeBibTeX (str : jstr) : jstr :=
  replaceAll 35 (cu "\#")
    (replaceAll 37 (cu "\%")
       (replaceAll 38 (cu "\&")
          (replaceAll 36 (cu "\$")
             (replaceAll 125 (cu "\}")
                (replaceAll 123 (cu "\{")
                   (replaceAll 92 (cu "\\") str)))))).

Definition extractYear (yearStr : jstr) : jstr :=
  if truthy yearStr then
    match yearMatch yearStr with
    | Some y => y
    | None => cu "unknown"
    end
  else cu "unknown".

(** [title.toLowerCase().replace(/[^a-z0-9\s]/g, '')], one code unit at a
    time: the code units of the class [a-z0-9\s] that the lower-case form of
    [c] contributes.  Besides the ASCII capitals, two characters lower-case
    into the class: U+0130 (to [i] followed by a combining dot, which the
    replacement strips) and the Kelvin sign U+212A (to [k]). *)
Definition lowerKept (c : N) : jstr :=
  if (65 <=? c) && (c <=? 90) then [c + 32]
  else if ((97 <=? c) && (c <=? 122)) || isDigit c || isSpace c then [c]
  else if c =? 304 then [105]
  else if c =? 8490 then [107]
  else [].

(** [str.split(/\s+/)]: [cur] is the piece being read (reversed), [inSep]
    tells whether the previous code unit belonged to a separator. *)
Fixpoint splitSpaces (s : jstr) (cur : jstr) (inSep : bool) : list jstr :=
  match s with
  | [] => [rev cur]
  | c :: t =>
      if isSpace c then
        if inSep then splitSpaces t cur true
        else rev cur :: splitSpaces t [] true
      else splitSpaces t (c :: cur) false
  end.

Definition generateCitationKey (article : Article) : jstr :=
  let titleWords :=
    take 3 (List.filter (fun word => (3 <? length word)%nat)
              (splitSpaces (flat_map lowerKept (title article)) [] false)) in
  let year := extractYear (year article) in
  join [] titleWords ++ year.

Definition bibLines (article : Article) : list jstr :=
  let citationKey := generateCitationKey article in
  let entryType := typeLookup BIBTEX_TYPE_MAP (documentType article) (cu "article") in
  let lines := [cu "@" ++ entryType ++ cu "{" ++ citationKey ++ cu ","] in
  let lines := lines ++ [cu "  title = {" ++ escapeBibTeX (title article) ++ cu "},"] in
  let lines := if (0 <? length (authors article))%nat
               then lines ++ [cu "  author = {"
                                ++ escapeBibTeX (join (cu " and ") (authors article))
                                ++ cu "},"]
               else lines in
  let lines := if truthy (journal article)
               then lines ++ [cu "  journal = {" ++ escapeBibTeX (journal article) ++ cu "},"]
               else lines in
  let year := extractYear (year article) in
  let lines := if bool_decide (year <> cu "unknown")
               then lines ++ [cu "  year = {" ++ year ++ cu "},"] else lines in
  let notes := buildNotesArray article in
  let lines := if (0 <? length notes)%nat
               then lines ++ [cu "  note = {" ++ escapeBibTeX (join (cu "; ") notes) ++ cu "},"]
               else lines in
  lines ++ [cu "}"].

Definition articleToBibTeX (article : Article) : jstr :=
  join LF (bibLines article).

(** The array [entries] of [toBibTeX]. *)
Definition bibEntries (articles : list Article) : list jstr :=
  List.map articleToBibTeX
    (List.filter (fun article => truthy (title article)) articles).

Definition toBibTeX (articles : list Article) : jstr :=
  join (LF ++ LF) (bibEntries articles) ++ LF.

End FormatConverter.

(** ** The page and its environment *)

(** What one run of the content script reads from the page it is injected
    in: the query string, the pagination controls, the articles the
    extractor finds, the clock, and whether the session storage accepts a
    write. *)
Record Env := {
  pageParam : option jstr;   (* URLSearchParams(location.search).get('page') *)
  queryParam : option jstr;  (* URLSearchParams(location.search).get('q') *)
  nextButton : bool;         (* $(SELECTORS.nextButton) is an element *)
  pageInfo : option jstr;    (* textContent of $(SELECTORS.pageInfo), if any *)
  extracted : list Article;  (* ArticleExtractor.extractFromPage() *)
  clock : jstr;              (* new Date().toISOString(), in initializeState *)
  stampClock : jstr;         (* new Date().toISOString(), in getTimestamp *)
  quotaLeft : bool           (* sessionStorage.setItem does not throw *)
}.

Module PageNavigator.

(** [getCurrentPage()]: [parseInt(params.get('page'), 10) || 1], on exact
    integers (the script's value below 2^53 in absolute value). *)
Definition getCurrentPage (env : Env) : Z :=
  match pageParam env with
  | None => 1                         (* parseInt(null) is NaN *)
  | Some p =>
      match parseInt p with
      | Some n => if (n =? 0)%Z then 1 else n
      | None => 1
      end
  end%Z.

(** One attempt of [/(\d+)\u2013(\d+)\s*de\s*(\d+)/] at the start of [s].
    Every quantifier is followed by a code unit outside its class, so the
    greedy choice is the only one that can succeed. *)
Definition rangeAt (s : jstr) : option (jstr * jstr * jstr) :=
  let '(a, s) := span isDigit s in
  if bool_decide (a = []) then None else
  match s with
  | dash :: s =>
      if negb (dash =? 8211) then None else
      let '(b, s) := span isDigit s in
      if bool_decide (b = []) then None else
      match skip isSpace s with
      | d :: e :: s =>
          if negb ((d =? 100) && (e =? 101)) then None else
          let t := fst (span isDigit (skip isSpace s)) in
          if bool_decide (t = []) then None else Some (a, b, t)
      | _ => None
      end
  | [] => None
  end.

(** [text.match(...)]: the leftmost position where the pattern matches. *)
Fixpoint rangeMatch (text : jstr) : option (jstr * jstr * jstr) :=
  match rangeAt text with
  | Some m => Some m
  | None => match text with [] => None | _ :: rest => rangeMatch rest end
  end.

(** [hasNextPage()].  The two numbers are compared as exact integers, as
    the script compares them when both are below 2^53. *)
Definition hasNextPage (env : Env) : cond :=
  if nextButton env then CBool true
  else match pageInfo env with
       | Some text =>
           match rangeMatch text with
           | Some (_, b, t) => CBool (digitsValue b <? digitsValue t)
           | None => CNull
           end
       | None => CBool false
       end.

(** One attempt of [/de\s*(\d+)/] at the start of [s]. *)
Definition totalAt (s : jstr) : option jstr :=
  match s with
  | d :: e :: s =>
      if negb ((d =? 100) && (e =? 101)) then None else
      let t := fst (span isDigit (skip isSpace s)) in
      if bool_decide (t = []) then None else Some t
  | _ => None
  end.

Fixpoint totalMatch (text : jstr) : option jstr :=
  match totalAt text with
  | Some m => Some m
  | None => match text with [] => None | _ :: rest => totalMatch rest end
  end.

(** [getTotalArticlesEstimate()], as an exact integer (the script's value
    below 2^53). *)
Definition getTotalArticlesEstimate (env : Env) : N :=
  match pageInfo env with
  | Some text =>
      match totalMatch text with
      | Some t => digitsValue t
      | None => 0
      end
  | None => 0
  end.

End PageNavigator.

(** ** JSON *)

Module JSON.

(** A parsed JSON text.  [JNum] is a number written without fraction and
    exponent; any other number token is kept as written ([JNumLit]), the
    model never reads its value.  [JObj] lists the own properties in the
    order of their first occurrence. *)
#[local] Set Warnings "-register-all".
Inductive jsval :=
| JNull
| JBool (b : bool)
| JNum (n : Z)
| JNumLit (token : jstr)
| JStr (s : jstr)
| JArr (elems : list jsval)
| JObj (props : list (jstr * jsval)).

(** [obj[key] = v] while parsing: a repeated key keeps its place and takes
    the later value. *)
Fixpoint setProp (key : jstr) (v : jsval) (props : list (jstr * jsval))
  : list (jstr * jsval) :=
  match props with
  | [] => [(key, v)]
  | (k, w) :: rest =>
      if bool_decide (k = key) then (k, v) :: rest
      else (k, w) :: setProp key v rest
  end.

Fixpoint getProp (key : jstr) (props : list (jstr * jsval)) : option jsval :=
  match props with
  | [] => None
  | (k, w) :: rest => if bool_decide (k = key) then Some w else getProp key rest
  end.

Definition isWs (c : N) : bool :=
  (c =? 32) || (c =? 9) || (c =? 10) || (c =? 13).

Definition hexValue (c : N) : option N :=
  if isDigit c then Some (c - 48)
  else if (97 <=? c) && (c <=? 102) then Some (c - 87)
  else if (65 <=? c) && (c <=? 70) then Some (c - 55)
  else None.

(** The character an escape letter stands for. *)
Definition escapeChar (e : N) : option N :=
  if e =? 34 then Some 34 else if e =? 92 then Some 92
  else if e =? 47 then Some 47 else if e =? 98 then Some 8
  else if e =? 102 then Some 12 else if e =? 110 then Some 10
  else if e =? 114 then Some 13 else if e =? 116 then Some 9
  else None.

(** The characters of a string token after its opening quote. *)
Fixpoint parseString (s : jstr) : option (jstr * jstr) :=
  match s with
  | [] => None
  | c :: rest =>
      if c =? 34 then Some ([], rest)
      else if c =? 92 then
        match rest with
        | [] => None
        | e :: rest1 =>
            if e =? 117 then
              match rest1 with
              | h1 :: h2 :: h3 :: h4 :: rest2 =>
                  a ← hexValue h1; b ← hexValue h2;
                  c ← hexValue h3; d ← hexValue h4;
                  '(str, rest') ← parseString rest2;
                  Some ((4096 * a + 256 * b + 16 * c + d) :: str, rest')
              | _ => None
              end
            else
              c ← escapeChar e;
              '(str, rest') ← parseString rest1;
              Some (c :: str, rest')
        end
      else if c <? 32 then None
      else '(str, rest') ← parseString rest; Some (c :: str, rest')
  end.

(** A number token: an optional minus sign, then a single zero or a run of
    digits that does not start with zero, then an optional fraction (a dot
    and digits) and an optional exponent (e or E, a sign, digits). *)
Definition parseNumber (s : jstr) : option (jsval * jstr) :=
  let '(negative, s1) :=
    match s with
    | c :: r => if c =? 45 then (true, r) else (false, s)
    | [] => (false, s)
    end in
  let '(int, s2) :=
    match s1 with
    | c :: r => if c =? 48 then ([48], r) else span isDigit s1
    | [] => ([], s1)
    end in
  if bool_decide (int = []) then None else
  '(frac, s3) ←
    match s2 with
    | c :: r =>
        if c =? 46 then
          let '(ds, r') := span isDigit r in
          if bool_decide (ds = []) then None else Some (46 :: ds, r')
        else Some ([], s2)
    | [] => Some ([], s2)
    end;
  '(exp, s4) ←
    match s3 with
    | e :: r =>
        if (e =? 101) || (e =? 69) then
          let '(sign, r1) :=
            match r with
            | c :: r1 => if (c =? 43) || (c =? 45) then ([c], r1) else ([], r)
            | [] => ([], r)
            end in
          let '(ds, r') := span isDigit r1 in
          if bool_decide (ds = []) then None else Some (e :: sign ++ ds, r')
        else Some ([], s3)
    | [] => Some ([], s3)
    end;
  if bool_decide (frac = [] ∧ exp = []) then
    Some (JNum (if negative then - Z.of_N (digitsValue int)
                else Z.of_N (digitsValue int))%Z, s4)
  else
    Some (JNumLit ((if negative then [45] else []) ++ int ++ frac ++ exp), s4).

(** The recursive-descent reader; [fuel] bounds the nesting of calls. *)
Fixpoint parseValue (fuel : nat) (s : jstr) : option (jsval * jstr) :=
  match fuel with
  | O => None
  | S fuel =>
      let s := skip isWs s in
      if startsWith [123] s then
        let r := skip isWs (drop 1 s) in
        if startsWith [125] r then Some (JObj [], drop 1 r)
        else parseMembers fuel r []
      else if startsWith [91] s then
        let r := skip isWs (drop 1 s) in
        if startsWith [93] r then Some (JArr [], drop 1 r)
        else parseElements fuel r []
      else if startsWith [34] s then
        '(str, r) ← parseString (drop 1 s); Some (JStr str, r)
      else if startsWith (cu "null") s then Some (JNull, drop 4 s)
      else if startsWith (cu "true") s then Some (JBool true, drop 4 s)
      else if startsWith (cu "false") s then Some (JBool false, drop 5 s)
      else parseNumber s
  end
with parseElements (fuel : nat) (s : jstr) (acc : list jsval)
  : option (jsval * jstr) :=
  match fuel with
  | O => None
  | S fuel =>
      '(v, r) ← parseValue fuel s;
      let r := skip isWs r in
      if startsWith [44] r then parseElements fuel (drop 1 r) (acc ++ [v])
      else if startsWith [93] r then Some (JArr (acc ++ [v]), drop 1 r)
      else None
  end
with parseMembers (fuel : nat) (s : jstr) (acc : list (jstr * jsval))
  : option (jsval * jstr) :=
  match fuel with
  | O => None
  | S fuel =>
      let s := skip isWs s in
      if startsWith [34] s then
        '(key, r) ← parseString (drop 1 s);
        let r := skip isWs r in
        if startsWith [58] r then
          '(v, r) ← parseValue fuel (drop 1 r);
          let r := skip isWs r in
          if startsWith [44] r
          then parseMembers fuel (drop 1 r) (setProp key v acc)
          else if startsWith [125] r
          then Some (JObj (setProp key v acc), drop 1 r)
          else None
        else None
      else None
  end.

(** [JSON.parse(text)]; [None] is a thrown SyntaxError.  The reader is
    given more fuel than a text of this length can use (see
    [parse_fuel_enough]). *)
Definition parse (text : jstr) : option jsval :=
  '(v, rest) ← parseValue (2 * length text + 2) text;
  if bool_decide (skip isWs rest = []) then Some v else None.

(** *** Writing JSON *)

Module Stringify.

(** The decimal digits of [n], most significant first. *)
Fixpoint digitsOf (fuel : nat) (n : N) : jstr :=
  match fuel with
  | O => []
  | S fuel =>
      if n <? 10 then [48 + n]
      else digitsOf fuel (n / 10) ++ [48 + n mod 10]
  end.

Definition decimal (n : N) : jstr := digitsOf (S (N.to_nat (N.log2 n))) n.

Definition number (z : Z) : jstr :=
  if (z <? 0)%Z then 45 :: decimal (Z.to_N (- z)) else decimal (Z.to_N z).

Definition hexDigit (d : N) : N := if d <? 10 then 48 + d else 87 + d.

(** [\uXXXX] with lower-case digits. *)
Definition unicodeEscape (c : N) : jstr :=
  [92; 117; hexDigit (c / 4096); hexDigit ((c / 256) mod 16);
   hexDigit ((c / 16) mod 16); hexDigit (c mod 16)].

Definition isHighSurrogate (c : N) : bool := (55296 <=? c) && (c <=? 56319).
Definition isLowSurrogate (c : N) : bool := (56320 <=? c) && (c <=? 57343).

(** One code unit that is not part of a surrogate pair. *)
Definition quoteUnit (c : N) : jstr :=
  if c =? 8 then cu "\b" else if c =? 9 then cu "\t"
  else if c =? 10 then cu "\n" else if c =? 12 then cu "\f"
  else if c =? 13 then cu "\r" else if c =? 34 then [92; 34]
  else if c =? 92 then cu "\\"
  else if (c <? 32) || isHighSurrogate c || isLowSurrogate c
       then unicodeEscape c
  else [c].

(** The characters of a string between its quotes: a well-formed
    surrogate pair is written as it is, a lone surrogate is escaped. *)
Fixpoint quoteBody (s : jstr) : jstr :=
  match s with
  | [] => []
  | c :: t =>
      match t with
      | l :: t' =>
          if isHighSurrogate c && isLowSurrogate l
          then c :: l :: quoteBody t'
          else quoteUnit c ++ quoteBody t
      | [] => quoteUnit c
      end
  end.

Definition quote (s : jstr) : jstr := 34 :: quoteBody s ++ [34].

(** [JSON.stringify(v)] without indentation. *)
Fixpoint stringify (v : jsval) : jstr :=
  match v with
  | JNull => cu "null"
  | JBool true => cu "true"
  | JBool false => cu "false"
  | JNum n => number n
  | JNumLit token => token
  | JStr s => quote s
  | JArr elems => 91 :: join [44] (List.map stringify elems) ++ [93]
  | JObj props =>
      123 :: join [44] (List.map (fun kv => quote (fst kv) ++ 58 :: stringify (snd kv))
                          props) ++ [125]
  end.

End Stringify.

(** The values [stringify] writes so that [parse] reads them back: no
    number kept as a token, no repeated key. *)
Fixpoint written (v : jsval) : bool :=
  match v with
  | JNumLit _ => false
  | JArr elems => forallb written elems
  | JObj props =>
      bool_decide (NoDup (List.map fst props))
      && forallb (fun kv => written (snd kv)) props
  | _ => true
  end.

(** A bound on the fuel the reader needs for the text of [v]. *)
Fixpoint weight (v : jsval) : nat :=
  match v with
  | JArr elems => S (list_sum (List.map (fun x => S (weight x)) elems))
  | JObj props => S (list_sum (List.map (fun kv => S (weight (snd kv))) props))
  | _ => 1
  end.

End JSON.
Import JSON.

(** ** The export state and its checkpoint *)

(** The [ExportState] typedef.  [processedPages] is a [Set]: it keeps the
    order of insertion and holds a value once.  [startTime] is a valid
    [Date], named by its ISO rendering. *)
Record ExportState := {
  format : jstr;
  articles : list Article;
  processedPages : list Z;
  totalArticles : N;
  startTime : jstr
}.

(** [set.add(x)]. *)
Definition setAdd (x : Z) (set : list Z) : list Z :=
  if bool_decide (x ∈ set) then set else set ++ [x].

Module Checkpoint.

Definition articleKeys : list jstr :=
  [ cu "id"; cu "title"; cu "authors"; cu "journal"; cu "year";
    cu "documentType"; cu "isOpenAccess"; cu "isPeerReviewed" ].

Definition stateKeys : list jstr :=
  [ cu "format"; cu "articles"; cu "processedPages"; cu "totalArticles";
    cu "startTime" ].

Definition encodeArticle (a : Article) : jsval :=
  JObj [ (cu "id", JStr (articleId a));
         (cu "title", JStr (title a));
         (cu "authors", JArr (List.map JStr (authors a)));
         (cu "journal", JStr (journal a));
         (cu "year", JStr (year a));
         (cu "documentType", JStr (documentType a));
         (cu "isOpenAccess", JBool (isOpenAccess a));
         (cu "isPeerReviewed", JBool (isPeerReviewed a)) ].

(** The object [serializedState] of [StateManager.save]. *)
Definition encode (st : ExportState) : jsval :=
  JObj [ (cu "format", JStr (format st));
         (cu "articles", JArr (List.map encodeArticle (articles st)));
         (cu "processedPages", JArr (List.map JNum (processedPages st)));
         (cu "totalArticles", JNum (Z.of_N (totalArticles st)));
         (cu "startTime", JStr (startTime st)) ].

Definition asString (v : jsval) : option jstr :=
  match v with JStr s => Some s | _ => None end.

Definition asNumber (v : jsval) : option Z :=
  match v with JNum n => Some n | _ => None end.

Definition asArticle (v : jsval) : option Article :=
  match v with
  | JObj [ (k1, JStr i); (k2, JStr t); (k3, JArr au); (k4, JStr j);
           (k5, JStr y); (k6, JStr d); (k7, JBool oa); (k8, JBool pr) ] =>
      if bool_decide ([k1; k2; k3; k4; k5; k6; k7; k8] = articleKeys) then
        au' ← mapM asString au;
        Some {| articleId := i; title := t; authors := au'; journal := j;
                year := y; documentType := d; isOpenAccess := oa;
                isPeerReviewed := pr |}
      else None
  | _ => None
  end.

Definition twoDigits (a b : N) : option N :=
  if isDigit a && isDigit b then Some (10 * (a - 48) + (b - 48)) else None.

Definition daysInMonth (y m : N) : N :=
  if m =? 2 then
    if ((y mod 4 =? 0) && negb (y mod 100 =? 0)) || (y mod 400 =? 0)
    then 29 else 28
  else if (m =? 4) || (m =? 6) || (m =? 9) || (m =? 11) then 30
  else 31.

(** The strings [Date.prototype.toISOString] produces for the years 0 to
    9999: [YYYY-MM-DDTHH:mm:ss.sssZ].  [new Date(s).toISOString()] is [s]
    again for exactly these. *)
Definition isISOTimestamp (s : jstr) : bool :=
  match s with
  | [y1; y2; y3; y4; p1; m1; m2; p2; d1; d2; p3; h1; h2; p4; n1; n2; p5;
     s1; s2; p6; f1; f2; f3; p7] =>
      match twoDigits y1 y2, twoDigits y3 y4, twoDigits m1 m2, twoDigits d1 d2,
            twoDigits h1 h2, twoDigits n1 n2, twoDigits s1 s2 with
      | Some yh, Some yl, Some m, Some d, Some h, Some n, Some sec =>
          bool_decide ([p1; p2; p3; p4; p5; p6; p7] = [45; 45; 84; 58; 58; 46; 90])
          && (1 <=? m) && (m <=? 12) && (1 <=? d)
          && (d <=? daysInMonth (100 * yh + yl) m)
          && (h <=? 23) && (n <=? 59) && (sec <=? 59)
          && isDigit f1 && isDigit f2 && isDigit f3
      | _, _, _, _, _, _, _ => false
      end
  | _ => false
  end.

(** The typed reading of a loaded object: the checkpoints [save] writes.
    [new Set(array)] adds the elements in order. *)
Definition asExportState (v : jsval) : option ExportState :=
  match v with
  | JObj [ (k1, JStr f); (k2, JArr arts); (k3, JArr pages); (k4, JNum total);
           (k5, JStr iso) ] =>
      if bool_decide ([k1; k2; k3; k4; k5] = stateKeys)
         && (0 <=? total)%Z && isISOTimestamp iso then
        arts' ← mapM asArticle arts;
        pages' ← mapM asNumber pages;
        Some {| format := f; articles := arts';
                processedPages := fold_left (fun set p => setAdd p set) pages' [];
                totalArticles := Z.to_N total; startTime := iso |}
      else None
  | _ => None
  end.

End Checkpoint.

(** ** Checkpoint store *)

Module StateManager.

(** [new Set(x)] does not throw: [x] is undefined ([None]), null, or
    iterable (an array or a string). *)
Definition setAccepts (x : option jsval) : bool :=
  match x with
  | None | Some JNull | Some (JStr _) | Some (JArr _) => true
  | Some _ => false
  end.

(** Converting [v] to a primitive does not throw.  A parsed object throws
    when it has an own property [toString] (never a function); an array
    joins the conversions of its elements. *)
Fixpoint coerces (v : jsval) : bool :=
  match v with
  | JObj props => negb (bool_decide (is_Some (getProp (cu "toString") props)))
  | JArr elems => forallb coerces elems
  | _ => true
  end.

(** [new Date(x)] does not throw. *)
Definition dateAccepts (x : option jsval) : bool :=
  match x with
  | None => true
  | Some v => coerces v
  end.

(** [parsed.name]: undefined ([None]) on anything but an object that has
    the property. *)
Definition field (name : jstr) (parsed : jsval) : option jsval :=
  match parsed with
  | JObj props => getProp name props
  | _ => None
  end.

(** [StateManager.load()]: the result and the slot afterwards.  The
    returned object is [{...parsed, processedPages: new Set(..), startTime:
    new Date(..)}]; it is named by the value [parsed] it is built from. *)
Definition load (slot : option jstr) : option jsval * option jstr :=
  match slot with
  | None => (None, slot)
  | Some data =>
      if negb (truthy data) then (None, slot)
      else
        match parse data with
        | None => (None, None)                      (* SyntaxError *)
        | Some JNull => (None, None)                (* TypeError: null.processedPages *)
        | Some parsed =>
            if setAccepts (field (cu "processedPages") parsed)
               && dateAccepts (field (cu "startTime") parsed)
            then (Some parsed, slot)
            else (None, None)                       (* TypeError *)
        end
  end.

Definition clear (slot : option jstr) : option jstr := None.

(** [StateManager.save(state)]: a refused write is logged and the slot
    keeps what it held. *)
Definition save (env : Env) (st : ExportState) (slot : option jstr)
  : option jstr :=
  if quotaLeft env
  then Some (Stringify.stringify (Checkpoint.encode st))
  else slot.

End StateManager.

(** ** File download *)

Module FileDownloader.

Definition isAlnum (c : N) : bool :=
  ((97 <=? c) && (c <=? 122)) || ((65 <=? c) && (c <=? 90)) || isDigit c.

(** [getTimestamp()]: the first 19 code units of the ISO rendering,
    without colons and hyphens. *)
Definition getTimestamp (env : Env) : jstr :=
  List.filter (fun c => negb ((c =? 58) || (c =? 45))) (take 19 (stampClock env)).

Definition generateFilename (env : Env) (format : jstr) : jstr :=
  let searchTerm :=
    match queryParam env with
    | Some q => if truthy q then q else cu "capes-export"
    | None => cu "capes-export"
    end in
  let cleanTerm :=
    take 20 (List.map (fun c => if isAlnum c then c else 95) searchTerm) in
  let timestamp := getTimestamp env in
  let ext := if bool_decide (format = cu "ris") then cu "ris" else cu "bib" in
  cu "capes_" ++ cleanTerm ++ cu "_" ++ timestamp ++ cu "." ++ ext.

End FileDownloader.

(** ** Export controller *)

(** The texts handed to the progress overlay.  The percentage that goes
    with them is a floating-point number and is left out. *)
Inductive Status :=
| Starting
| Resuming
| Collected (nArticles nPages : nat)
| NavigatingNext
| Generating
| Exported (nArticles : nat)
| ExportFailed (cause : jstr).

(** The calls the controller makes on its collaborators, in order. *)
Inductive Event :=
| Show (msg : Status)                      (* progressUI.show *)
| UpdateStatus (msg : Status)              (* progressUI.updateStatus *)
| Hide (delay : N)                         (* progressUI.hide *)
| Sleep (ms : N)                           (* await sleep *)
| Saved (accepted : bool)                  (* StateManager.save *)
| Cleared                                  (* StateManager.clear *)
| Converted (bibtex : bool)                (* FormatConverter.toRIS / toBibTeX *)
| Download (content filename : jstr)       (* FileDownloader.download *)
| GoToNextPage (page : Z)                  (* PageNavigator.goToNextPage *)
| ConsoleError (cause : jstr).             (* console.error in handleError *)

(** Where a call of the controller leaves the export. *)
Inductive Phase :=
| Idle
| Navigating (page : Z)
| Done
| Failed (cause : jstr)
| Untyped.   (* outside the model: the loaded object is not a checkpoint
                written by [save]; the script goes on with it as it is *)

(** The session storage slot, the controller's fields, and the calls made
    so far. *)
Record System := {
  slot : option jstr;            (* sessionStorage[STORAGE_KEY] *)
  state : option ExportState;    (* exportController.state *)
  watchdog : bool;               (* exportController.processingTimeout is armed *)
  trace : list Event
}.

Definition NAV_DELAY : N := 1200.
Definition PROCESSING_TIMEOUT : N := 30000.

Module ExportController.

Import PageNavigator FileDownloader.

Definition emit (e : Event) (sys : System) : System :=
  {| slot := slot sys; state := state sys; watchdog := watchdog sys;
     trace := trace sys ++ [e] |}.

Definition setSlot (s : option jstr) (sys : System) : System :=
  {| slot := s; state := state sys; watchdog := watchdog sys;
     trace := trace sys |}.

Definition setState (st : option ExportState) (sys : System) : System :=
  {| slot := slot sys; state := st; watchdog := watchdog sys;
     trace := trace sys |}.

Definition setWatchdog (armed : bool) (sys : System) : System :=
  {| slot := slot sys; state := state sys; watchdog := armed;
     trace := trace sys |}.

Definition clearProcessingTimeout (sys : System) : System :=
  setWatchdog false sys.

Definition setProcessingTimeout (sys : System) : System :=
  setWatchdog true (clearProcessingTimeout sys).

Definition clearCheckpoint (sys : System) : System :=
  emit Cleared (setSlot (StateManager.clear (slot sys)) sys).

Definition handleError (cause : jstr) (sys : System) : System * Phase :=
  let sys := clearProcessingTimeout sys in
  let sys := emit (UpdateStatus (ExportFailed cause)) sys in
  let sys := emit (Hide 4000) sys in
  let sys := clearCheckpoint sys in
  let sys := emit (ConsoleError cause) sys in
  (sys, Failed cause).

(** The callback armed by [setProcessingTimeout], should it fire. *)
Definition watchdogFires (sys : System) : System * Phase :=
  if watchdog sys then handleError (cu "Export timed out") sys else (sys, Idle).

(** [clearExistingExport]; the removal of a left-over overlay element
    touches the page only and is left out. *)
Definition clearExistingExport (sys : System) : System :=
  clearCheckpoint (clearProcessingTimeout sys).

Definition initializeState (env : Env) (format : jstr) (sys : System) : System :=
  setState (Some {| format := format;
                    articles := [];
                    processedPages := [];
                    totalArticles := getTotalArticlesEstimate env;
                    startTime := clock env |}) sys.

(** [shouldContinueToNextPage(currentPage)].  [currentPage + 1] is the exact
    successor, which is what the script computes for page indices below
    2^53 in absolute value. *)
Definition shouldContinueToNextPage (env : Env) (st : ExportState)
    (currentPage : Z) : bool :=
  let nextPage := (currentPage + 1)%Z in
  holds (hasNextPage env) && negb (bool_decide (nextPage ∈ processedPages st)).

(** [navigateToNextPage()].  The page handed to [goToNextPage] is the exact
    successor of the current page (the script's value below 2^53). *)
Definition navigateToNextPage (env : Env) (sys : System) : System * Phase :=
  let sys := emit (UpdateStatus NavigatingNext) sys in
  let sys := emit (Sleep NAV_DELAY) sys in
  let nextPage := (getCurrentPage env + 1)%Z in
  (emit (GoToNextPage nextPage) sys, Navigating nextPage).

Definition generateExportContent (st : ExportState) : jstr :=
  if bool_decide (format st = cu "ris")
  then FormatConverter.toRIS (articles st)
  else FormatConverter.toBibTeX (articles st).

(** [completeExport], for the state [st] the controller holds. *)
Definition completeExport (env : Env) (st : ExportState) (sys : System)
  : System * Phase :=
  let sys := clearProcessingTimeout sys in
  if bool_decide (length (articles st) = 0%nat) then
    handleError (cu "No articles found to export") sys
  else
    let sys := emit (UpdateStatus Generating) sys in
    let sys := emit (Converted (negb (bool_decide (format st = cu "ris")))) sys in
    let content := generateExportContent st in
    let filename := generateFilename env (format st) in
    let sys := emit (Download content filename) sys in
    let sys := emit (UpdateStatus (Exported (length (articles st)))) sys in
    let sys := emit (Hide 2000) sys in
    let sys := clearCheckpoint sys in
    (sys, Done).

(** The part of [processCurrentPage] that changes the state: the page's
    articles are appended and the page is recorded when there are any. *)
Definition harvest (currentPage : Z) (found : list Article) (st : ExportState)
  : ExportState :=
  if (0 <? length found)%nat then
    {| format := format st;
       articles := articles st ++ found;
       processedPages := setAdd currentPage (processedPages st);
       totalArticles := totalArticles st;
       startTime := startTime st |}
  else st.

Definition processCurrentPage (env : Env) (sys : System) : System * Phase :=
  match state sys with
  | None => (sys, Idle)
  | Some st =>
      let sys := setProcessingTimeout sys in
      let currentPage := getCurrentPage env in
      let found := extracted env in
      let st' := harvest currentPage found st in
      let sys := setState (Some st') sys in
      let sys :=
        if (0 <? length found)%nat then
          emit (Saved (quotaLeft env))
            (setSlot (StateManager.save env st' (slot sys)) sys)
        else sys in
      let sys := emit (UpdateStatus (Collected (length (articles st'))
                                       (length (processedPages st')))) sys in
      if shouldContinueToNextPage env st' currentPage
      then navigateToNextPage env sys
      else completeExport env st' sys
  end.

Definition startExport (env : Env) (format : jstr) (sys : System)
  : System * Phase :=
  let sys := clearExistingExport sys in
  let sys := initializeState env format sys in
  let sys := emit (Show Starting) sys in
  processCurrentPage env sys.

(** [resumeExport()].  The controller's state is typed in this model, so
    the model follows the script on the objects [save] writes.  On any
    other object the script adopts what [load] returned and calls
    [processCurrentPage] on it; the model stops there with [Untyped] and
    says nothing of what follows.  Every property below that goes through
    a resume is stated for a slot that is empty or was written by
    [save]. *)
Definition resumeExport (env : Env) (sys : System) : System * Phase :=
  let '(loaded, slot') := StateManager.load (slot sys) in
  let sys := setSlot slot' sys in
  match loaded with
  | None => (setState None sys, Idle)
  | Some parsed =>
      match Checkpoint.asExportState parsed with
      | None => (sys, Untyped)
      | Some st =>
          let sys := setState (Some st) sys in
          let sys := emit (Show Resuming) sys in
          let sys := emit (Sleep 500) sys in
          processCurrentPage env sys
      end
  end.

End ExportController.

(** ** The content script *)

(** A control message: [action], and [format] when the field is present. *)
Record Message := {
  action : jstr;
  messageFormat : option jstr
}.

Module ContentScript.

Import ExportController.

(** The listener of [chrome.runtime.onMessage]: the system afterwards,
    where the export stands, and the argument of [sendResponse] if it was
    called ([Some true] is [{ success: true }]). *)
Definition onMessage (env : Env) (message : Message) (sys : System)
  : System * Phase * option bool :=
  match messageFormat message with
  | Some fmt =>
      if bool_decide (action message = cu "export") && truthy fmt then
        let '(sys, phase) := startExport env fmt sys in
        (sys, phase, Some true)
      else (sys, Idle, None)
  | None => (sys, Idle, None)
  end.

(** The script as the browser runs it in a freshly loaded page: a new
    controller, then [if (StateManager.load()) resumeExport()]. *)
Definition pageLoad (env : Env) (slot0 : option jstr) (trace0 : list Event)
  : System * Phase :=
  let sys := {| slot := slot0; state := None; watchdog := false;
                trace := trace0 |} in
  let '(loaded, slot') := StateManager.load (slot sys) in
  let sys := setSlot slot' sys in
  match loaded with
  | Some _ => resumeExport env sys
  | None => (sys, Idle)
  end.

End ContentScript.

(** ** Runs *)

Module Run.

Import ExportController ContentScript.

(** The pages the browser loads one after the other: each runs the content
    script afresh, on the slot the previous one left. *)
Fixpoint pageLoads (envs : list Env) (slot0 : option jstr) (trace0 : list Event)
  : list (System * Phase) :=
  match envs with
  | [] => []
  | env :: rest =>
      let r := pageLoad env slot0 trace0 in
      r :: pageLoads rest (slot r.1) (trace r.1)
  end.

(** An export started on the page [env0], followed by the pages [envs]. *)
Definition exportRun (env0 : Env) (fmt : jstr) (sys0 : System) (envs : list Env)
  : list (System * Phase) :=
  let r := startExport env0 fmt sys0 in
  r :: pageLoads envs (slot r.1) (trace r.1).

(** The export states the controller holds at the end of each page, in
    order (a page that finds no checkpoint holds none). *)
Definition runStates (run : list (System * Phase)) : list ExportState :=
  omap (fun r => state r.1) run.

End Run.

(** ** Vocabulary of the specification *)

Module Spec.

(** The seven characters BibTeX gives a meaning to: backslash, the braces,
    dollar, ampersand, percent and hash. *)
Definition bibtexSpecial (c : N) : bool :=
  (c =? 92) || (c =? 123) || (c =? 125) || (c =? 36) || (c =? 38)
  || (c =? 37) || (c =? 35).

(** A code unit escaped once: a backslash before a special character. *)
Definition escapedOnce (c : N) : jstr :=
  if bibtexSpecial c then [92; c] else [c].


(** A RIS line: the tag, two spaces, a hyphen, a space, the value. *)
Definition risField (tag : string) (value : jstr) : jstr :=
  cu tag ++ cu "  - " ++ value.

Definition optional (present : bool) (lines : list jstr) : list jstr :=
  if present then lines else [].

Definition digits (s : jstr) : Prop := s ≠ [] ∧ forallb isDigit s = true.

(** The text holds a range indicator [A-B de T]: digits, an en dash
    (U+2013), digits, the word [de] with optional white space around it,
    digits.  The portal writes it in Portuguese. *)
Definition rangeShape (text a b t : jstr) : Prop :=
  ∃ pre ws1 ws2 post,
    text = pre ++ a ++ [8211] ++ b ++ ws1 ++ cu "de" ++ ws2 ++ t ++ post
    ∧ digits a ∧ digits b ∧ digits t
    ∧ forallb isSpace ws1 = true ∧ forallb isSpace ws2 = true.

(** A range [A-B de T] stands in [text] after [pre], followed by [post]. *)
Definition rangeOccurs (text pre a b t post : jstr) : Prop :=
  ∃ ws1 ws2,
    text = pre ++ a ++ [8211] ++ b ++ ws1 ++ cu "de" ++ ws2 ++ t ++ post
    ∧ digits a ∧ digits b ∧ digits t
    ∧ forallb isSpace ws1 = true ∧ forallb isSpace ws2 = true.

(** No digit follows: the number before [post] is read to its end. *)
Definition endsNumber (post : jstr) : Prop :=
  match post with [] => True | c :: _ => isDigit c = false end.

(** [A-B de T] is the first range of [text]: no range starts further to
    the left, and T is read to its last digit. *)
Definition firstRange (text a b t : jstr) : Prop :=
  ∃ pre post,
    rangeOccurs text pre a b t post ∧ endsNumber post
    ∧ ∀ pre' a' b' t' post',
        rangeOccurs text pre' a' b' t' post' → (length pre ≤ length pre')%nat.

(** The word [de] followed by the number T stands in [text] after [pre]. *)
Definition totalOccurs (text pre t post : jstr) : Prop :=
  ∃ ws, text = pre ++ cu "de" ++ ws ++ t ++ post
        ∧ forallb isSpace ws = true ∧ digits t.

(** T is the first number of [text] that follows the word [de]. *)
Definition firstTotal (text t : jstr) : Prop :=
  ∃ pre post,
    totalOccurs text pre t post ∧ endsNumber post
    ∧ ∀ pre' t' post',
        totalOccurs text pre' t' post' → (length pre ≤ length pre')%nat.

(** [s'] continues [s]: the pages and the records of [s] are still there,
    in their order, and what is new comes after them. *)
Definition extends (s s' : ExportState) : Prop :=
  processedPages s `prefix_of` processedPages s'
  ∧ articles s `prefix_of` articles s'.

(** A state as [initializeState] and [harvest] make them. *)
Definition sound (st : ExportState) : Prop :=
  NoDup (processedPages st) ∧ Checkpoint.isISOTimestamp (startTime st) = true.

(** The slot is empty or holds the checkpoint of [st]. *)
Definition checkpointOf (st : ExportState) (slot : option jstr) : Prop :=
  slot = None ∨ slot = Some (Stringify.stringify (Checkpoint.encode st)).

(** What may follow a value in a JSON text: nothing, a comma, or a closing
    bracket or brace. *)
Definition delimited (rest : jstr) : Prop :=
  match rest with
  | [] => True
  | c :: _ => c = 44 ∨ c = 93 ∨ c = 125
  end.

(** The first code unit of a written value. *)
Definition valueStart (c : N) : Prop :=
  c = 110 ∨ c = 116 ∨ c = 102 ∨ c = 45 ∨ c = 34 ∨ c = 91 ∨ c = 123
  ∨ isDigit c = true.

(** The reader gets [v] back from its text, given enough fuel. *)
Definition readsBack (v : jsval) : Prop :=
  written v = true → ∀ fuel rest, (weight v ≤ fuel)%nat → delimited rest →
  parseValue fuel (Stringify.stringify v ++ rest) = Some (v, rest).

End Spec.

(** ** Sample inputs *)

Module Samples.

Definition emptyPage : Env :=
  {| pageParam := None; queryParam := None; nextButton := false;
     pageInfo := None; extracted := [];
     clock := cu "2024-03-01T10:00:00.000Z";
     stampClock := cu "2024-03-01T10:00:05.000Z";
     quotaLeft := true |}.

Definition withPageParam (p : jstr) (env : Env) : Env :=
  {| pageParam := Some p; queryParam := queryParam env;
     nextButton := nextButton env; pageInfo := pageInfo env;
     extracted := extracted env; clock := clock env;
     stampClock := stampClock env; quotaLeft := quotaLeft env |}.

Definition withPageInfo (text : jstr) (env : Env) : Env :=
  {| pageParam := pageParam env; queryParam := queryParam env;
     nextButton := nextButton env; pageInfo := Some text;
     extracted := extracted env; clock := clock env;
     stampClock := stampClock env; quotaLeft := quotaLeft env |}.

Definition withNextButton (env : Env) : Env :=
  {| pageParam := pageParam env; queryParam := queryParam env;
     nextButton := true; pageInfo := pageInfo env;
     extracted := extracted env; clock := clock env;
     stampClock := stampClock env; quotaLeft := quotaLeft env |}.

Definition withExtracted (found : list Article) (env : Env) : Env :=
  {| pageParam := pageParam env; queryParam := queryParam env;
     nextButton := nextButton env; pageInfo := pageInfo env;
     extracted := found; clock := clock env;
     stampClock := stampClock env; quotaLeft := quotaLeft env |}.

Definition withFullStorage (env : Env) : Env :=
  {| pageParam := pageParam env; queryParam := queryParam env;
     nextButton := nextButton env; pageInfo := pageInfo env;
     extracted := extracted env; clock := clock env;
     stampClock := stampClock env; quotaLeft := false |}.

(** The range text in English, as the specification writes it, and in
    Portuguese, as the portal does. *)
Definition rangeOf (a b t : string) : jstr :=
  cu a ++ [8211] ++ cu b ++ cu " of " ++ cu t.
Definition rangeDe (a b t : string) : jstr :=
  cu a ++ [8211] ++ cu b ++ cu " de " ++ cu t.

Definition studyOfX : Article :=
  {| articleId := cu "123"; title := cu "A Study of X";
     authors := [cu "Smith, J."]; journal := cu "Journal Y";
     year := cu "2020"; documentType := cu "Article";
     isOpenAccess := true; isPeerReviewed := false |}.

Definition surveyOfY : Article :=
  {| articleId := cu "456"; title := cu "A Survey of Y";
     authors := [cu "Silva, M."; cu "Costa, R."]; journal := cu "Revista Z";
     year := cu "2021"; documentType := cu "Artigo";
     isOpenAccess := false; isPeerReviewed := true |}.

Definition freshSystem : System :=
  {| slot := None; state := None; watchdog := false; trace := [] |}.

Definition withSlot (text : jstr) (sys : System) : System :=
  {| slot := Some text; state := state sys; watchdog := watchdog sys;
     trace := trace sys |}.

Definition holding (st : ExportState) (sys : System) : System :=
  {| slot := slot sys; state := Some st; watchdog := watchdog sys;
     trace := trace sys |}.

(** A string between double quotes, without characters to escape. *)
Definition dq (s : string) : jstr := [34] ++ cu s ++ [34].

(** A stored text that parses, with an article list and a page list, but
    no [totalArticles] and a [startTime] that is not a date:
    [{"format":"ris","articles":[],"processedPages":[1],"startTime":"yesterday"}]. *)
Definition staleCheckpoint : jstr :=
  cu "{" ++ dq "format" ++ cu ":" ++ dq "ris" ++ cu ","
    ++ dq "articles" ++ cu ":[],"
    ++ dq "processedPages" ++ cu ":[1],"
    ++ dq "startTime" ++ cu ":" ++ dq "yesterday" ++ cu "}".

(** The run after page 1 gave one article. *)
Definition afterPageOne : ExportState :=
  {| format := cu "ris"; articles := [studyOfX]; processedPages := [1%Z];
     totalArticles := 20; startTime := cu "2024-03-01T10:00:00.000Z" |}.

(** The checkpoint [save] writes for it. *)
Definition checkpointAfterPageOne : jstr :=
  JSON.Stringify.stringify (Checkpoint.encode afterPageOne).

Definition exportMessage (fmt : option jstr) : Message :=
  {| action := cu "export"; messageFormat := fmt |}.

(** Page 1 of the listing, showing one article and an enabled next
    control. *)
Definition pageOne : Env :=
  withNextButton (withPageParam (cu "1") (withExtracted [studyOfX] emptyPage)).

(** The last page of a listing, showing one article. *)
Definition lastPage : Env := withExtracted [studyOfX] emptyPage.

(** Page 2, showing another article and a next control. *)
Definition pageTwo : Env :=
  withNextButton (withPageParam (cu "2") (withExtracted [surveyOfY] emptyPage)).

(** Page 2 again, while the session storage refuses writes. *)
Definition pageTwoStorageFull : Env := withFullStorage pageTwo.

(** Page 3, showing nothing and no next control. *)
Definition pageThree : Env := withPageParam (cu "3") emptyPage.

End Samples.

(** ** Article extraction *)

(** The text functions the extractor uses. *)
Module Text.

(** [String.prototype.trim]: white space and line terminators are removed
    at both ends. *)
Definition trim (s : jstr) : jstr :=
  rev (skip isSpace (rev (skip isSpace s))).

(** [s.includes(sub)]. *)
Fixpoint includes (sub s : jstr) : bool :=
  startsWith sub s
  || match s with
     | [] => false
     | _ :: rest => includes sub rest
     end.

(** [s.split(sep)] for a non-empty separator: [cur] is the piece being read
    (reversed), [pending] counts the code units of a separator that was found
    and is still being passed. *)
Fixpoint splitOn (sep s cur : jstr) (pending : nat) : list jstr :=
  match s with
  | [] => [rev cur]
  | c :: rest =>
      match pending with
      | S n => splitOn sep rest cur n
      | O =>
          if startsWith sep s
          then rev cur :: splitOn sep rest [] (length sep - 1)
          else splitOn sep rest (c :: cur) 0
      end
  end.

Definition split (sep s : jstr) : list jstr := splitOn sep s [] 0.

(** [s.replace(sub, rep)] with a string pattern: the first occurrence
    only. *)
Fixpoint replaceFirst (sub rep s : jstr) : jstr :=
  if startsWith sub s then rep ++ drop (length sub) s
  else match s with
       | [] => []
       | c :: rest => c :: replaceFirst sub rep rest
       end.

(** After a [<], the pattern [/<\/?[^>]+>/] matches when at least one code
    unit other than [>] comes before the next [>]. *)
Definition opensTag (rest : jstr) : bool :=
  match rest with
  | x :: rest' => negb (x =? 62) && existsb (N.eqb 62) rest'
  | [] => false
  end.

(** [s.replace(/<\/?[^>]+>/g, '')]: [inTag] tells that a match has begun
    and runs up to the next [>]. *)
Fixpoint stripTags (s : jstr) (inTag : bool) : jstr :=
  match s with
  | [] => []
  | c :: rest =>
      if inTag then stripTags rest (negb (c =? 62))
      else if (c =? 60) && opensTag rest then stripTags rest true
      else c :: stripTags rest false
  end.

(** [getCleanText(element)], for the [textContent] of the element, if there
    is one. *)
Definition getCleanText (element : option jstr) : jstr :=
  match element with
  | None => []
  | Some text => stripTags (trim text) false
  end.

End Text.

(** What the extractor reads in the content block of a result: the text of
    the elements its selectors find. *)
Record ContentNode := {
  titleText : option jstr;     (* textContent of $(SELECTORS.title, content) *)
  authorTexts : list jstr;     (* textContent of each $$(SELECTORS.authors, content) *)
  typeText : option jstr;      (* textContent of $(SELECTORS.documentType, content) *)
  openAccessBadge : bool;      (* $(SELECTORS.openAccess, content) is an element *)
  peerReviewedBadge : bool;    (* $(SELECTORS.peerReviewed, content) is an element *)
  metaTexts : list jstr        (* textContent of each $$(SELECTORS.metadata, content) *)
}.

(** An element of [$$(SELECTORS.article)]: its [id] and its content block,
    if it has one. *)
Record ResultNode := {
  nodeId : jstr;
  contentNode : option ContentNode
}.

Module ArticleExtractor.

Import Text.

Definition extractTitle (content : ContentNode) : jstr :=
  getCleanText (titleText content).

Definition extractAuthors (content : ContentNode) : list jstr :=
  List.filter truthy (List.map (fun el => getCleanText (Some el)) (authorTexts content)).

Definition extractDocumentType (content : ContentNode) : jstr :=
  let text := getCleanText (typeText content) in
  if truthy text then text else cu "Artigo".

Definition checkOpenAccess (content : ContentNode) : bool :=
  openAccessBadge content.

Definition checkPeerReviewed (content : ContentNode) : bool :=
  peerReviewedBadge content.

Definition setYear (y : jstr) (article : Article) : Article :=
  {| articleId := articleId article; title := title article;
     authors := authors article; journal := journal article; year := y;
     documentType := documentType article;
     isOpenAccess := isOpenAccess article;
     isPeerReviewed := isPeerReviewed article |}.

Definition setJournal (j : jstr) (article : Article) : Article :=
  {| articleId := articleId article; title := title article;
     authors := authors article; journal := j; year := year article;
     documentType := documentType article;
     isOpenAccess := isOpenAccess article;
     isPeerReviewed := isPeerReviewed article |}.

(** The body of the loop of [extractMetadata] for a text that holds both
    [" - "] and ["|"]. *)
Definition readMetadata (text : jstr) (article : Article) : Article :=
  let parts := split (cu " - ") text in
  if (2 <=? length parts)%nat then
    let article := setYear (trim (nth 0 parts [])) article in
    let remaining := split (cu " | ") (nth 1 parts []) in
    if (2 <=? length remaining)%nat
    then setJournal (trim (nth 1 remaining [])) article
    else article
  else article.

(** [extractMetadata(content, article)], over the metadata paragraphs: the
    first one that holds both separators is read, and the loop ends. *)
Fixpoint extractMetadata (metas : list jstr) (article : Article) : Article :=
  match metas with
  | [] => article
  | meta :: rest =>
      let text := getCleanText (Some meta) in
      if includes (cu " - ") text && includes (cu "|") text
      then readMetadata text article
      else extractMetadata rest article
  end.

Definition extractSingleArticle (element : ResultNode) (content : ContentNode)
    (index : nat) : Article :=
  let id := replaceFirst (cu "result-busca-") [] (nodeId element) in
  let article :=
    {| articleId := if truthy id then id
                    else cu "article_" ++ Stringify.decimal (N.of_nat index);
       title := extractTitle content;
       authors := extractAuthors content;
       journal := [];
       year := [];
       documentType := extractDocumentType content;
       isOpenAccess := checkOpenAccess content;
       isPeerReviewed := checkPeerReviewed content |} in
  extractMetadata (metaTexts content) article.

Definition isValidArticle (article : Article) : bool :=
  truthy (title article) && (5 <? length (title article))%nat.

(** The loop of [extractFromPage] from the element number [index] on. *)
Fixpoint extractFrom (index : nat) (elements : list ResultNode) : list Article :=
  match elements with
  | [] => []
  | element :: rest =>
      match contentNode element with
      | None => extractFrom (S index) rest
      | Some content =>
          let article := extractSingleArticle element content index in
          if isValidArticle article
          then article :: extractFrom (S index) rest
          else extractFrom (S index) rest
      end
  end.

Definition extractFromPage (elements : list ResultNode) : list Article :=
  extractFrom 0 elements.

End ArticleExtractor.

(** ** Navigation *)

Module Navigation.

Import PageNavigator.

(** The value [goToNextPage] gives the page parameter:
    [String(getCurrentPage() + 1)]. *)
Definition nextPageParam (env : Env) : jstr :=
  Stringify.number (getCurrentPage env + 1).

(** The page the browser shows after [goToNextPage]: the address of [env]
    with the page parameter replaced; what the page shows is [next]'s. *)
Definition arrivesAt (env next : Env) : Env :=
  {| pageParam := Some (nextPageParam env); queryParam := queryParam env;
     nextButton := nextButton next; pageInfo := pageInfo next;
     extracted := extracted next; clock := clock next;
     stampClock := stampClock next; quotaLeft := quotaLeft next |}.

End Navigation.

(** ** Citation keys *)

Module CitationKey.

(** The code units a citation key is made of: lower-case ASCII letters and
    digits. *)
Definition keyUnit (c : N) : bool :=
  ((97 <=? c) && (c <=? 122)) || isDigit c.

End CitationKey.

(** * Properties *)

(** ** Strings *)

Section StringFacts.

Lemma join_app_last sep (parts : list jstr) (p : jstr) :
  parts ≠ [] → join sep (parts ++ [p]) = join sep parts ++ sep ++ p.
Proof.
  induction parts as [|x [|y rest] IH]; intros Hne; [done | done |].
  change (join sep ((x :: y :: rest) ++ [p]))
    with (x ++ sep ++ join sep ((y :: rest) ++ [p])).
  rewrite IH by done. cbn [join]. by rewrite <- !app_assoc.
Qed.

(** What one more part adds to the length of a joined text. *)
Lemma length_join_cons sep (y : jstr) (l : list jstr) :
  length (join sep (y :: l))
  = (length y + (if bool_decide (l = []) then 0 else length sep + length (join sep l)))%nat.
Proof.
  destruct l as [|z l]; [cbn; lia|].
  change (join sep (y :: z :: l)) with (y ++ sep ++ join sep (z :: l)).
  rewrite bool_decide_eq_false_2 by done. by rewrite !length_app.
Qed.

Lemma length_join_insert sep (l1 l2 : list jstr) (x : jstr) :
  length (join sep (l1 ++ x :: l2))
  = (length (join sep (l1 ++ l2)) + length x
     + (if bool_decide (l1 ++ l2 = []) then 0 else length sep))%nat.
Proof.
  induction l1 as [|y l1 IH]; cbn [app].
  - rewrite length_join_cons. destruct l2 as [|z l2]; [cbn; lia|].
    rewrite !bool_decide_eq_false_2 by done. lia.
  - rewrite !length_join_cons, IH.
    rewrite (bool_decide_eq_false_2 (l1 ++ x :: l2 = [])) by by destruct l1.
    rewrite (bool_decide_eq_false_2 (y :: l1 ++ l2 = [])) by done.
    case_bool_decide as E; [|lia]. rewrite E. cbn. lia.
Qed.

Lemma last_app_nonempty {A} (l r : list A) : r ≠ [] → last (l ++ r) = last r.
Proof.
  intros Hr. destruct r as [|x r _] using rev_ind; [done|].
  by rewrite app_assoc, !last_snoc.
Qed.

Lemma fold_left_push {A} (f : A → jstr) (l : list A) (init : list jstr) :
  fold_left (fun lines x => lines ++ [f x]) l init = init ++ List.map f l.
Proof.
  revert init. induction l as [|x l IH]; intros init; cbn.
  - by rewrite app_nil_r.
  - by rewrite IH, <- app_assoc.
Qed.

Lemma span_app p (s : jstr) : fst (span p s) ++ snd (span p s) = s.
Proof.
  induction s as [|c t IH]; [done|]. cbn.
  destruct (p c); [|done]. destruct (span p t). cbn in *. by rewrite IH.
Qed.

Lemma span_fst_all p (s : jstr) : forallb p (fst (span p s)) = true.
Proof.
  induction s as [|c t IH]; [done|]. cbn.
  destruct (p c) eqn:E; [|done]. destruct (span p t). cbn in *. by rewrite E, IH.
Qed.

Lemma span_snd_head p (s : jstr) c r : snd (span p s) = c :: r → p c = false.
Proof.
  induction s as [|x t IH]; [done|]. cbn.
  destruct (p x) eqn:E.
  - destruct (span p t). cbn in *. exact IH.
  - cbn. by intros [= <- <-].
Qed.

(** The span of a run followed by a code unit outside the class. *)
Lemma span_run p (a r : jstr) :
  forallb p a = true → (match r with [] => True | c :: _ => p c = false end) →
  span p (a ++ r) = (a, r).
Proof.
  intros Ha Hr. induction a as [|x a IH]; cbn in *.
  - destruct r as [|c r]; [done|]. cbn. by rewrite Hr.
  - apply andb_prop in Ha as [Hx Ha]. by rewrite Hx, IH.
Qed.

End StringFacts.

(** ** Format converters *)

Section ConverterFacts.

Import FormatConverter Spec.

Lemma replaceAll_app c rep (x y : jstr) :
  replaceAll c rep (x ++ y) = replaceAll c rep x ++ replaceAll c rep y.
Proof. apply flat_map_app. Qed.

Lemma escapeBibTeX_app (x y : jstr) :
  escapeBibTeX (x ++ y) = escapeBibTeX x ++ escapeBibTeX y.
Proof. unfold escapeBibTeX. by rewrite !replaceAll_app. Qed.

Ltac case_unit c k :=
  destruct (N.eqb_spec c k) as [->|?]; [vm_compute; reflexivity|].

Lemma escapeBibTeX_unit c : escapeBibTeX [c] = escapedOnce c.
Proof.
  case_unit c 92. case_unit c 123. case_unit c 125. case_unit c 36.
  case_unit c 38. case_unit c 37. case_unit c 35.
  repeat match goal with H : c ≠ _ |- _ => apply N.eqb_neq in H end.
  unfold escapedOnce, bibtexSpecial, escapeBibTeX, replaceAll.
  repeat (cbn [flat_map app];
          match goal with H : (c =? _) = false |- _ => rewrite H end).
  reflexivity.
Qed.

Lemma escapeBibTeX_flat_map (s : jstr) :
  escapeBibTeX s = flat_map escapedOnce s.
Proof.
  induction s as [|c s IH]; [done|].
  change (c :: s) with ([c] ++ s).
  by rewrite escapeBibTeX_app, escapeBibTeX_unit, IH.
Qed.

Lemma flat_map_safe (s : jstr) :
  forallb (fun c => negb (bibtexSpecial c)) s = true → flat_map escapedOnce s = s.
Proof.
  induction s as [|c s IH]; [done|]. cbn. intros [Hc Hs]%andb_prop.
  unfold escapedOnce at 1. apply negb_true_iff in Hc. rewrite Hc. cbn.
  by rewrite IH.
Qed.

(** C5.  [escapeBibTeX] puts one backslash before every occurrence of the
    seven characters backslash, braces, dollar, ampersand, percent and hash,
    and leaves every other code unit as it is; the backslash replacement is
    the first of the seven passes, so the backslashes the later passes add
    are not escaped again.  On a string without these characters it is the
    identity, and so applying it twice is the same as applying it once. *)
Theorem escapeBibTeX_escapes_once (s : jstr) :
  escapeBibTeX s = flat_map escapedOnce s
  ∧ escapeBibTeX s
    = replaceAll 35 (cu "\#") (replaceAll 37 (cu "\%") (replaceAll 38 (cu "\&")
        (replaceAll 36 (cu "\$") (replaceAll 125 (cu "\}")
           (replaceAll 123 (cu "\{") (replaceAll 92 [92; 92] s))))))
  ∧ length (escapeBibTeX s)
    = (length s + length (List.filter bibtexSpecial s))%nat
  ∧ (forallb (fun c => negb (bibtexSpecial c)) s = true →
     escapeBibTeX s = s ∧ escapeBibTeX (escapeBibTeX s) = escapeBibTeX s).
Proof.
  split; [apply escapeBibTeX_flat_map|]. split; [reflexivity|]. split.
  - rewrite escapeBibTeX_flat_map. induction s as [|c s IH]; [done|].
    cbn [flat_map List.filter]. rewrite length_app, IH. unfold escapedOnce.
    destruct (bibtexSpecial c); cbn; lia.
  - intros Hs. rewrite !escapeBibTeX_flat_map, !(flat_map_safe s Hs). done.
Qed.

Lemma escapeBibTeX_escapes_once_witness :
  escapeBibTeX (cu "Smith and Jones") = cu "Smith and Jones"
  ∧ escapeBibTeX (escapeBibTeX (cu "Smith and Jones"))
    = escapeBibTeX (cu "Smith and Jones").
Proof.
  apply (escapeBibTeX_escapes_once (cu "Smith and Jones")). reflexivity.
Defined.

(** *** The year pattern *)

Lemma yearMatch_sound (s y : jstr) :
  yearMatch s = Some y →
  ∃ pre post, s = pre ++ y ++ post ∧ length y = 4%nat ∧ forallb isDigit y = true.
Proof.
  induction s as [|a t IH]; [done|]. cbn [yearMatch].
  destruct t as [|b [|c [|d rest]]]; try done.
  destruct (isDigit a && isDigit b && isDigit c && isDigit d) eqn:E.
  - intros [= <-]. exists [], rest. repeat split. cbn.
    by rewrite andb_true_r, !andb_assoc.
  - intros H. destruct (IH H) as (pre & post & -> & Hl & Hd).
    exists (a :: pre), post. by rewrite <- app_comm_cons.
Qed.



(** *** RIS *)

(** The lines of a block, in the order they are pushed. *)
Lemma risLines_layout (a : Article) :
  risLines a
  = [risField "TY" (typeLookup RIS_TYPE_MAP (documentType a) (cu "JOUR"))]
    ++ optional (truthy (title a)) [risField "TI" (title a)]
    ++ List.map (risField "AU") (authors a)
    ++ match yearMatch (year a) with
       | Some y => [risField "PY" y]
       | None => []
       end
    ++ optional (truthy (journal a))
         [risField "T2" (journal a); risField "JF" (journal a)]
    ++ optional (0 <? length (buildNotesArray a))%nat
         [risField "N1" (join (cu "; ") (buildNotesArray a))]
    ++ [risField "ER" []].
Proof.
  unfold risLines, optional. rewrite fold_left_push.
  destruct (year a) as [|c ys].
  - cbn [truthy yearMatch].
    destruct (truthy (title a)), (truthy (journal a)),
      (0 <? length (buildNotesArray a))%nat;
      cbn [app]; rewrite <- ?app_assoc; reflexivity.
  - change (truthy (c :: ys)) with true. cbv iota.
    destruct (yearMatch (c :: ys)), (truthy (title a)), (truthy (journal a)),
      (0 <? length (buildNotesArray a))%nat;
      cbn [app]; rewrite <- ?app_assoc; reflexivity.
Qed.




(** *** BibTeX *)

Lemma bibEntries_app (l1 l2 : list Article) :
  bibEntries (l1 ++ l2) = bibEntries l1 ++ bibEntries l2.
Proof. unfold bibEntries. by rewrite List.filter_app, List.map_app. Qed.

Lemma articleToRIS_frame (a : Article) :
  ∃ body, articleToRIS a = cu "TY  - " ++ body ++ cu "ER  - ".
Proof.
  unfold articleToRIS.
  assert (Hm : ∃ ty mid, risLines a = [risField "TY" ty] ++ mid ++ [risField "ER" []]).
  { rewrite risLines_layout.
    exists (typeLookup RIS_TYPE_MAP (documentType a) (cu "JOUR")),
      (optional (truthy (title a)) [risField "TI" (title a)]
       ++ List.map (risField "AU") (authors a)
       ++ match yearMatch (year a) with
          | Some y => [risField "PY" y]
          | None => []
          end
       ++ optional (truthy (journal a))
            [risField "T2" (journal a); risField "JF" (journal a)]
       ++ optional (0 <? length (buildNotesArray a))%nat
            [risField "N1" (join (cu "; ") (buildNotesArray a))]).
    by rewrite <- !app_assoc. }
  destruct Hm as (ty & mid & ->). destruct mid as [|m mid].
  - exists (ty ++ CRLF). cbn [app join]. unfold risField.
    rewrite app_nil_r. by rewrite <- !app_assoc.
  - change (join CRLF ([risField "TY" ty] ++ (m :: mid) ++ [risField "ER" []]))
      with (risField "TY" ty ++ CRLF ++ join CRLF ((m :: mid) ++ [risField "ER" []])).
    rewrite join_app_last by done.
    exists (ty ++ CRLF ++ join CRLF (m :: mid) ++ CRLF). unfold risField.
    rewrite app_nil_r. by rewrite <- !app_assoc.
Qed.

(** C8.  The BibTeX document is made of the entries of the records with a
    non-empty title; the RIS document is made of one block for every
    record, in the order of the sequence, and a block is never empty: it
    starts with its TY line and ends with its ER line.  A record with an
    empty title changes nothing in the BibTeX document, wherever it stands.
    In the RIS document it adds its block (and the separator, unless it is
    the only record), so the document differs from the one without the
    record; the block has every line of a block but the TI line. *)
Theorem empty_title_excluded_from_bibtex_only (articles : list Article) :
  toBibTeX articles
  = join (LF ++ LF)
      (List.map articleToBibTeX
         (List.filter (fun a => truthy (title a)) articles)) ++ LF
  ∧ toRIS articles = join (LF ++ LF) (List.map articleToRIS articles) ++ LF
  ∧ (∀ a, ∃ body, articleToRIS a = cu "TY  - " ++ body ++ cu "ER  - ")
  ∧ (∀ l1 a l2, articles = l1 ++ a :: l2 → title a = [] →
       toBibTeX articles = toBibTeX (l1 ++ l2)
       ∧ length (toRIS articles)
         = (length (toRIS (l1 ++ l2)) + length (articleToRIS a)
            + (if bool_decide (l1 ++ l2 = []) then 0 else 2))%nat
       ∧ toRIS articles ≠ toRIS (l1 ++ l2)
       ∧ articleToRIS a = join CRLF (risLines a)
       ∧ risLines a
         = [risField "TY" (typeLookup RIS_TYPE_MAP (documentType a) (cu "JOUR"))]
           ++ List.map (risField "AU") (authors a)
           ++ match yearMatch (year a) with
              | Some y => [risField "PY" y]
              | None => []
              end
           ++ optional (truthy (journal a))
                [risField "T2" (journal a); risField "JF" (journal a)]
           ++ optional (0 <? length (buildNotesArray a))%nat
                [risField "N1" (join (cu "; ") (buildNotesArray a))]
           ++ [risField "ER" []]).
Proof.
  split; [reflexivity|]. split; [reflexivity|]. split; [apply articleToRIS_frame|].
  intros l1 a l2 -> Ht.
  assert (Hb : toBibTeX (l1 ++ a :: l2) = toBibTeX (l1 ++ l2)).
  { unfold toBibTeX. change (a :: l2) with ([a] ++ l2). rewrite !bibEntries_app.
    unfold bibEntries at 2. cbn [List.filter]. by rewrite Ht. }
  assert (Hl : length (toRIS (l1 ++ a :: l2))
               = (length (toRIS (l1 ++ l2)) + length (articleToRIS a)
                  + (if bool_decide (l1 ++ l2 = []) then 0 else 2))%nat).
  { unfold toRIS, risRecords. rewrite !length_app, !List.map_app. cbn [List.map].
    rewrite length_join_insert. rewrite <- List.map_app.
    replace (bool_decide (List.map articleToRIS (l1 ++ l2) = []))
      with (bool_decide (l1 ++ l2 = [])).
    - cbn [length app LF]. lia.
    - apply bool_decide_ext. by destruct (l1 ++ l2). }
  split_and!; [done|done| |done|].
  - intros He. rewrite He in Hl.
    destruct (articleToRIS_frame a) as [body Hbody]. rewrite Hbody in Hl.
    rewrite length_app in Hl. cbn [length cu List.map list_ascii_of_string] in Hl. lia.
  - rewrite risLines_layout, Ht. reflexivity.
Qed.

Lemma empty_title_excluded_from_bibtex_only_witness :
  let untitled := {| articleId := cu "7"; title := []; authors := [cu "Doe, J."];
                     journal := []; year := cu "1999"; documentType := cu "Artigo";
                     isOpenAccess := false; isPeerReviewed := true |} in
  toBibTeX [untitled] = toBibTeX ([] ++ [])
  ∧ length (toRIS [untitled])
    = (length (toRIS ([] ++ [])) + length (articleToRIS untitled)
       + (if bool_decide ([] ++ [] = ([] : list Article)) then 0 else 2))%nat
  ∧ toRIS [untitled] ≠ toRIS ([] ++ [])
  ∧ articleToRIS untitled = join CRLF (risLines untitled)
  ∧ risLines untitled
    = [risField "TY" (typeLookup RIS_TYPE_MAP (documentType untitled) (cu "JOUR"))]
      ++ List.map (risField "AU") (authors untitled)
      ++ match yearMatch (year untitled) with
         | Some y => [risField "PY" y]
         | None => []
         end
      ++ optional (truthy (journal untitled))
           [risField "T2" (journal untitled); risField "JF" (journal untitled)]
      ++ optional (0 <? length (buildNotesArray untitled))%nat
           [risField "N1" (join (cu "; ") (buildNotesArray untitled))]
      ++ [risField "ER" []].
Proof.
  intros untitled.
  apply (proj2 (proj2 (proj2 (empty_title_excluded_from_bibtex_only [untitled])))
           [] untitled []); reflexivity.
Defined.

End ConverterFacts.

(** ** Page navigation *)

Section NavigatorFacts.

Import PageNavigator Spec Samples.

Lemma span_eq p (s a r : jstr) :
  span p s = (a, r) →
  s = a ++ r ∧ forallb p a = true
  ∧ match r with [] => True | c :: _ => p c = false end.
Proof.
  intros E. pose proof (span_app p s) as H1. pose proof (span_fst_all p s) as H2.
  rewrite E in H1, H2. cbn in *. repeat split; [done|done|].
  destruct r as [|c r']; [done|]. eapply (span_snd_head p s). by rewrite E.
Qed.

Lemma span_fst_app p (a r : jstr) :
  forallb p a = true → fst (span p (a ++ r)) = a ++ fst (span p r).
Proof.
  intros Ha. induction a as [|x a IH]; [done|]. cbn in *.
  apply andb_prop in Ha as [Hx Ha]. rewrite Hx.
  destruct (span p (a ++ r)) eqn:E. cbn in *. by rewrite <- IH.
Qed.

Lemma digit_not_space c : isDigit c = true → isSpace c = false.
Proof.
  unfold isDigit, isSpace. intros [H1 H2]%andb_prop.
  apply N.leb_le in H1, H2.
  repeat match goal with
         | |- context [?a <=? ?b] => destruct (N.leb_spec a b)
         | |- context [?a =? ?b] => destruct (N.eqb_spec a b)
         end; try reflexivity; lia.
Qed.

Lemma space_not_digit c : isSpace c = true → isDigit c = false.
Proof.
  intros H. destruct (isDigit c) eqn:E; [|done].
  apply digit_not_space in E. congruence.
Qed.

Lemma digitsValue_nil_or (ds : jstr) : digitsValue ds ≠ 0 → ds ≠ [].
Proof. by intros H ->. Qed.

(** *** The page index *)

Lemma parseInt_sign (p : jstr) :
  (∃ r, skip isSpace p = 45 :: r
        ∧ parseInt p = if bool_decide (fst (span isDigit r) = []) then None
                       else Some (- Z.of_N (digitsValue (fst (span isDigit r))))%Z)
  ∨ ((∀ r, skip isSpace p ≠ 45 :: r)
     ∧ (parseInt p = None ∨ ∃ n : N, parseInt p = Some (Z.of_N n))).
Proof.
  unfold parseInt. destruct (skip isSpace p) as [|c r] eqn:E.
  - right. split; [done|]. left. done.
  - destruct (N.eqb_spec c 45) as [->|Hc].
    + left. exists r. split; [done|]. done.
    + right. split; [congruence|].
      destruct (c =? 43); case_bool_decide; eauto.
Qed.

(** C9, as the code has it.  The page index is read from the start of the
    page parameter as [parseInt] reads it (white space, an optional sign,
    digits).  It is 1 when the parameter is absent, when no number can be
    read, and when the number read is 0.  It is at least 1 unless the
    parameter starts with a minus sign and a non-zero number: then it is
    negative.  Its value is the number read whenever that number is below
    2^53 in absolute value, where the script's numbers are exact. *)
Theorem getCurrentPage_result (env : Env) :
  (pageParam env = None → getCurrentPage env = 1%Z)
  ∧ (∀ p, pageParam env = Some p → parseInt p = None → getCurrentPage env = 1%Z)
  ∧ (∀ p n, pageParam env = Some p → parseInt p = Some n →
       (Z.abs n < 2 ^ 53)%Z →
       getCurrentPage env = if (n =? 0)%Z then 1%Z else n)
  ∧ ((1 ≤ getCurrentPage env)%Z
     ∨ ∃ p r, pageParam env = Some p ∧ skip isSpace p = 45 :: r
              ∧ digitsValue (fst (span isDigit r)) ≠ 0
              ∧ (getCurrentPage env < 0)%Z
              ∧ (digitsValue (fst (span isDigit r)) < 2 ^ 53 →
                 getCurrentPage env
                 = (- Z.of_N (digitsValue (fst (span isDigit r))))%Z)).
Proof.
  unfold getCurrentPage. destruct (pageParam env) as [p|] eqn:Ep.
  2: { repeat split; try done. by left. }
  split; [done|]. split; [by intros ? [= <-] ->|].
  split; [by intros ? n [= <-] -> _|].
  destruct (parseInt_sign p) as [(r & Hr & Hp)|[_ [Hp|[n Hp]]]]; rewrite Hp.
  - case_bool_decide as Hd; [by left|].
    destruct (N.eq_dec (digitsValue (fst (span isDigit r))) 0) as [Hz|Hz].
    + rewrite Hz. by left.
    + right. exists p, r.
      destruct (Z.eqb_spec (- Z.of_N (digitsValue (fst (span isDigit r)))) 0); [lia|].
      split_and!; try done. lia.
  - by left.
  - left. destruct (Z.eqb_spec (Z.of_N n) 0); lia.
Qed.

Lemma getCurrentPage_result_witness :
  getCurrentPage emptyPage = 1%Z.
Proof. apply (proj1 (getCurrentPage_result emptyPage)). reflexivity. Defined.

(** C9, as stated, fails: a page parameter [-5] gives the page index -5. *)
Lemma getCurrentPage_negative :
  pageParam (withPageParam (cu "-5") emptyPage) = Some (cu "-5")
  ∧ getCurrentPage (withPageParam (cu "-5") emptyPage) = (-5)%Z
  ∧ (getCurrentPage (withPageParam (cu "-5") emptyPage) < 1)%Z.
Proof. repeat split. Qed.

(** *** The range indicator *)

Lemma rangeAt_sound (s a b t : jstr) :
  rangeAt s = Some (a, b, t) →
  ∃ ws1 ws2 post,
    s = a ++ [8211] ++ b ++ ws1 ++ cu "de" ++ ws2 ++ t ++ post
    ∧ digits a ∧ digits b ∧ digits t
    ∧ forallb isSpace ws1 = true ∧ forallb isSpace ws2 = true.
Proof.
  unfold rangeAt, skip.
  destruct (span isDigit s) as [a' s1] eqn:E1.
  apply span_eq in E1 as (-> & Ha & _).
  case_bool_decide as Ha'; [done|].
  destruct s1 as [|dash s2]; [done|].
  destruct (N.eqb_spec dash 8211) as [->|]; [|done]. cbn [negb].
  destruct (span isDigit s2) as [b' s3] eqn:E2.
  apply span_eq in E2 as (-> & Hb & _).
  case_bool_decide as Hb'; [done|].
  destruct (span isSpace s3) as [ws1 s4] eqn:E3.
  apply span_eq in E3 as (-> & Hw1 & _). cbn [snd].
  destruct s4 as [|d [|e s5]]; try done.
  destruct (N.eqb_spec d 100) as [->|]; [|done].
  destruct (N.eqb_spec e 101) as [->|]; [|done]. cbn [negb andb].
  destruct (span isSpace s5) as [ws2 s6] eqn:E4.
  apply span_eq in E4 as (-> & Hw2 & _). cbn [snd].
  destruct (span isDigit s6) as [t' post] eqn:E5.
  apply span_eq in E5 as (-> & Ht & _). cbn [fst].
  case_bool_decide as Ht'; [done|].
  intros [= <- <- <-]. exists ws1, ws2, post. by repeat split.
Qed.

Lemma rangeAt_complete (a b t ws1 ws2 post : jstr) :
  digits a → digits b → digits t →
  forallb isSpace ws1 = true → forallb isSpace ws2 = true →
  rangeAt (a ++ [8211] ++ b ++ ws1 ++ cu "de" ++ ws2 ++ t ++ post)
  = Some (a, b, t ++ fst (span isDigit post)).
Proof.
  intros [Ha Ha'] [Hb Hb'] [Ht Ht'] Hw1 Hw2. unfold rangeAt, skip.
  rewrite (span_run isDigit a) by done.
  rewrite bool_decide_eq_false_2 by done. cbn [app negb N.eqb Pos.eqb].
  rewrite (span_run isDigit b).
  2: done.
  2: { destruct ws1 as [|w ws1]; [done|]. cbn in *.
       apply space_not_digit. by destruct (isSpace w). }
  rewrite bool_decide_eq_false_2 by done.
  rewrite (span_run isSpace ws1) by done. cbn [snd app].
  change (cu "de" ++ ?x) with (100 :: 101 :: x). cbn [negb N.eqb Pos.eqb andb].
  rewrite (span_run isSpace ws2).
  2: done.
  2: { destruct t as [|d t]; [done|]. cbn in *.
       apply digit_not_space. by destruct (isDigit d). }
  cbn [snd]. rewrite span_fst_app by done.
  rewrite bool_decide_eq_false_2; [done|]. by destruct t.
Qed.

Lemma rangeMatch_sound (text : jstr) m :
  rangeMatch text = Some m → ∃ pre s, text = pre ++ s ∧ rangeAt s = Some m.
Proof.
  induction text as [|c text IH]; cbn [rangeMatch].
  - destruct (rangeAt []) eqn:E; [|done]. intros [= <-]. by exists [], [].
  - destruct (rangeAt (c :: text)) eqn:E.
    + intros [= <-]. by exists [], (c :: text).
    + intros (pre & s & -> & H)%IH. by exists (c :: pre), s.
Qed.

Lemma rangeMatch_complete (pre s : jstr) :
  is_Some (rangeAt s) → is_Some (rangeMatch (pre ++ s)).
Proof.
  intros Hs. induction pre as [|c pre IH]; cbn [app].
  - destruct s; cbn [rangeMatch]; destruct Hs as [m ->]; done.
  - cbn [rangeMatch]. by destruct (rangeAt (c :: pre ++ s)).
Qed.

Lemma rangeMatch_shape (text a b t : jstr) :
  rangeMatch text = Some (a, b, t) → rangeShape text a b t.
Proof.
  intros (pre & s & -> & H)%rangeMatch_sound.
  apply rangeAt_sound in H as (ws1 & ws2 & post & -> & ?).
  by exists pre, ws1, ws2, post.
Qed.

Lemma rangeMatch_present (text : jstr) :
  is_Some (rangeMatch text) ↔ ∃ a b t, rangeShape text a b t.
Proof.
  split.
  - intros [[[a b] t] H]. exists a, b, t. by apply rangeMatch_shape.
  - intros (a & b & t & pre & ws1 & ws2 & post & -> & Ha & Hb & Ht & H1 & H2).
    apply rangeMatch_complete. rewrite rangeAt_complete by done. by eexists.
Qed.

(** The leftmost position where a matcher succeeds. *)
Section Leftmost.

Context {A : Type} (matchAt find : jstr → option A).
Hypothesis find_eq : ∀ text,
  find text = match matchAt text with
              | Some m => Some m
              | None => match text with [] => None | _ :: rest => find rest end
              end.

Lemma find_leftmost (text : jstr) m :
  find text = Some m →
  ∃ pre s, text = pre ++ s ∧ matchAt s = Some m
           ∧ ∀ pre' s', text = pre' ++ s' → (length pre' < length pre)%nat →
               matchAt s' = None.
Proof.
  induction text as [|c text IH]; rewrite find_eq.
  - destruct (matchAt []) eqn:E; [|done]. intros [= <-].
    exists [], []. split_and!; [done|done|]. intros ? ? _ Hl. cbn in Hl. lia.
  - destruct (matchAt (c :: text)) eqn:E.
    + intros [= <-]. exists [], (c :: text). split_and!; [done|done|].
      intros ? ? _ Hl. cbn in Hl. lia.
    + intros (pre & s & -> & Hs & Hearlier)%IH. exists (c :: pre), s.
      split_and!; [done|done|].
      intros [|c' pre'] s' Heq Hl.
      * cbn in Heq. by subst.
      * cbn in Heq. injection Heq as -> Heq. apply (Hearlier pre' s' Heq).
        cbn in Hl. lia.
Qed.

Lemma find_of_leftmost (pre s : jstr) m :
  matchAt s = Some m →
  (∀ pre' s', pre ++ s = pre' ++ s' → (length pre' < length pre)%nat →
     matchAt s' = None) →
  find (pre ++ s) = Some m.
Proof.
  intros Hs. induction pre as [|c pre IH]; intros Hearlier.
  - rewrite find_eq. cbn [app]. by rewrite Hs.
  - rewrite find_eq. cbn [app].
    rewrite (Hearlier [] (c :: pre ++ s) eq_refl ltac:(cbn; lia)).
    apply IH. intros pre' s' Heq Hl. apply (Hearlier (c :: pre') s').
    + cbn. by rewrite Heq.
    + cbn. lia.
Qed.

End Leftmost.

Lemma rangeMatch_eq (text : jstr) :
  rangeMatch text = match rangeAt text with
                    | Some m => Some m
                    | None => match text with
                              | [] => None
                              | _ :: rest => rangeMatch rest
                              end
                    end.
Proof. by destruct text. Qed.

Lemma totalMatch_eq (text : jstr) :
  totalMatch text = match totalAt text with
                    | Some m => Some m
                    | None => match text with
                              | [] => None
                              | _ :: rest => totalMatch rest
                              end
                    end.
Proof. by destruct text. Qed.

Lemma span_nondigit (post : jstr) :
  endsNumber post → fst (span isDigit post) = [].
Proof. destruct post as [|c post]; [done|]. cbn. by intros ->. Qed.

Lemma rangeAt_occurs (s a b t : jstr) :
  rangeAt s = Some (a, b, t) →
  ∃ post, rangeOccurs s [] a b t post ∧ endsNumber post.
Proof.
  unfold rangeAt, skip.
  destruct (span isDigit s) as [a' s1] eqn:E1.
  apply span_eq in E1 as (-> & Ha & _).
  case_bool_decide as Ha'; [done|].
  destruct s1 as [|dash s2]; [done|].
  destruct (N.eqb_spec dash 8211) as [->|]; [|done]. cbn [negb].
  destruct (span isDigit s2) as [b' s3] eqn:E2.
  apply span_eq in E2 as (-> & Hb & _).
  case_bool_decide as Hb'; [done|].
  destruct (span isSpace s3) as [ws1 s4] eqn:E3.
  apply span_eq in E3 as (-> & Hw1 & _). cbn [snd].
  destruct s4 as [|d [|e s5]]; try done.
  destruct (N.eqb_spec d 100) as [->|]; [|done].
  destruct (N.eqb_spec e 101) as [->|]; [|done]. cbn [negb andb].
  destruct (span isSpace s5) as [ws2 s6] eqn:E4.
  apply span_eq in E4 as (-> & Hw2 & _). cbn [snd].
  destruct (span isDigit s6) as [t' post] eqn:E5.
  apply span_eq in E5 as (-> & Ht & Hp). cbn [fst].
  case_bool_decide as Ht'; [done|].
  intros [= <- <- <-]. exists post. split; [|done].
  exists ws1, ws2. by repeat split.
Qed.

Lemma rangeOccurs_rangeAt (text pre a b t post : jstr) :
  rangeOccurs text pre a b t post →
  ∃ s, text = pre ++ s ∧ rangeAt s = Some (a, b, t ++ fst (span isDigit post)).
Proof.
  intros (ws1 & ws2 & -> & Ha & Hb & Ht & H1 & H2).
  eexists. split; [reflexivity|]. by apply rangeAt_complete.
Qed.

(** The first range is the one the pattern finds. *)
Lemma firstRange_rangeMatch (text a b t : jstr) :
  firstRange text a b t ↔ rangeMatch text = Some (a, b, t).
Proof.
  split.
  - intros (pre & post & Hocc & Hend & Hmin).
    destruct (rangeOccurs_rangeAt _ _ _ _ _ _ Hocc) as (s & -> & Hs).
    rewrite span_nondigit, app_nil_r in Hs by done.
    apply (find_of_leftmost rangeAt rangeMatch rangeMatch_eq); [done|].
    intros pre' s' Heq Hl.
    destruct (rangeAt s') as [[[a' b'] t']|] eqn:E; [|done].
    apply rangeAt_occurs in E as (post' & (ws1 & ws2 & -> & H) & _).
    assert (Ho : rangeOccurs (pre ++ s) pre' a' b' t' post').
    { exists ws1, ws2. by rewrite Heq. }
    apply Hmin in Ho. lia.
  - intros H.
    apply (find_leftmost rangeAt rangeMatch rangeMatch_eq) in H
      as (pre & s & -> & Hs & Hearlier).
    apply rangeAt_occurs in Hs as (post & (ws1 & ws2 & -> & H) & Hend).
    exists pre, post. split_and!; [by exists ws1, ws2 | done |].
    intros pre' a' b' t' post' Ho.
    destruct (rangeOccurs_rangeAt _ _ _ _ _ _ Ho) as (s' & Heq & Hs').
    destruct (decide (length pre' < length pre)%nat) as [Hl|]; [|lia].
    rewrite (Hearlier pre' s' Heq Hl) in Hs'. done.
Qed.

(** C3, as the code has it.  With an enabled next control the answer is
    true whatever the range text says.  Without one, the answer is false
    when the indicator element is missing, and the falsy value null when
    its text holds no range [A-B de T] (the portal's Portuguese wording).
    Otherwise the text has a first range: the one that starts furthest to
    the left, with T read to its last digit.  It is unique, and when B and
    T are below 2^53, where the script's numbers are exact, the answer is
    true exactly when B < T, and false otherwise. *)
Theorem hasNextPage_cases (env : Env) :
  (nextButton env = true → hasNextPage env = CBool true)
  ∧ (nextButton env = false →
       (pageInfo env = None → hasNextPage env = CBool false)
       ∧ (∀ text, pageInfo env = Some text →
            (hasNextPage env = CNull ↔ ¬ ∃ a b t, rangeShape text a b t)
            ∧ ((∃ a b t, rangeShape text a b t) → ∃ a b t, firstRange text a b t)
            ∧ (∀ a b t, firstRange text a b t →
                 digitsValue b < 2 ^ 53 → digitsValue t < 2 ^ 53 →
                 hasNextPage env = CBool (digitsValue b <? digitsValue t)
                 ∧ (hasNextPage env = CBool true ↔ digitsValue b < digitsValue t)))
       ∧ (holds (hasNextPage env) = true ↔ hasNextPage env = CBool true))
  ∧ (∀ text a b t a' b' t',
       firstRange text a b t → firstRange text a' b' t' →
       a = a' ∧ b = b' ∧ t = t').
Proof.
  split; [|split].
  - unfold hasNextPage. by intros ->.
  - unfold hasNextPage. intros ->. split_and!.
    + by intros ->.
    + intros text ->. split_and!.
      * rewrite <- rangeMatch_present.
        destruct (rangeMatch text) as [[[a b] t]|] eqn:E.
        -- split; [done|]. intros []. by eexists.
        -- split; [|done]. intros _ [? ?]. done.
      * intros [[[a b] t] H]%rangeMatch_present. exists a, b, t.
        by apply firstRange_rangeMatch.
      * intros a b t H%firstRange_rangeMatch _ _. rewrite H.
        split; [done|]. rewrite <- N.ltb_lt.
        destruct (digitsValue b <? digitsValue t); split; congruence.
    + destruct (pageInfo env) as [text|]; [|done].
      destruct (rangeMatch text) as [[[a b] t]|]; [|done].
      destruct (digitsValue b <? digitsValue t); cbn [holds]; split; congruence.
  - intros text a b t a' b' t' H%firstRange_rangeMatch H'%firstRange_rangeMatch.
    rewrite H in H'. by injection H' as -> -> ->.
Qed.

Lemma hasNextPage_cases_witness :
  hasNextPage (withPageInfo (rangeDe "1" "10" "20") emptyPage)
  = CBool (digitsValue (cu "10") <? digitsValue (cu "20"))
  ∧ (hasNextPage (withPageInfo (rangeDe "1" "10" "20") emptyPage) = CBool true
     ↔ digitsValue (cu "10") < digitsValue (cu "20")).
Proof.
  apply (proj2 (proj2 (proj1 (proj2 (proj1 (proj2 (hasNextPage_cases
                  (withPageInfo (rangeDe "1" "10" "20") emptyPage))) eq_refl))
           (rangeDe "1" "10" "20") eq_refl)) (cu "1") (cu "10") (cu "20")).
  - apply firstRange_rangeMatch. reflexivity.
  - reflexivity.
  - reflexivity.
Defined.

(** C3, as stated, fails: without a next control, the range text
    [1-10 of 20] has B < T, and the answer is null, which is falsy. *)
Lemma hasNextPage_english_range :
  nextButton (withPageInfo (rangeOf "1" "10" "20") emptyPage) = false
  ∧ pageInfo (withPageInfo (rangeOf "1" "10" "20") emptyPage)
    = Some (cu "1" ++ [8211] ++ cu "10 of 20")
  ∧ hasNextPage (withPageInfo (rangeOf "1" "10" "20") emptyPage) = CNull
  ∧ holds (hasNextPage (withPageInfo (rangeOf "1" "10" "20") emptyPage)) = false.
Proof. repeat split. Qed.

End NavigatorFacts.

(** ** Checkpoint store *)

Section StoreFacts.

Import StateManager Samples.

(** C6, as the code has it.  [load] answers absent and leaves the slot
    alone when the slot is empty or holds the empty string.  It answers
    absent and clears the slot when the stored text is not JSON, when it is
    the JSON [null], when its [processedPages] is neither missing, null, an
    array nor a string, and when its [startTime] cannot be converted to a
    primitive.  Every other stored text is answered with the object built
    from it, whatever its fields hold, and stays in the slot.  The slot is
    only ever cleared together with an absent answer. *)
Theorem load_outcomes (slot : option jstr) :
  (slot = None → load slot = (None, None))
  ∧ (slot = Some [] → load slot = (None, Some []))
  ∧ (∀ data, slot = Some data → data ≠ [] → parse data = None →
       load slot = (None, None))
  ∧ (∀ data parsed, slot = Some data → data ≠ [] → parse data = Some parsed →
       (parsed = JNull
        ∨ setAccepts (field (cu "processedPages") parsed) = false
        ∨ dateAccepts (field (cu "startTime") parsed) = false →
        load slot = (None, None))
       ∧ (parsed ≠ JNull →
          setAccepts (field (cu "processedPages") parsed) = true →
          dateAccepts (field (cu "startTime") parsed) = true →
          load slot = (Some parsed, slot)))
  ∧ (∀ r slot', load slot = (r, slot') →
       slot' = slot ∨ (r = None ∧ slot' = None)).
Proof.
  split_and!.
  - by intros ->.
  - by intros ->.
  - intros data -> Hd Hp. unfold load. destruct data; [done|]. cbn [truthy negb].
    by rewrite Hp.
  - intros data parsed -> Hd Hp. unfold load. destruct data as [|c data]; [done|].
    cbn [truthy negb]. rewrite Hp. split.
    + intros [->|[H|H]]; [done| |]; destruct parsed; try done; rewrite H;
        by rewrite ?andb_false_r.
    + intros Hn H1 H2. destruct parsed; try done; by rewrite H1, H2.
  - intros r slot'. unfold load. destruct slot as [data|]; [|intros [= <- <-]; by left].
    destruct (negb (truthy data)); [intros [= <- <-]; by left|].
    destruct (parse data) as [parsed|]; [|intros [= <- <-]; by right].
    destruct parsed;
      repeat match goal with
             | |- context [if ?b then _ else _] => destruct b
             end; intros [= <- <-]; auto.
Qed.

Lemma load_outcomes_witness : load None = (None, None).
Proof. apply (proj1 (load_outcomes None)). reflexivity. Defined.

(** C6, as stated, fails: a stored text whose [startTime] is not a date and
    whose [totalArticles] is missing is answered with an object, not with
    absent, and it stays in the slot; yet it is no checkpoint of an export
    state. *)
Lemma load_keeps_malformed_checkpoint :
  (∃ parsed, load (Some staleCheckpoint) = (Some parsed, Some staleCheckpoint)
             ∧ field (cu "totalArticles") parsed = None
             ∧ field (cu "startTime") parsed = Some (JStr (cu "yesterday"))
             ∧ Checkpoint.asExportState parsed = None).
Proof. eexists. vm_compute. repeat split. Qed.

End StoreFacts.

(** ** Export controller *)

Section ControllerFacts.

Import ExportController ContentScript PageNavigator FileDownloader Samples.

Lemma handleError_result cause sys :
  handleError cause sys
  = ({| slot := None; state := state sys; watchdog := false;
        trace := trace sys ++ [UpdateStatus (ExportFailed cause); Hide 4000;
                               Cleared; ConsoleError cause] |},
     Failed cause).
Proof.
  unfold handleError, clearCheckpoint, emit, setSlot, clearProcessingTimeout,
    setWatchdog. cbn. by rewrite <- !app_assoc.
Qed.

Lemma completeExport_result env st sys :
  completeExport env st sys
  = if bool_decide (length (articles st) = 0%nat) then
      ({| slot := None; state := state sys; watchdog := false;
          trace := trace sys
                   ++ [UpdateStatus (ExportFailed (cu "No articles found to export"));
                       Hide 4000; Cleared;
                       ConsoleError (cu "No articles found to export")] |},
       Failed (cu "No articles found to export"))
    else
      ({| slot := None; state := state sys; watchdog := false;
          trace := trace sys
                   ++ [UpdateStatus Generating;
                       Converted (negb (bool_decide (format st = cu "ris")));
                       Download (generateExportContent st)
                         (generateFilename env (format st));
                       UpdateStatus (Exported (length (articles st)));
                       Hide 2000; Cleared] |},
       Done).
Proof.
  unfold completeExport. case_bool_decide.
  - by rewrite handleError_result.
  - unfold clearCheckpoint, emit, setSlot, clearProcessingTimeout, setWatchdog.
    cbn. by rewrite <- !app_assoc.
Qed.

Lemma navigateToNextPage_result env sys :
  navigateToNextPage env sys
  = ({| slot := slot sys; state := state sys; watchdog := watchdog sys;
        trace := trace sys ++ [UpdateStatus NavigatingNext; Sleep NAV_DELAY;
                               GoToNextPage (getCurrentPage env + 1)] |},
     Navigating (getCurrentPage env + 1)).
Proof. unfold navigateToNextPage, emit. cbn. by rewrite <- !app_assoc. Qed.

(** What [processCurrentPage] leaves in the controller's state. *)
Lemma processCurrentPage_state env sys st :
  state sys = Some st →
  state (processCurrentPage env sys).1
  = Some (harvest (getCurrentPage env) (extracted env) st).
Proof.
  intros Hst. unfold processCurrentPage. rewrite Hst.
  destruct (shouldContinueToNextPage _ _ _).
  - rewrite navigateToNextPage_result.
    by destruct (0 <? length (extracted env))%nat.
  - rewrite completeExport_result.
    case_bool_decide; by destruct (0 <? length (extracted env))%nat.
Qed.

Lemma processCurrentPage_terminal env sys :
  (processCurrentPage env sys).2 = Done
  ∨ (∃ cause, (processCurrentPage env sys).2 = Failed cause) →
  slot (processCurrentPage env sys).1 = None.
Proof.
  unfold processCurrentPage. destruct (state sys) as [st|].
  2: { cbn. intros [?|[? ?]]; done. }
  destruct (shouldContinueToNextPage _ _ _).
  - rewrite navigateToNextPage_result. cbn. intros [?|[? ?]]; done.
  - rewrite completeExport_result. by case_bool_decide.
Qed.

(** C7.  Finalizing with no records fails with the cause "No articles found
    to export": the controller reports the failure and clears the
    checkpoint, and calls neither a converter nor the download.  With
    records it calls the converter of the run's format, hands the document and
    the generated file name to the download, reports success and clears the
    checkpoint, once.  Every failure, whatever its cause, clears the
    checkpoint, and a page that ends in Done or Failed leaves the slot
    empty. *)
Theorem completeExport_outcomes (env : Env) (st : ExportState) (sys : System) :
  (articles st = [] →
     (completeExport env st sys).2 = Failed (cu "No articles found to export")
     ∧ trace (completeExport env st sys).1
       = trace sys
         ++ [UpdateStatus (ExportFailed (cu "No articles found to export"));
             Hide 4000; Cleared; ConsoleError (cu "No articles found to export")]
     ∧ slot (completeExport env st sys).1 = None)
  ∧ (articles st ≠ [] →
     (completeExport env st sys).2 = Done
     ∧ trace (completeExport env st sys).1
       = trace sys
         ++ [UpdateStatus Generating;
             Converted (negb (bool_decide (format st = cu "ris")));
             Download
               (if bool_decide (format st = cu "ris")
                then FormatConverter.toRIS (articles st)
                else FormatConverter.toBibTeX (articles st))
               (generateFilename env (format st));
             UpdateStatus (Exported (length (articles st)));
             Hide 2000; Cleared]
     ∧ slot (completeExport env st sys).1 = None)
  ∧ (∀ cause, (handleError cause sys).2 = Failed cause
              ∧ slot (handleError cause sys).1 = None
              ∧ trace (handleError cause sys).1
                = trace sys ++ [UpdateStatus (ExportFailed cause); Hide 4000;
                                Cleared; ConsoleError cause])
  ∧ ((processCurrentPage env sys).2 = Done
     ∨ (∃ cause, (processCurrentPage env sys).2 = Failed cause) →
     slot (processCurrentPage env sys).1 = None).
Proof.
  rewrite completeExport_result. split_and!.
  - intros ->. by rewrite bool_decide_eq_true_2.
  - intros Hne. rewrite bool_decide_eq_false_2; [done|].
    by destruct (articles st).
  - intros cause. by rewrite handleError_result.
  - apply processCurrentPage_terminal.
Qed.

Lemma completeExport_outcomes_witness :
  (completeExport emptyPage afterPageOne freshSystem).2 = Done
  ∧ trace (completeExport emptyPage afterPageOne freshSystem).1
    = trace freshSystem
      ++ [UpdateStatus Generating;
          Converted (negb (bool_decide (format afterPageOne = cu "ris")));
          Download
            (if bool_decide (format afterPageOne = cu "ris")
             then FormatConverter.toRIS (articles afterPageOne)
             else FormatConverter.toBibTeX (articles afterPageOne))
            (generateFilename emptyPage (format afterPageOne));
          UpdateStatus (Exported (length (articles afterPageOne)));
          Hide 2000; Cleared]
  ∧ slot (completeExport emptyPage afterPageOne freshSystem).1 = None.
Proof.
  apply (proj1 (proj2 (completeExport_outcomes emptyPage afterPageOne freshSystem))).
  discriminate.
Defined.

End ControllerFacts.

(** ** Resuming and starting *)

Section ResumeFacts.

Import ExportController ContentScript PageNavigator FileDownloader Samples.

Lemma setAdd_member (x : Z) (set : list Z) : x ∈ set → setAdd x set = set.
Proof. intros H. unfold setAdd. by rewrite bool_decide_eq_true_2. Qed.

(** C1, as the code has it.  Processing a page whose index is already in
    [processedPages] leaves [processedPages] as it is (the index is not
    recorded twice), and appends the articles found on the page to the
    records all the same: the records are unchanged only when the page
    shows no article. *)
Theorem revisited_page_appends (env : Env) (sys : System) (st : ExportState) :
  state sys = Some st →
  getCurrentPage env ∈ processedPages st →
  ∃ st', state (processCurrentPage env sys).1 = Some st'
         ∧ processedPages st' = processedPages st
         ∧ articles st' = articles st ++ extracted env
         ∧ (articles st' = articles st ↔ extracted env = []).
Proof.
  intros Hst Hin. eexists. split; [by apply processCurrentPage_state|].
  unfold harvest. destruct (extracted env) as [|a found]; cbn.
  - by rewrite app_nil_r.
  - rewrite setAdd_member by done. split_and!; try done.
    split; [|done]. intros H%(f_equal length). rewrite length_app in H.
    cbn in H. lia.
Qed.

Lemma revisited_page_appends_witness :
  ∃ st', state (processCurrentPage pageOne (holding afterPageOne freshSystem)).1
         = Some st'
         ∧ processedPages st' = processedPages afterPageOne
         ∧ articles st' = articles afterPageOne ++ extracted pageOne
         ∧ (articles st' = articles afterPageOne ↔ extracted pageOne = []).
Proof.
  apply (revisited_page_appends pageOne (holding afterPageOne freshSystem)
           afterPageOne).
  - reflexivity.
  - vm_compute. by left.
Defined.

(** C1, as stated, fails: page 1 is loaded again with the checkpoint written
    after page 1 in the slot.  The checkpoint is adopted, page 1 is in its
    [processedPages], and the article of page 1 is appended a second time
    before the controller goes on to page 2. *)
Lemma resume_appends_harvested_page_again :
  StateManager.load (Some checkpointAfterPageOne)
  = (Some (Checkpoint.encode afterPageOne), Some checkpointAfterPageOne)
  ∧ Checkpoint.asExportState (Checkpoint.encode afterPageOne) = Some afterPageOne
  ∧ getCurrentPage pageOne = 1%Z
  ∧ processedPages afterPageOne = [1%Z]
  ∧ articles afterPageOne = [studyOfX]
  ∧ (pageLoad pageOne (Some checkpointAfterPageOne) []).2 = Navigating 2
  ∧ articles <$> state (pageLoad pageOne (Some checkpointAfterPageOne) []).1
    = Some [studyOfX; studyOfX].
Proof. vm_compute. repeat split. Qed.

(** The state [startExport] creates and processes. *)
Lemma startExport_state env fmt sys :
  state (startExport env fmt sys).1
  = Some (harvest (getCurrentPage env) (extracted env)
            {| format := fmt; articles := []; processedPages := [];
               totalArticles := getTotalArticlesEstimate env;
               startTime := clock env |}).
Proof. unfold startExport. by apply processCurrentPage_state. Qed.

Lemma harvest_format page found st : format (harvest page found st) = format st.
Proof. unfold harvest. by destruct (0 <? length found)%nat. Qed.

Lemma generateFilename_extension env fmt :
  ∃ stem,
    FileDownloader.generateFilename env fmt
    = stem ++ (if bool_decide (fmt = cu "ris") then cu ".ris" else cu ".bib").
Proof.
  unfold FileDownloader.generateFilename. cbv zeta.
  set (term := take 20 _).
  exists (cu "capes_" ++ term ++ cu "_" ++ FileDownloader.getTimestamp env).
  rewrite <- !app_assoc. by case_bool_decide.
Qed.

(** C2, as the code has it.  An export message without a format, or with
    the empty string as format, is ignored: no export starts and no
    response is sent.  With any other format the export starts for that
    format and the listener responds [{ success: true }]; the document is
    RIS for the format ["ris"] and BibTeX for every other one, and the
    file name ends in [.ris] for the former and in [.bib] for the
    latter. *)
Theorem onMessage_format (env : Env) (message : Message) (sys : System) :
  action message = cu "export" →
  (messageFormat message = None ∨ messageFormat message = Some [] →
     onMessage env message sys = (sys, Idle, None))
  ∧ (∀ fmt, messageFormat message = Some fmt → fmt ≠ [] →
       onMessage env message sys
       = ((startExport env fmt sys).1, (startExport env fmt sys).2, Some true)
       ∧ ∃ st, state (startExport env fmt sys).1 = Some st
               ∧ format st = fmt
               ∧ (fmt = cu "ris" →
                  generateExportContent st = FormatConverter.toRIS (articles st))
               ∧ (fmt ≠ cu "ris" →
                  generateExportContent st = FormatConverter.toBibTeX (articles st))
               ∧ ∃ stem,
                   FileDownloader.generateFilename env (format st)
                   = stem ++ (if bool_decide (fmt = cu "ris")
                              then cu ".ris" else cu ".bib")).
Proof.
  intros Ha. unfold onMessage. rewrite Ha. split.
  - by intros [->| ->].
  - intros fmt -> Hne. destruct fmt as [|c fmt]; [done|].
    rewrite bool_decide_eq_true_2 by done. cbn [truthy andb]. split.
    + by destruct (startExport env (c :: fmt) sys).
    + eexists. split; [apply startExport_state|].
      unfold generateExportContent. rewrite harvest_format. cbn [format].
      split_and!; [done| | |].
      * intros H. by rewrite bool_decide_eq_true_2.
      * intros H. by rewrite bool_decide_eq_false_2.
      * apply generateFilename_extension.
Qed.

Lemma onMessage_format_witness :
  onMessage lastPage (exportMessage None) freshSystem = (freshSystem, Idle, None).
Proof.
  apply (proj1 (onMessage_format lastPage (exportMessage None) freshSystem
                  eq_refl)).
  by left.
Defined.

(** C2, as stated, fails twice.  A message without format starts nothing
    and gets no response.  A message with the format ["xml"] starts an export
    whose document is the BibTeX one, under a [.bib] name, and not the RIS
    one. *)
Lemma onMessage_absent_and_unknown_format :
  onMessage lastPage (exportMessage None) freshSystem = (freshSystem, Idle, None)
  ∧ (onMessage lastPage (exportMessage (Some (cu "xml"))) freshSystem).2 = Some true
  ∧ (onMessage lastPage (exportMessage (Some (cu "xml"))) freshSystem).1.2 = Done
  ∧ trace (onMessage lastPage (exportMessage (Some (cu "xml"))) freshSystem).1.1
    = [Cleared; Show Starting; Saved true; UpdateStatus (Collected 1 1);
       UpdateStatus Generating; Converted true;
       Download (FormatConverter.toBibTeX [studyOfX])
         (cu "capes_capes_export_20240301T100005.bib");
       UpdateStatus (Exported 1); Hide 2000; Cleared]
  ∧ FormatConverter.toBibTeX [studyOfX] ≠ FormatConverter.toRIS [studyOfX].
Proof. vm_compute. repeat split. discriminate. Qed.

End ResumeFacts.

(** ** Reading back what was written *)

Section JSONFacts.

Import JSON.Stringify Spec.

Lemma digitsValue_snoc (l : jstr) d :
  digitsValue (l ++ [d]) = 10 * digitsValue l + (d - 48).
Proof. unfold digitsValue. by rewrite fold_left_app. Qed.

Lemma isDigit_offset d : d < 10 → isDigit (48 + d) = true.
Proof.
  intros H. unfold isDigit. apply andb_true_intro; split; apply N.leb_le; lia.
Qed.

Lemma digitsOf_S fuel n :
  digitsOf (S fuel) n
  = if n <? 10 then [48 + n] else digitsOf fuel (n / 10) ++ [48 + n mod 10].
Proof. reflexivity. Qed.

Lemma digitsOf_spec (fuel : nat) (n : N) :
  n < 10 ^ N.of_nat (S fuel) →
  digitsValue (digitsOf (S fuel) n) = n
  ∧ forallb isDigit (digitsOf (S fuel) n) = true
  ∧ (∃ d ds, digitsOf (S fuel) n = d :: ds ∧ (n ≠ 0 → d ≠ 48) ∧ (n = 0 → ds = [])).
Proof.
  revert n. induction fuel as [|fuel IH]; intros n Hn.
  - cbn in Hn. cbn [digitsOf]. destruct (N.ltb_spec n 10); [|lia].
    split_and!.
    + unfold digitsValue. cbn. lia.
    + cbn. by rewrite isDigit_offset.
    + exists (48 + n), []. split_and!; [done|lia|done].
  - rewrite digitsOf_S. destruct (N.ltb_spec n 10) as [Hlt|Hge].
    + split_and!.
      * unfold digitsValue. cbn. lia.
      * cbn. by rewrite isDigit_offset.
      * exists (48 + n), []. split_and!; [done|lia|done].
    + assert (Hq : n / 10 < 10 ^ N.of_nat (S fuel)).
      { apply N.Div0.div_lt_upper_bound.
        replace (N.of_nat (S (S fuel))) with (N.succ (N.of_nat (S fuel))) in Hn by lia.
        by rewrite N.pow_succ_r' in Hn. }
      destruct (IH _ Hq) as (Hv & Hd & d & ds & Hds & Hnz & _).
      assert (Hm : n mod 10 < 10) by (apply N.mod_lt; lia).
      split_and!.
      * rewrite digitsValue_snoc, Hv.
        pose proof (N.div_mod n 10 ltac:(lia)) as H. clear - H Hm.
        set (q := n / 10) in *. set (r := n mod 10) in *. clearbody q r. lia.
      * rewrite forallb_app, Hd. cbn. by rewrite isDigit_offset.
      * rewrite Hds. exists d, (ds ++ [48 + n mod 10]). split_and!; [done| |lia].
        intros _. apply Hnz. intros Hz.
        pose proof (N.div_mod n 10 ltac:(lia)) as H. clear - H Hz Hge Hm.
        set (q := n / 10) in *. set (r := n mod 10) in *. clearbody q r. lia.
Qed.

Lemma decimal_spec (n : N) :
  digitsValue (decimal n) = n
  ∧ forallb isDigit (decimal n) = true
  ∧ (∃ d ds, decimal n = d :: ds ∧ (n ≠ 0 → d ≠ 48) ∧ (n = 0 → ds = [])).
Proof.
  apply digitsOf_spec.
  destruct (N.eq_dec n 0) as [->|Hn]; [done|].
  rewrite Nat2N.inj_succ, N2Nat.id.
  destruct (N.log2_spec n) as [_ H]; [lia|].
  eapply N.lt_le_trans; [exact H|].
  apply N.pow_le_mono_l. lia.
Qed.


Lemma startsWith_cons p ps c (s : jstr) :
  startsWith (p :: ps) (c :: s) = (c =? p) && startsWith ps s.
Proof.
  unfold startsWith. cbn [length take].
  destruct (N.eqb_spec c p) as [->|Hne]; cbn [andb].
  - apply bool_decide_ext. split; [by intros [= ->] | by intros ->].
  - apply bool_decide_eq_false_2. by intros [= ? _].
Qed.

Lemma startsWith_nil_r p ps : startsWith (p :: ps) [] = false.
Proof. done. Qed.

Lemma startsWith_nil_l (s : jstr) : startsWith [] s = true.
Proof. unfold startsWith. cbn. by rewrite take_0. Qed.

Lemma skip_id p c (s : jstr) : p c = false → skip p (c :: s) = c :: s.
Proof. intros H. unfold skip. cbn. by rewrite H. Qed.

Lemma isDigit_range c : isDigit c = true ↔ 48 ≤ c ≤ 57.
Proof.
  unfold isDigit. rewrite andb_true_iff, !N.leb_le. done.
Qed.

Lemma delimited_not_digit c rest : delimited (c :: rest) → isDigit c = false.
Proof. intros [->|[->| ->]]; done. Qed.

Lemma parseNumber_int (negative : bool) d (ds rest : jstr) :
  forallb isDigit (d :: ds) = true → (d = 48 → ds = []) → delimited rest →
  parseNumber ((if negative then [45] else []) ++ (d :: ds) ++ rest)
  = Some (JNum (if negative then - Z.of_N (digitsValue (d :: ds))
                else Z.of_N (digitsValue (d :: ds)))%Z, rest).
Proof.
  intros Hd Hz Hr. pose proof Hd as Hd'. cbn in Hd'.
  apply andb_prop in Hd' as [Hd1 _]. apply isDigit_range in Hd1.
  assert (Hspan : span isDigit ((d :: ds) ++ rest) = (d :: ds, rest)).
  { apply span_run; [done|]. destruct rest; [done|].
    by eapply delimited_not_digit. }
  assert (Hint : (let '(int, s2) :=
                    if d =? 48 then ([48], ds ++ rest)
                    else span isDigit ((d :: ds) ++ rest) in (int, s2))
                 = (d :: ds, rest)).
  { destruct (N.eqb_spec d 48) as [->|?]; [by rewrite Hz | by rewrite Hspan]. }
  assert (Htail : ∀ z,
    (if bool_decide (d :: ds = []) then None else
     '(frac, s3) ←
       match rest with
       | c :: r =>
           if c =? 46 then
             let '(ds, r') := span isDigit r in
             if bool_decide (ds = []) then None else Some (46 :: ds, r')
           else Some ([], rest)
       | [] => Some ([], rest)
       end;
     '(exp, s4) ←
       match s3 with
       | e :: r =>
           if (e =? 101) || (e =? 69) then
             let '(sign, r1) :=
               match r with
               | c :: r1 => if (c =? 43) || (c =? 45) then ([c], r1) else ([], r)
               | [] => ([], r)
               end in
             let '(ds, r') := span isDigit r1 in
             if bool_decide (ds = []) then None else Some (e :: sign ++ ds, r')
           else Some ([], s3)
       | [] => Some ([], s3)
       end;
     if bool_decide (frac = [] ∧ exp = []) then Some (JNum z, s4)
     else Some (JNumLit ((if negative then [45] else []) ++ (d :: ds) ++ frac ++ exp), s4))
    = Some (JNum z, rest)).
  { intros z. rewrite bool_decide_eq_false_2 by done.
    destruct rest as [|c r]; [done|].
    destruct Hr as [->|[->| ->]]; done. }
  unfold parseNumber. destruct negative; cbn [app].
  - change (45 =? 45) with true. cbv iota beta.
    change (d :: ds ++ rest) with ((d :: ds) ++ rest) at 1.
    destruct (N.eqb_spec d 48) as [->|?].
    + rewrite (Hz eq_refl) in *. cbn [app]. apply Htail.
    + rewrite Hspan. apply Htail.
  - assert (H45 : (d =? 45) = false) by (apply N.eqb_neq; lia).
    rewrite H45.
    destruct (N.eqb_spec d 48) as [->|?].
    + rewrite (Hz eq_refl) in *. cbn [app]. apply Htail.
    + change (d :: ds ++ rest) with ((d :: ds) ++ rest). rewrite Hspan. apply Htail.
Qed.

Lemma parseNumber_number z rest :
  delimited rest → parseNumber (number z ++ rest) = Some (JNum z, rest).
Proof.
  intros Hr. unfold number.
  destruct (Z.ltb_spec z 0) as [Hneg|Hpos].
  - destruct (decimal_spec (Z.to_N (- z))) as (Hv & Hd & d & ds & E & Hnz & _).
    rewrite E in *.
    assert (Hz : d = 48 → ds = []) by (intros ->; exfalso; apply Hnz; [lia|done]).
    pose proof (parseNumber_int true d ds rest Hd Hz Hr) as H.
    cbn [app] in H |- *. rewrite H, Hv.
    rewrite Z2N.id by (clear - Hneg; lia). by rewrite Z.opp_involutive.
  - destruct (decimal_spec (Z.to_N z)) as (Hv & Hd & d & ds & E & Hnz & Hz).
    rewrite E in *.
    assert (Hz' : d = 48 → ds = []).
    { intros ->. destruct (N.eq_dec (Z.to_N z) 0) as [H0|H0]; [by apply Hz|].
      by exfalso; apply Hnz. }
    pose proof (parseNumber_int false d ds rest Hd Hz' Hr) as H.
    cbn [app] in H |- *. rewrite H, Hv.
    rewrite Z2N.id by (clear - Hpos; lia). done.
Qed.

Lemma hexValue_hexDigit d : d < 16 → hexValue (hexDigit d) = Some d.
Proof.
  intros Hd. unfold hexValue, hexDigit, isDigit.
  destruct (N.ltb_spec d 10).
  - replace ((48 <=? 48 + d) && (48 + d <=? 57)) with true
      by (symmetry; apply andb_true_intro; split; apply N.leb_le; lia).
    f_equal. lia.
  - replace ((48 <=? 87 + d) && (87 + d <=? 57)) with false
      by (symmetry; apply andb_false_intro2; apply N.leb_gt; lia).
    replace ((97 <=? 87 + d) && (87 + d <=? 102)) with true
      by (symmetry; apply andb_true_intro; split; apply N.leb_le; lia).
    f_equal. lia.
Qed.

Lemma hex_digits_value c :
  c < 65536 →
  c / 4096 < 16 ∧ (c / 256) mod 16 < 16 ∧ (c / 16) mod 16 < 16 ∧ c mod 16 < 16
  ∧ 4096 * (c / 4096) + 256 * ((c / 256) mod 16) + 16 * ((c / 16) mod 16)
    + c mod 16 = c.
Proof.
  intros Hc.
  pose proof (N.div_mod c 16 ltac:(lia)) as H1.
  pose proof (N.div_mod (c / 16) 16 ltac:(lia)) as H2.
  pose proof (N.div_mod (c / 256) 16 ltac:(lia)) as H3.
  pose proof (N.mod_lt c 16 ltac:(lia)) as L1.
  pose proof (N.mod_lt (c / 16) 16 ltac:(lia)) as L2.
  pose proof (N.mod_lt (c / 256) 16 ltac:(lia)) as L3.
  replace (c / 16 / 16) with (c / 256) in H2
    by (rewrite N.Div0.div_div; reflexivity).
  replace (c / 256 / 16) with (c / 4096) in H3
    by (rewrite N.Div0.div_div; reflexivity).
  set (q1 := c / 16) in *. set (q2 := c / 256) in *. set (q3 := c / 4096) in *.
  set (r1 := c mod 16) in *. set (r2 := q1 mod 16) in *. set (r3 := q2 mod 16) in *.
  clearbody q1 q2 q3 r1 r2 r3. lia.
Qed.

Lemma parseString_unicodeEscape c tail :
  c < 65536 →
  parseString (unicodeEscape c ++ tail)
  = '(str, rest) ← parseString tail; Some (c :: str, rest).
Proof.
  intros Hc. destruct (hex_digits_value c Hc) as (H1 & H2 & H3 & H4 & Hv).
  unfold unicodeEscape. cbn [app parseString].
  change (92 =? 34) with false. change (92 =? 92) with true.
  change (117 =? 117) with true. cbv iota.
  rewrite !hexValue_hexDigit by done. cbn [mbind option_bind].
  by rewrite Hv.
Qed.

Lemma parseString_plain c tail :
  c ≠ 34 → c ≠ 92 → 32 ≤ c →
  parseString (c :: tail) = '(str, rest) ← parseString tail; Some (c :: str, rest).
Proof.
  intros H1 H2 H3. cbn [parseString].
  apply N.eqb_neq in H1, H2. rewrite H1, H2.
  by destruct (N.ltb_spec c 32); [lia|].
Qed.

Lemma parseString_quoteUnit c tail :
  parseString (quoteUnit c ++ tail)
  = '(str, rest) ← parseString tail; Some (c :: str, rest).
Proof.
  unfold quoteUnit.
  destruct (N.eqb_spec c 8) as [->|?]; [done|].
  destruct (N.eqb_spec c 9) as [->|?]; [done|].
  destruct (N.eqb_spec c 10) as [->|?]; [done|].
  destruct (N.eqb_spec c 12) as [->|?]; [done|].
  destruct (N.eqb_spec c 13) as [->|?]; [done|].
  destruct (N.eqb_spec c 34) as [->|?]; [done|].
  destruct (N.eqb_spec c 92) as [->|?]; [done|].
  destruct ((c <? 32) || isHighSurrogate c || isLowSurrogate c) eqn:E.
  - apply parseString_unicodeEscape.
    unfold isHighSurrogate, isLowSurrogate in E.
    repeat (apply orb_prop in E as [E|E]).
    + apply N.ltb_lt in E. lia.
    + apply andb_prop in E as [_ E]. apply N.leb_le in E. lia.
    + apply andb_prop in E as [_ E]. apply N.leb_le in E. lia.
  - apply parseString_plain; [done..|].
    apply orb_false_elim in E as [E _]. apply orb_false_elim in E as [E _].
    by apply N.ltb_ge in E.
Qed.

Lemma quoteBody_pair c l (t : jstr) :
  quoteBody (c :: l :: t)
  = if isHighSurrogate c && isLowSurrogate l
    then c :: l :: quoteBody t
    else quoteUnit c ++ quoteBody (l :: t).
Proof. reflexivity. Qed.

Lemma parseString_quoteBody (s rest : jstr) :
  parseString (quoteBody s ++ 34 :: rest) = Some (s, rest).
Proof.
  remember (length s) as n eqn:Hn. revert s Hn.
  induction n as [n IH] using lt_wf_ind. intros s Hn.
  destruct s as [|c [|l t]].
  - done.
  - cbn [quoteBody]. rewrite parseString_quoteUnit. done.
  - rewrite quoteBody_pair.
    destruct (isHighSurrogate c && isLowSurrogate l) eqn:E.
    + apply andb_prop in E as [Hc Hl].
      unfold isHighSurrogate in Hc. unfold isLowSurrogate in Hl.
      apply andb_prop in Hc as [Hc1 Hc2]. apply andb_prop in Hl as [Hl1 Hl2].
      apply N.leb_le in Hc1, Hc2, Hl1, Hl2.
      rewrite <- !app_comm_cons.
      rewrite parseString_plain by lia. rewrite parseString_plain by lia.
      rewrite (IH (length t)); [done| |done]. subst n. cbn. lia.
    + rewrite <- app_assoc, parseString_quoteUnit.
      rewrite (IH (length (l :: t))); [done| |done]. subst n. cbn. lia.
Qed.


Lemma jsval_nested_ind (P : jsval → Prop) :
  P JNull → (∀ b, P (JBool b)) → (∀ n, P (JNum n)) → (∀ t, P (JNumLit t)) →
  (∀ s, P (JStr s)) →
  (∀ elems, Forall P elems → P (JArr elems)) →
  (∀ props, Forall (fun kv => P (snd kv)) props → P (JObj props)) →
  ∀ v, P v.
Proof.
  intros Hnull Hbool Hnum Hlit Hstr Harr Hobj.
  fix IH 1. intros [ | b | n | t | s | elems | props].
  - exact Hnull.
  - apply Hbool.
  - apply Hnum.
  - apply Hlit.
  - apply Hstr.
  - apply Harr. induction elems as [|x elems IHl]; constructor; [apply IH | exact IHl].
  - apply Hobj. induction props as [|[k x] props IHl]; constructor;
      [apply IH | exact IHl].
Qed.


Lemma parseValue_S fuel s :
  parseValue (S fuel) s
  = let s := skip isWs s in
    if startsWith [123] s then
      let r := skip isWs (drop 1 s) in
      if startsWith [125] r then Some (JObj [], drop 1 r)
      else parseMembers fuel r []
    else if startsWith [91] s then
      let r := skip isWs (drop 1 s) in
      if startsWith [93] r then Some (JArr [], drop 1 r)
      else parseElements fuel r []
    else if startsWith [34] s then
      '(str, r) ← parseString (drop 1 s); Some (JStr str, r)
    else if startsWith (cu "null") s then Some (JNull, drop 4 s)
    else if startsWith (cu "true") s then Some (JBool true, drop 4 s)
    else if startsWith (cu "false") s then Some (JBool false, drop 5 s)
    else parseNumber s.
Proof. reflexivity. Qed.

Lemma parseElements_S fuel s acc :
  parseElements (S fuel) s acc
  = '(v, r) ← parseValue fuel s;
    let r := skip isWs r in
    if startsWith [44] r then parseElements fuel (drop 1 r) (acc ++ [v])
    else if startsWith [93] r then Some (JArr (acc ++ [v]), drop 1 r)
    else None.
Proof. reflexivity. Qed.

Lemma parseMembers_S fuel s acc :
  parseMembers (S fuel) s acc
  = let s := skip isWs s in
    if startsWith [34] s then
      '(key, r) ← parseString (drop 1 s);
      let r := skip isWs r in
      if startsWith [58] r then
        '(v, r) ← parseValue fuel (drop 1 r);
        let r := skip isWs r in
        if startsWith [44] r
        then parseMembers fuel (drop 1 r) (setProp key v acc)
        else if startsWith [125] r
        then Some (JObj (setProp key v acc), drop 1 r)
        else None
      else None
    else None.
Proof. reflexivity. Qed.

Lemma stringify_arr elems :
  stringify (JArr elems) = 91 :: join [44] (List.map stringify elems) ++ [93].
Proof. reflexivity. Qed.

Lemma stringify_obj props :
  stringify (JObj props)
  = 123 :: join [44] (List.map (fun kv => quote (fst kv) ++ 58 :: stringify (snd kv))
                        props) ++ [125].
Proof. reflexivity. Qed.

Lemma number_start z : ∃ c cs, number z = c :: cs ∧ (c = 45 ∨ isDigit c = true).
Proof.
  unfold number. destruct (z <? 0)%Z.
  - eexists _, _. split; [done|]. by left.
  - destruct (decimal_spec (Z.to_N z)) as (_ & Hd & d & ds & E & _).
    rewrite E in *. exists d, ds. split; [done|]. right.
    cbn in Hd. by apply andb_prop in Hd as [? _].
Qed.

Lemma stringify_start v :
  written v = true → ∃ c cs, stringify v = c :: cs ∧ valueStart c.
Proof.
  unfold valueStart. destruct v as [ | [|] | n | t | s | elems | props]; intros Hw;
    try done; try (eexists _, _; split; [reflexivity|]; tauto).
  destruct (number_start n) as (c & cs & E & [->|Hc]); cbn [stringify];
    rewrite E; eexists _, _; (split; [reflexivity|]); tauto.
Qed.

(** Tests on a code unit that can start a value. *)
Lemma valueStart_tests c :
  valueStart c →
  isWs c = false ∧ (c =? 93) = false ∧ (c =? 125) = false ∧ (c =? 44) = false
  ∧ (c =? 58) = false.
Proof.
  intros [->|[->|[->|[->|[->|[->|[->|Hd]]]]]]]; try done.
  apply isDigit_range in Hd. unfold isWs.
  repeat match goal with
         | |- context [?a =? ?b] => destruct (N.eqb_spec a b); [lia|]
         end. done.
Qed.

Lemma numeric_start_tests c :
  c = 45 ∨ isDigit c = true →
  isWs c = false ∧ (c =? 123) = false ∧ (c =? 91) = false ∧ (c =? 34) = false
  ∧ (c =? 110) = false ∧ (c =? 116) = false ∧ (c =? 102) = false.
Proof.
  intros [->|Hd]; [done|].
  apply isDigit_range in Hd. unfold isWs.
  repeat match goal with
         | |- context [?a =? ?b] => destruct (N.eqb_spec a b); [lia|]
         end. done.
Qed.

Ltac starts :=
  rewrite ?startsWith_cons, ?startsWith_nil_l; cbn [N.eqb Pos.eqb andb].

Lemma parseValue_numeric fuel c (s : jstr) :
  c = 45 ∨ isDigit c = true →
  parseValue (S fuel) (c :: s) = parseNumber (c :: s).
Proof.
  intros Hc. destruct (numeric_start_tests c Hc) as (H0 & H1 & H2 & H3 & H4 & H5 & H6).
  rewrite parseValue_S, skip_id by done. cbv zeta.
  change (cu "null") with [110; 117; 108; 108].
  change (cu "true") with [116; 114; 117; 101].
  change (cu "false") with [102; 97; 108; 115; 101].
  rewrite !startsWith_cons, H1, H2, H3, H4, H5, H6. done.
Qed.

Lemma setProp_fresh key v acc :
  key ∉ List.map fst acc → setProp key v acc = acc ++ [(key, v)].
Proof.
  induction acc as [|[k w] acc IH]; [done|]. cbn. intros Hn.
  rewrite bool_decide_eq_false_2.
  - rewrite IH; [done|]. intros H. apply Hn. by right.
  - intros ->. apply Hn. by left.
Qed.


Lemma parseElements_join (elems : list jsval) :
  Forall readsBack elems → forallb written elems = true → elems ≠ [] →
  ∀ fuel rest acc,
    (list_sum (List.map (fun x => S (weight x)) elems) ≤ fuel)%nat →
    parseElements fuel (join [44] (List.map stringify elems) ++ 93 :: rest) acc
    = Some (JArr (acc ++ elems), rest).
Proof.
  induction elems as [|v [|v' elems] IH]; intros Hall Hw Hne fuel rest acc Hf;
    [done| |].
  - apply Forall_cons in Hall as [Hv _]. cbn in Hw, Hf.
    rewrite andb_true_r in Hw. destruct fuel as [|fuel]; [lia|].
    rewrite parseElements_S. cbn [List.map join].
    rewrite (Hv Hw fuel (93 :: rest)); [|lia|by right; left].
    cbn [mbind option_bind]. cbv zeta. rewrite skip_id by done. by starts.
  - apply Forall_cons in Hall as [Hv Hall]. cbn [forallb] in Hw.
    apply andb_prop in Hw as [Hw Hws].
    change (list_sum (List.map (λ x, S (weight x)) (v :: v' :: elems)))
      with (S (weight v) + list_sum (List.map (λ x, S (weight x)) (v' :: elems)))%nat
      in Hf.
    destruct fuel as [|fuel]; [lia|].
    rewrite parseElements_S.
    change (join [44] (List.map stringify (v :: v' :: elems)))
      with (stringify v ++ [44] ++ join [44] (List.map stringify (v' :: elems))).
    rewrite <- !app_assoc.
    rewrite (Hv Hw fuel); [|lia|by left].
    cbn [mbind option_bind]. cbv zeta. cbn [app]. rewrite skip_id by done. starts.
    cbn [drop]; rewrite ?drop_0. rewrite IH; [|done|done|done|lia].
    by rewrite <- app_assoc.
Qed.

Lemma parseMembers_join (props : list (jstr * jsval)) :
  Forall (fun kv => readsBack (snd kv)) props →
  forallb (fun kv => written (snd kv)) props = true → props ≠ [] →
  ∀ fuel rest acc,
    NoDup (List.map fst (acc ++ props)) →
    (list_sum (List.map (fun kv => S (weight (snd kv))) props) ≤ fuel)%nat →
    parseMembers fuel
      (join [44] (List.map (fun kv => quote (fst kv) ++ 58 :: stringify (snd kv)) props)
         ++ 125 :: rest) acc
    = Some (JObj (acc ++ props), rest).
Proof.
  induction props as [|[k v] [|kv' props] IH];
    intros Hall Hw Hne fuel rest acc Hnd Hf; [done| |].
  - apply Forall_cons in Hall as [Hv _]. cbn in Hw, Hf, Hv.
    rewrite andb_true_r in Hw. destruct fuel as [|fuel]; [lia|].
    rewrite parseMembers_S. cbn [List.map join fst snd]. unfold quote.
    cbn [app]. rewrite skip_id by done. cbv zeta. starts. cbn [drop]; rewrite ?drop_0.
    rewrite <- !app_assoc. cbn [app]. rewrite parseString_quoteBody.
    cbn [mbind option_bind]. rewrite skip_id by done. starts. cbn [drop]; rewrite ?drop_0.
    rewrite (Hv Hw fuel (125 :: rest)); [|lia|by right; right].
    cbn [mbind option_bind]. rewrite skip_id by done. starts. cbn [drop]; rewrite ?drop_0.
    rewrite setProp_fresh; [done|].
    rewrite List.map_app in Hnd. apply NoDup_app in Hnd as (_ & Hd & _).
    intros Hin. apply (Hd k Hin). cbn. by left.
  - apply Forall_cons in Hall as [Hv Hall]. cbn [forallb] in Hw.
    apply andb_prop in Hw as [Hw Hws]. cbn [snd] in Hv, Hw.
    change (list_sum (List.map (λ kv, S (weight kv.2)) ((k, v) :: kv' :: props)))
      with (S (weight v) + list_sum (List.map (λ kv, S (weight kv.2)) (kv' :: props)))%nat
      in Hf.
    destruct fuel as [|fuel]; [lia|].
    rewrite parseMembers_S.
    change (join [44] (List.map (λ kv, quote kv.1 ++ 58 :: stringify kv.2)
                         ((k, v) :: kv' :: props)))
      with ((quote k ++ 58 :: stringify v) ++ [44]
              ++ join [44] (List.map (λ kv, quote kv.1 ++ 58 :: stringify kv.2)
                              (kv' :: props))).
    unfold quote at 1. rewrite <- !app_assoc. cbn [app].
    rewrite skip_id by done. cbv zeta. starts. cbn [drop]; rewrite ?drop_0.
    rewrite <- !app_assoc. cbn [app]. rewrite parseString_quoteBody.
    cbn [mbind option_bind]. rewrite skip_id by done. starts. cbn [drop]; rewrite ?drop_0.
    rewrite (Hv Hw fuel); [|lia|by left].
    cbn [mbind option_bind]. rewrite skip_id by done. starts. cbn [drop]; rewrite ?drop_0.
    assert (Hk : k ∉ List.map fst acc).
    { rewrite List.map_app in Hnd. apply NoDup_app in Hnd as (_ & Hd & _).
      intros Hin. apply (Hd k Hin). cbn. by left. }
    rewrite setProp_fresh by done.
    rewrite IH; [|done|done|done| |lia].
    + by rewrite <- app_assoc.
    + by rewrite <- app_assoc.
Qed.

Lemma parseValue_stringify v : readsBack v.
Proof.
  induction v as [ | b | n | t | s | elems IH | props IH ] using jsval_nested_ind;
    intros Hw fuel rest Hf Hr; (destruct fuel as [|fuel]; [cbn in Hf; lia|]).
  - rewrite parseValue_S. done.
  - rewrite parseValue_S. by destruct b.
  - destruct (number_start n) as (c & cs & E & Hc). cbn [stringify].
    pose proof (parseNumber_number n rest Hr) as H. rewrite E in *.
    cbn [app] in *. by rewrite parseValue_numeric.
  - done.
  - rewrite parseValue_S. cbn [stringify]. unfold quote. cbn [app].
    rewrite skip_id by done. cbv zeta. starts. cbn [drop]; rewrite ?drop_0.
    rewrite <- app_assoc. cbn [app]. by rewrite parseString_quoteBody.
  - rewrite parseValue_S, stringify_arr. cbn [app]. rewrite skip_id by done.
    cbv zeta. starts. cbn [drop]; rewrite ?drop_0. cbn [written] in Hw.
    destruct elems as [|v elems]; [done|].
    assert (Hs : ∃ c cs, join [44] (List.map stringify (v :: elems)) = c :: cs
                         ∧ valueStart c).
    { apply andb_prop in Hw as [Hv _].
      destruct (stringify_start v Hv) as (c & cs & E & Hc).
      destruct elems; cbn [List.map join]; rewrite E; eauto. }
    destruct Hs as (c & cs & E & Hc).
    destruct (valueStart_tests c Hc) as (T1 & T2 & _).
    rewrite <- app_assoc. cbn [app].
    pose proof (parseElements_join (v :: elems) IH Hw ltac:(done) fuel rest []) as H.
    rewrite E in *. cbn [app] in *. rewrite skip_id by done. starts. rewrite T2.
    apply H. cbn [weight] in Hf. lia.
  - rewrite parseValue_S, stringify_obj. cbn [app]. rewrite skip_id by done.
    cbv zeta. starts. cbn [drop]; rewrite ?drop_0. cbn [written] in Hw.
    apply andb_prop in Hw as [Hnd Hw]. apply bool_decide_eq_true_1 in Hnd.
    destruct props as [|[k v] props]; [done|].
    pose proof (parseMembers_join ((k, v) :: props) IH Hw ltac:(done) fuel rest []
                  Hnd) as H.
    rewrite <- app_assoc. cbn [app].
    assert (Hs : ∃ cs, join [44] (List.map (λ kv, quote kv.1 ++ 58 :: stringify kv.2)
                                    ((k, v) :: props)) = 34 :: cs).
    { destruct props; cbn [List.map join fst]; unfold quote; cbn [app]; eauto. }
    destruct Hs as (cs & E). rewrite E in *. cbn [app] in *.
    rewrite skip_id by done. starts.
    apply H. cbn [weight] in Hf. lia.
Qed.

Lemma length_join_sep sep (parts : list jstr) :
  parts ≠ [] →
  (length (join sep parts) + length sep
   = list_sum (List.map (fun p => length p + length sep) parts))%nat.
Proof.
  induction parts as [|p [|q parts] IH]; intros Hne; [done| |].
  - cbn. lia.
  - change (join sep (p :: q :: parts)) with (p ++ sep ++ join sep (q :: parts)).
    change (list_sum (List.map (λ p0, length p0 + length sep) (p :: q :: parts)))%nat
      with (length p + length sep
            + list_sum (List.map (λ p0, length p0 + length sep) (q :: parts)))%nat.
    rewrite !length_app, <- IH by done. lia.
Qed.

Lemma list_sum_le {A} (f g : A → nat) (l : list A) :
  Forall (fun x => f x ≤ g x)%nat l →
  (list_sum (List.map f l) ≤ list_sum (List.map g l))%nat.
Proof.
  induction 1 as [|x l Hx Hl IH]; [done|].
  change (f x + list_sum (List.map f l) ≤ g x + list_sum (List.map g l))%nat. lia.
Qed.

Lemma weight_le_length v :
  written v = true → (weight v ≤ length (stringify v))%nat.
Proof.
  induction v as [ | b | n | t | s | elems IH | props IH ] using jsval_nested_ind;
    intros Hw.
  - cbn. lia.
  - destruct b; cbn; lia.
  - destruct (number_start n) as (c & cs & E & _). cbn [stringify weight].
    rewrite E. cbn. lia.
  - done.
  - cbn. lia.
  - rewrite stringify_arr. cbn [weight length written] in *. rewrite length_app.
    destruct elems as [|v elems]; [cbn; lia|].
    pose proof (length_join_sep [44] (List.map stringify (v :: elems)) ltac:(done)) as H.
    rewrite List.map_map in H. cbn [length] in *.
    assert (list_sum (List.map (λ x, S (weight x)) (v :: elems))
            ≤ list_sum (List.map (λ x, length (stringify x) + 1) (v :: elems)))%nat.
    { apply list_sum_le. rewrite Forall_forall in IH |- *. intros x Hx.
      rewrite forallb_forall in Hw. specialize (IH x Hx (Hw x ltac:(by apply list_elem_of_In))).
      lia. }
    lia.
  - rewrite stringify_obj. cbn [weight length written] in *. rewrite length_app.
    apply andb_prop in Hw as [_ Hw].
    destruct props as [|kv props]; [cbn; lia|].
    pose proof (length_join_sep [44]
                  (List.map (λ kv, quote kv.1 ++ 58 :: stringify kv.2) (kv :: props))
                  ltac:(done)) as H.
    rewrite List.map_map in H. cbn [length] in *.
    assert (list_sum (List.map (λ kv, S (weight kv.2)) (kv :: props))
            ≤ list_sum (List.map (λ x, length (quote x.1 ++ 58%N :: stringify x.2) + 1)
                          (kv :: props)))%nat.
    { apply list_sum_le. rewrite Forall_forall in IH |- *. intros x Hx.
      rewrite forallb_forall in Hw. specialize (IH x Hx (Hw x ltac:(by apply list_elem_of_In))).
      rewrite length_app. cbn. lia. }
    lia.
Qed.

(** What [JSON.stringify] writes, [JSON.parse] reads back. *)
Lemma parse_stringify v : written v = true → parse (stringify v) = Some v.
Proof.
  intros Hw. unfold parse.
  pose proof (parseValue_stringify v Hw (2 * length (stringify v) + 2)%nat []) as H.
  rewrite app_nil_r in H. rewrite H; [done| |done].
  pose proof (weight_le_length v Hw). lia.
Qed.

(** *** Fuel *)

Lemma span_length p (s a r : jstr) :
  span p s = (a, r) → length s = (length a + length r)%nat.
Proof.
  intros E. pose proof (span_app p s) as H. rewrite E in H. cbn in H.
  by rewrite <- H, length_app.
Qed.

Lemma skip_length p (s : jstr) : (length (skip p s) ≤ length s)%nat.
Proof.
  unfold skip. destruct (span p s) as [a r] eqn:E.
  apply span_length in E. cbn. lia.
Qed.

Lemma parseString_shorter (s str r : jstr) :
  parseString s = Some (str, r) → (length r < length s)%nat.
Proof.
  remember (length s) as n eqn:Hn. revert s str r Hn.
  induction n as [n IH] using lt_wf_ind. intros s str r -> H.
  destruct s as [|c rest]; [done|]. cbn [parseString] in H.
  destruct (c =? 34); [simplify_eq; cbn; lia|].
  destruct (c =? 92).
  - destruct rest as [|e rest1]; [done|].
    destruct (e =? 117).
    + destruct rest1 as [|h1 [|h2 [|h3 [|h4 rest2]]]]; try done.
      destruct (hexValue h1), (hexValue h2), (hexValue h3), (hexValue h4);
        try done. cbn [mbind option_bind] in H.
      destruct (parseString rest2) as [[str' r']|] eqn:E; [|done].
      cbn in H. simplify_eq.
      apply (IH (length rest2)) in E; [|cbn; lia|done]. cbn. lia.
    + destruct (escapeChar e); [|done]. cbn [mbind option_bind] in H.
      destruct (parseString rest1) as [[str' r']|] eqn:E; [|done].
      cbn in H. simplify_eq.
      apply (IH (length rest1)) in E; [|cbn; lia|done]. cbn. lia.
  - destruct (c <? 32); [done|].
    destruct (parseString rest) as [[str' r']|] eqn:E; [|done].
    cbn in H. simplify_eq.
    apply (IH (length rest)) in E; [|cbn; lia|done]. cbn. lia.
Qed.

Lemma parseNumber_shorter (s : jstr) v r :
  parseNumber s = Some (v, r) → (length r < length s)%nat.
Proof.
  unfold parseNumber. intros H.
  repeat (case_match; simplify_option_eq);
    repeat match goal with
           | E : span _ _ = (_, _) |- _ => apply span_length in E
           | E : ?l ≠ [] |- _ =>
               assert (0 < length l)%nat by (destruct l; [done | cbn; lia]);
               clear E
           end;
    cbn [length] in *; lia.
Qed.

Lemma startsWith_drop (prefix s : jstr) :
  startsWith prefix s = true →
  length s = (length prefix + length (drop (length prefix) s))%nat.
Proof.
  unfold startsWith. intros H%bool_decide_eq_true_1.
  rewrite <- (take_drop (length prefix) s) at 1. by rewrite length_app, H.
Qed.

Ltac starts_lengths :=
  repeat match goal with
         | E : startsWith ?p ?s = true |- _ =>
             apply startsWith_drop in E; cbn [length cu List.map
               list_ascii_of_string] in E
         | |- context [skip ?p ?s] =>
             lazymatch goal with
             | _ : (length (skip p s) ≤ length s)%nat |- _ => fail
             | _ => pose proof (skip_length p s)
             end
         | _ : context [skip ?p ?s] |- _ =>
             lazymatch goal with
             | _ : (length (skip p s) ≤ length s)%nat |- _ => fail
             | _ => pose proof (skip_length p s)
             end
         end.

Lemma parse_shorter (fuel : nat) :
  (∀ s v r, parseValue fuel s = Some (v, r) → (length r < length s)%nat)
  ∧ (∀ s acc v r, parseElements fuel s acc = Some (v, r) →
       (length r < length s)%nat)
  ∧ (∀ s acc v r, parseMembers fuel s acc = Some (v, r) →
       (length r < length s)%nat).
Proof.
  induction fuel as [|fuel (IHv & IHe & IHm)]; [by repeat split|].
  split_and!.
  - intros s v r. rewrite parseValue_S. cbv zeta. intros H.
    repeat (case_match; simplify_option_eq);
      repeat match goal with
             | E : parseMembers fuel _ _ = Some _ |- _ => apply IHm in E
             | E : parseElements fuel _ _ = Some _ |- _ => apply IHe in E
             | E : parseString _ = Some _ |- _ => apply parseString_shorter in E
             | E : parseNumber _ = Some _ |- _ => apply parseNumber_shorter in E
             end;
      starts_lengths; lia.
  - intros s acc v r. rewrite parseElements_S. intros H.
    destruct (parseValue fuel s) as [[v' r']|] eqn:E; [|done].
    apply IHv in E. cbn [mbind option_bind] in H. cbv zeta in H.
    repeat (case_match; simplify_option_eq);
      repeat match goal with
             | E : parseElements fuel _ _ = Some _ |- _ => apply IHe in E
             end;
      starts_lengths; lia.
  - intros s acc v r. rewrite parseMembers_S. cbv zeta. intros H.
    destruct (startsWith [34] (skip isWs s)) eqn:E1; [|done].
    destruct (parseString (drop 1 (skip isWs s))) as [[key r1]|] eqn:E2; [|done].
    apply parseString_shorter in E2. cbn [mbind option_bind] in H.
    destruct (startsWith [58] (skip isWs r1)) eqn:E3; [|done].
    destruct (parseValue fuel (drop 1 (skip isWs r1))) as [[v' r2]|] eqn:E4; [|done].
    apply IHv in E4. cbn [mbind option_bind] in H.
    repeat (case_match; simplify_option_eq);
      repeat match goal with
             | E : parseMembers fuel _ _ = Some _ |- _ => apply IHm in E
             end;
      starts_lengths; lia.
Qed.

Lemma parse_fuel (fuel : nat) :
  (∀ s k, (2 * length s + 1 ≤ fuel)%nat →
     parseValue (fuel + k) s = parseValue fuel s)
  ∧ (∀ s acc k, (2 * length s + 2 ≤ fuel)%nat →
       parseElements (fuel + k) s acc = parseElements fuel s acc)
  ∧ (∀ s acc k, (2 * length s + 2 ≤ fuel)%nat →
       parseMembers (fuel + k) s acc = parseMembers fuel s acc).
Proof.
  induction fuel as [|fuel (IHv & IHe & IHm)]; [split_and!; intros; lia|].
  split_and!.
  - intros s k Hf. change (S fuel + k)%nat with (S (fuel + k)).
    rewrite !parseValue_S. cbv zeta.
    destruct (startsWith [123] (skip isWs s)) eqn:E1.
    { destruct (startsWith [125] _); [done|]. apply IHm. starts_lengths. lia. }
    destruct (startsWith [91] (skip isWs s)) eqn:E2; [|done].
    destruct (startsWith [93] _); [done|]. apply IHe. starts_lengths. lia.
  - intros s acc k Hf. change (S fuel + k)%nat with (S (fuel + k)).
    rewrite !parseElements_S. rewrite IHv by lia.
    destruct (parseValue fuel s) as [[v r]|] eqn:E; [|done].
    apply parse_shorter in E. cbn [mbind option_bind]. cbv zeta.
    destruct (startsWith [44] (skip isWs r)) eqn:E1; [|done].
    apply IHe. starts_lengths. lia.
  - intros s acc k Hf. change (S fuel + k)%nat with (S (fuel + k)).
    rewrite !parseMembers_S. cbv zeta.
    destruct (startsWith [34] (skip isWs s)) eqn:E1; [|done].
    destruct (parseString (drop 1 (skip isWs s))) as [[key r1]|] eqn:E2; [|done].
    apply parseString_shorter in E2. cbn [mbind option_bind].
    destruct (startsWith [58] (skip isWs r1)) eqn:E3; [|done].
    rewrite IHv by (starts_lengths; lia).
    destruct (parseValue fuel (drop 1 (skip isWs r1))) as [[v r2]|] eqn:E4; [|done].
    apply parse_shorter in E4. cbn [mbind option_bind].
    destruct (startsWith [44] (skip isWs r2)) eqn:E5; [|done].
    apply IHm. starts_lengths. lia.
Qed.

(** The reader never fails for want of fuel: more fuel than [parse] gives
    it changes nothing. *)
Lemma parse_fuel_enough (text : jstr) (k : nat) :
  parseValue (2 * length text + 2 + k) text
  = parseValue (2 * length text + 2) text.
Proof. apply parse_fuel. lia. Qed.

End JSONFacts.

(** ** The checkpoint of a state *)

Section CheckpointFacts.

Import JSON.Stringify Checkpoint StateManager Spec.

Lemma mapM_asString (l : list jstr) : mapM asString (List.map JStr l) = Some l.
Proof. induction l as [|x l IH]; [done|]. cbn. by rewrite IH. Qed.

Lemma mapM_asNumber (l : list Z) : mapM asNumber (List.map JNum l) = Some l.
Proof. induction l as [|x l IH]; [done|]. cbn. by rewrite IH. Qed.

Lemma asArticle_encode (a : Article) : asArticle (encodeArticle a) = Some a.
Proof.
  unfold asArticle, encodeArticle.
  rewrite bool_decide_eq_true_2 by reflexivity.
  rewrite mapM_asString. by destruct a.
Qed.

Lemma mapM_asArticle (l : list Article) :
  mapM asArticle (List.map encodeArticle l) = Some l.
Proof.
  induction l as [|x l IH]; [done|].
  cbn [List.map mapM]. rewrite asArticle_encode. cbn. by rewrite IH.
Qed.

Lemma fold_setAdd (l acc : list Z) :
  NoDup (acc ++ l) → fold_left (fun set p => setAdd p set) l acc = acc ++ l.
Proof.
  revert acc. induction l as [|x l IH]; intros acc Hnd; cbn.
  - by rewrite app_nil_r.
  - unfold setAdd at 2. rewrite bool_decide_eq_false_2.
    + rewrite IH; rewrite <- app_assoc; done.
    + apply NoDup_app in Hnd as (_ & Hd & _). intros Hin.
      apply (Hd x Hin). by left.
Qed.

Lemma asExportState_encode (st : ExportState) :
  NoDup (processedPages st) → isISOTimestamp (startTime st) = true →
  asExportState (encode st) = Some st.
Proof.
  intros Hnd Hiso. unfold asExportState, encode.
  rewrite bool_decide_eq_true_2 by reflexivity. rewrite Hiso.
  replace (0 <=? Z.of_N (totalArticles st))%Z with true
    by (symmetry; apply Z.leb_le; lia).
  cbn [andb]. rewrite mapM_asArticle, mapM_asNumber. cbn [mbind option_bind].
  rewrite fold_setAdd by done. rewrite N2Z.id. by destruct st.
Qed.

Lemma written_encodeArticle a : written (encodeArticle a) = true.
Proof.
  unfold encodeArticle. cbn [written List.map fst snd forallb].
  rewrite bool_decide_eq_true_2.
  - cbn. rewrite andb_true_r. by induction (authors a).
  - apply (bool_decide_unpack _). by vm_compute.
Qed.

Lemma written_encode st : written (encode st) = true.
Proof.
  unfold encode. cbn [written List.map fst snd forallb].
  rewrite bool_decide_eq_true_2.
  - cbn. rewrite !andb_true_r. apply andb_true_intro. split.
    + induction (articles st) as [|a l IH]; [done|]. cbn [List.map forallb].
      by rewrite written_encodeArticle.
    + by induction (processedPages st).
  - apply (bool_decide_unpack _). by vm_compute.
Qed.

(** What [save] writes, [load] reads back as the same state. *)
Lemma load_saved (st : ExportState) :
  NoDup (processedPages st) → isISOTimestamp (startTime st) = true →
  load (Some (stringify (encode st)))
  = (Some (encode st), Some (stringify (encode st)))
  ∧ asExportState (encode st) = Some st.
Proof.
  intros Hnd Hiso. split; [|by apply asExportState_encode].
  unfold load. rewrite parse_stringify by apply written_encode. done.
Qed.

End CheckpointFacts.

(** ** Runs over several pages *)

Section RunFacts.

Import JSON.Stringify Checkpoint StateManager ExportController ContentScript
  PageNavigator Run Spec Samples.

Lemma extends_refl s : extends s s.
Proof. by split. Qed.

Lemma extends_trans s1 s2 s3 : extends s1 s2 → extends s2 s3 → extends s1 s3.
Proof. intros [? ?] [? ?]. split; by etrans. Qed.

Lemma setAdd_prefix x set : set `prefix_of` setAdd x set.
Proof. unfold setAdd. case_bool_decide; [done|]. by apply prefix_app_r. Qed.

Lemma setAdd_NoDup x set : NoDup set → NoDup (setAdd x set).
Proof.
  intros Hnd. unfold setAdd. case_bool_decide as Hin; [done|].
  apply NoDup_app. split_and!; [done| |apply NoDup_singleton].
  intros y Hy ->%list_elem_of_singleton. done.
Qed.

Lemma harvest_extends page found st :
  extends st (harvest page found st)
  ∧ (NoDup (processedPages st) → NoDup (processedPages (harvest page found st)))
  ∧ startTime (harvest page found st) = startTime st.
Proof.
  unfold harvest. destruct (0 <? length found)%nat; [|by repeat split].
  split_and!; [split; cbn| |done].
  - apply setAdd_prefix.
  - by apply prefix_app_r.
  - apply setAdd_NoDup.
Qed.

(** A page processed while the storage accepts writes leaves the slot
    empty or holding the checkpoint of the state. *)
Lemma processCurrentPage_checkpoint env sys st :
  state sys = Some st → quotaLeft env = true → checkpointOf st (slot sys) →
  checkpointOf (harvest (getCurrentPage env) (extracted env) st)
    (slot (processCurrentPage env sys).1).
Proof.
  intros Hst Hq Hslot. unfold processCurrentPage. rewrite Hst.
  destruct (shouldContinueToNextPage _ _ _).
  - rewrite navigateToNextPage_result. cbn [fst slot]. unfold harvest, save.
    rewrite Hq. destruct (0 <? length (extracted env))%nat; cbn; [by right|done].
  - rewrite completeExport_result. case_bool_decide; by left.
Qed.

Lemma pageLoad_empty env tr :
  pageLoad env None tr
  = ({| slot := None; state := None; watchdog := false; trace := tr |}, Idle).
Proof. reflexivity. Qed.

Lemma pageLoad_checkpoint env st tr :
  sound st →
  pageLoad env (Some (stringify (encode st))) tr
  = processCurrentPage env
      {| slot := Some (stringify (encode st)); state := Some st; watchdog := false;
         trace := tr ++ [Show Resuming; Sleep 500] |}.
Proof.
  intros [Hnd Hiso]. destruct (load_saved st Hnd Hiso) as [Hl Ha].
  unfold pageLoad. cbn [slot]. rewrite Hl. unfold resumeExport, setSlot.
  cbn [slot]. rewrite Hl, Ha. unfold emit, setState. cbn [slot state watchdog trace].
  by rewrite <- app_assoc.
Qed.

Lemma runStates_cons r run :
  runStates (r :: run)
  = match state r.1 with
    | Some s => s :: runStates run
    | None => runStates run
    end.
Proof. reflexivity. Qed.

Lemma pageLoads_extend (envs : list Env) :
  Forall (fun env => quotaLeft env = true) envs →
  ∀ st slot0 tr, sound st → checkpointOf st slot0 →
    Forall (fun s => extends st s ∧ NoDup (processedPages s))
      (runStates (pageLoads envs slot0 tr))
    ∧ StronglySorted extends (runStates (pageLoads envs slot0 tr)).
Proof.
  induction 1 as [|env envs Hq Hqs IH]; intros st slot0 tr Hs Hc.
  - split; constructor.
  - cbn [pageLoads]. destruct Hc as [-> | ->].
    + rewrite pageLoad_empty, runStates_cons. cbn [fst state slot trace].
      apply IH; [done | by left].
    + rewrite pageLoad_checkpoint by done.
      set (sys := {| slot := _; state := Some st; watchdog := _; trace := _ |}).
      assert (Hstate : state sys = Some st) by done.
      assert (Hslot : checkpointOf st (slot sys)) by (by right).
      clearbody sys.
      set (st' := harvest (getCurrentPage env) (extracted env) st).
      assert (Hst' : state (processCurrentPage env sys).1 = Some st')
        by (by apply processCurrentPage_state).
      destruct (harvest_extends (getCurrentPage env) (extracted env) st)
        as (He & Hn & Ht).
      assert (Hs' : sound st').
      { destruct Hs as [? ?]. split; [by apply Hn|]. unfold st'. by rewrite Ht. }
      assert (Hc' : checkpointOf st' (slot (processCurrentPage env sys).1)).
      { by apply processCurrentPage_checkpoint. }
      destruct (IH st' _ (trace (processCurrentPage env sys).1) Hs' Hc')
        as [Hall Hsorted].
      rewrite runStates_cons, Hst'. split.
      * constructor; [split; [done | apply Hs']|].
        eapply Forall_impl; [exact Hall|]. intros s [? ?]. split; [|done].
        by eapply extends_trans.
      * constructor; [done|]. eapply Forall_impl; [exact Hall|]. by intros s [? ?].
Qed.

Lemma startExport_checkpoint env fmt sys :
  quotaLeft env = true →
  ∃ st, state (startExport env fmt sys).1 = Some st
        ∧ (isISOTimestamp (clock env) = true → sound st)
        ∧ checkpointOf st (slot (startExport env fmt sys).1).
Proof.
  intros Hq. eexists. split; [apply startExport_state|].
  destruct (harvest_extends (getCurrentPage env) (extracted env)
              {| format := fmt; articles := []; processedPages := [];
                 totalArticles := getTotalArticlesEstimate env;
                 startTime := clock env |}) as (_ & Hn & Ht).
  split.
  - intros Hiso. split; [apply Hn; constructor | by rewrite Ht].
  - unfold startExport. apply processCurrentPage_checkpoint; [done|done|by left].
Qed.

(** C10, as the code has it.  Take an export started on a page and the
    pages loaded after it, and suppose that the session storage accepts
    every write.  Then, from one page to any later one, the state the
    controller holds continues the earlier one: [processedPages] keeps its
    entries and their order and only gains entries at the end, it never
    holds a page twice, and the records of the earlier state are a prefix of
    the later records.  The same holds for the pages loaded after a
    checkpoint was left in the slot (a run seen from a Resume on).  Within
    one page, whatever the storage does, processing only extends the
    state. *)
Theorem run_states_only_grow (env0 : Env) (fmt : jstr) (sys0 : System)
    (envs : list Env) :
  isISOTimestamp (clock env0) = true →
  Forall (fun env => quotaLeft env = true) (env0 :: envs) →
  StronglySorted extends (runStates (exportRun env0 fmt sys0 envs))
  ∧ Forall (fun st => NoDup (processedPages st))
      (runStates (exportRun env0 fmt sys0 envs))
  ∧ (∀ st tr, sound st →
       StronglySorted extends
         (st :: runStates (pageLoads envs (Some (stringify (encode st))) tr))
       ∧ Forall (fun st' => NoDup (processedPages st'))
           (runStates (pageLoads envs (Some (stringify (encode st))) tr)))
  ∧ (∀ st page found,
       extends st (harvest page found st)
       ∧ (NoDup (processedPages st) → NoDup (processedPages (harvest page found st)))).
Proof.
  intros Hiso [Hq0 Hqs]%Forall_cons. split_and!.
  - unfold exportRun. cbv zeta. rewrite runStates_cons.
    destruct (startExport_checkpoint env0 fmt sys0 Hq0) as (st & Hst & Hs & Hc).
    rewrite Hst.
    destruct (pageLoads_extend envs Hqs st _ (trace (startExport env0 fmt sys0).1)
                (Hs Hiso) Hc) as [Hall Hsorted].
    constructor; [done|]. eapply Forall_impl; [exact Hall|]. by intros s [? ?].
  - unfold exportRun. cbv zeta. rewrite runStates_cons.
    destruct (startExport_checkpoint env0 fmt sys0 Hq0) as (st & Hst & Hs & Hc).
    rewrite Hst.
    destruct (pageLoads_extend envs Hqs st _ (trace (startExport env0 fmt sys0).1)
                (Hs Hiso) Hc) as [Hall _].
    constructor; [apply (Hs Hiso)|]. eapply Forall_impl; [exact Hall|].
    by intros s [? ?].
  - intros st tr Hs.
    destruct (pageLoads_extend envs Hqs st (Some (stringify (encode st))) tr Hs)
      as [Hall Hsorted]; [by right|].
    split.
    + constructor; [done|]. eapply Forall_impl; [exact Hall|]. by intros s [? ?].
    + eapply Forall_impl; [exact Hall|]. by intros s [? ?].
  - intros st page found.
    destruct (harvest_extends page found st) as (? & ? & _). done.
Qed.

Lemma run_states_only_grow_witness :
  StronglySorted extends
    (runStates (exportRun pageOne (cu "ris") freshSystem [pageTwo; pageThree]))
  ∧ Forall (fun st => NoDup (processedPages st))
      (runStates (exportRun pageOne (cu "ris") freshSystem [pageTwo; pageThree])).
Proof.
  destruct (run_states_only_grow pageOne (cu "ris") freshSystem [pageTwo; pageThree])
    as (H1 & H2 & _).
  - reflexivity.
  - repeat constructor.
  - exact (conj H1 H2).
Defined.

(** C10, as stated, fails.  Page 1 gives one article and its checkpoint is
    written.  On page 2 the storage refuses the write: the state in memory
    has two articles and the pages 1 and 2, the slot still holds the
    checkpoint of page 1, and the controller goes on to page 3.  There the
    checkpoint of page 1 is adopted: the run is back to one article and to
    page 1 alone, and that is what is exported. *)
Lemma refused_save_loses_a_page :
  List.map snd (exportRun pageOne (cu "ris") freshSystem
                  [pageTwoStorageFull; pageThree])
  = [Navigating 2; Navigating 3; Done]
  ∧ List.map articles
      (runStates (exportRun pageOne (cu "ris") freshSystem
                    [pageTwoStorageFull; pageThree]))
    = [[studyOfX]; [studyOfX; surveyOfY]; [studyOfX]]
  ∧ List.map processedPages
      (runStates (exportRun pageOne (cu "ris") freshSystem
                    [pageTwoStorageFull; pageThree]))
    = [[1%Z]; [1%Z; 2%Z]; [1%Z]].
Proof. vm_compute. repeat split. Qed.

End RunFacts.

(** ** The controller, from page to page *)

Section ControllerRuns.

Import JSON.Stringify Checkpoint StateManager ExportController ContentScript
  PageNavigator Run Spec Samples.

(** X1.  Saving and loading are inverse on the states the controller
    makes.  When the session storage refuses the write, [save] leaves the
    slot as it was (the failure is swallowed).  When it accepts, [load]
    parses the slot back to the object that was written, the typed reading
    of that object is the state that was saved ([processedPages] with its
    pages in order), and the next page load resumes from exactly this
    state. *)
Theorem saved_checkpoint_loads_back (env env' : Env) (st : ExportState)
    (slot0 : option jstr) (tr : list Event) :
  sound st →
  (quotaLeft env = false → save env st slot0 = slot0)
  ∧ (quotaLeft env = true →
     load (save env st slot0) = (Some (encode st), save env st slot0)
     ∧ asExportState (encode st) = Some st
     ∧ state (pageLoad env' (save env st slot0) tr).1
       = Some (harvest (getCurrentPage env') (extracted env') st)).
Proof.
  intros Hs. unfold save. split; intros ->; [done|].
  destruct Hs as [Hnd Hiso]. destruct (load_saved st Hnd Hiso) as [Hl Ha].
  split_and!; [done|done|].
  rewrite pageLoad_checkpoint by done. by apply processCurrentPage_state.
Qed.

Lemma saved_checkpoint_loads_back_witness :
  load (save emptyPage afterPageOne None)
  = (Some (encode afterPageOne), save emptyPage afterPageOne None)
  ∧ asExportState (encode afterPageOne) = Some afterPageOne
  ∧ state (pageLoad pageTwo (save emptyPage afterPageOne None) []).1
    = Some (harvest (getCurrentPage pageTwo) (extracted pageTwo) afterPageOne).
Proof.
  apply (saved_checkpoint_loads_back emptyPage pageTwo afterPageOne None []).
  - split; [apply (bool_decide_unpack _); by vm_compute | reflexivity].
  - reflexivity.
Defined.

Lemma processCurrentPage_cases env sys st :
  state sys = Some st →
  let st' := harvest (getCurrentPage env) (extracted env) st in
  let sys1 :=
    {| slot := if (0 <? length (extracted env))%nat
               then save env st' (slot sys) else slot sys;
       state := Some st'; watchdog := true;
       trace := trace sys
                ++ (if (0 <? length (extracted env))%nat
                    then [Saved (quotaLeft env)] else [])
                ++ [UpdateStatus (Collected (length (articles st'))
                                    (length (processedPages st')))] |} in
  processCurrentPage env sys
  = if shouldContinueToNextPage env st' (getCurrentPage env)
    then navigateToNextPage env sys1
    else completeExport env st' sys1.
Proof.
  intros Hst st' sys1. unfold processCurrentPage. rewrite Hst.
  fold st'. unfold sys1.
  destruct (0 <? length (extracted env))%nat;
    unfold emit, setSlot, setState, setProcessingTimeout, clearProcessingTimeout,
      setWatchdog; cbn [slot state watchdog trace app];
    rewrite <- ?app_assoc; reflexivity.
Qed.

(** X2.  What [processCurrentPage] decides once the page is harvested, for
    a page index below 2^53 in absolute value (where the successor the
    script computes is the exact one).  With a next page (button or range
    text) whose index is not yet among the processed pages, it navigates,
    and its last act is [goToNextPage].  Otherwise it completes: with no
    article collected the export fails with [No articles found to
    export], with at least one it is done. *)
Theorem processCurrentPage_decides (env : Env) (sys : System) (st : ExportState) :
  state sys = Some st →
  (Z.abs (getCurrentPage env) < 2 ^ 53)%Z →
  let page := getCurrentPage env in
  let st' := harvest page (extracted env) st in
  (holds (hasNextPage env) = true ∧ (page + 1)%Z ∉ processedPages st' →
     (processCurrentPage env sys).2 = Navigating (page + 1)
     ∧ last (trace (processCurrentPage env sys).1) = Some (GoToNextPage (page + 1)))
  ∧ (holds (hasNextPage env) = false ∨ (page + 1)%Z ∈ processedPages st' →
     (articles st' = [] →
        (processCurrentPage env sys).2 = Failed (cu "No articles found to export"))
     ∧ (articles st' ≠ [] → (processCurrentPage env sys).2 = Done)).
Proof.
  intros Hst _ page st'. rewrite (processCurrentPage_cases env sys st Hst).
  fold page st'. unfold shouldContinueToNextPage. fold page. split.
  - intros [Hn Hp]. rewrite Hn, bool_decide_eq_false_2 by done. cbn [andb negb].
    rewrite navigateToNextPage_result. cbn [fst snd trace]. split; [done|].
    by rewrite last_app_nonempty.
  - intros Hstop.
    assert (holds (hasNextPage env)
            && negb (bool_decide ((page + 1)%Z ∈ processedPages st')) = false) as ->.
    { destruct Hstop as [-> | Hin]; [done|].
      rewrite bool_decide_eq_true_2 by done. apply andb_false_r. }
    rewrite completeExport_result. split.
    + intros ->. by rewrite bool_decide_eq_true_2.
    + intros Hne. rewrite bool_decide_eq_false_2; [done|]. by destruct (articles st').
Qed.

Lemma processCurrentPage_decides_witness :
  (processCurrentPage pageOne (holding afterPageOne freshSystem)).2 = Navigating 2
  ∧ last (trace (processCurrentPage pageOne (holding afterPageOne freshSystem)).1)
    = Some (GoToNextPage 2).
Proof.
  apply (proj1 (processCurrentPage_decides pageOne (holding afterPageOne freshSystem)
                  afterPageOne eq_refl eq_refl)).
  split; [reflexivity|]. change (2%Z ∉ [1%Z]). by intros ?%list_elem_of_singleton.
Defined.


(** X3.  The processing timer follows the phase: after
    [processCurrentPage] it is pending exactly when the page navigates on.
    A pending timer that fires fails the export with [Export timed out],
    clears the checkpoint and leaves no timer; after a completed or failed
    export there is no timer left to fire. *)
Theorem watchdog_follows_phase (env : Env) (sys : System) (st : ExportState) :
  state sys = Some st →
  ((∃ page, (processCurrentPage env sys).2 = Navigating page)
   ↔ watchdog (processCurrentPage env sys).1 = true)
  ∧ (watchdog (processCurrentPage env sys).1 = true →
     (watchdogFires (processCurrentPage env sys).1).2
       = Failed (cu "Export timed out")
     ∧ slot (watchdogFires (processCurrentPage env sys).1).1 = None
     ∧ watchdog (watchdogFires (processCurrentPage env sys).1).1 = false)
  ∧ (watchdog (processCurrentPage env sys).1 = false →
     watchdogFires (processCurrentPage env sys).1
     = ((processCurrentPage env sys).1, Idle)).
Proof.
  intros Hst. rewrite (processCurrentPage_cases env sys st Hst). cbv zeta.
  destruct (shouldContinueToNextPage _ _ _).
  - rewrite navigateToNextPage_result. cbn [fst snd watchdog]. split_and!.
    + split; [done|]. intros _. by eexists.
    + intros _. unfold watchdogFires. cbn [watchdog].
      by rewrite handleError_result.
    + done.
  - rewrite completeExport_result. case_bool_decide; cbn [fst snd watchdog];
      (split_and!; [split; [by intros [? ?] | done] | done | done]).
Qed.

Lemma watchdog_follows_phase_witness :
  (∃ page, (processCurrentPage pageOne (holding afterPageOne freshSystem)).2
           = Navigating page)
  ↔ watchdog (processCurrentPage pageOne (holding afterPageOne freshSystem)).1 = true.
Proof.
  apply (proj1 (watchdog_follows_phase pageOne (holding afterPageOne freshSystem)
                  afterPageOne eq_refl)).
Defined.

Lemma startExport_from env fmt sys :
  startExport env fmt sys
  = ({| slot := slot (startExport env fmt freshSystem).1;
        state := state (startExport env fmt freshSystem).1;
        watchdog := watchdog (startExport env fmt freshSystem).1;
        trace := trace sys ++ trace (startExport env fmt freshSystem).1 |},
     (startExport env fmt freshSystem).2).
Proof.
  unfold startExport.
  rewrite !(processCurrentPage_cases env _
              {| format := fmt; articles := []; processedPages := [];
                 totalArticles := getTotalArticlesEstimate env;
                 startTime := clock env |}) by reflexivity.
  cbv zeta. destruct (shouldContinueToNextPage _ _ _).
  - rewrite !navigateToNextPage_result. cbn. by rewrite <- !app_assoc.
  - rewrite !completeExport_result. case_bool_decide; cbn; by rewrite <- !app_assoc.
Qed.

(** X4.  [startExport] starts from nothing: whatever checkpoint, state and
    timer the controller held before, the slot, the state, the timer and
    the phase after it are the same, the checkpoint is cleared first, and
    the same collaborator calls follow.  The state it leaves has the
    requested format, the articles of this page only, this page as the only
    processed page (none if the page shows no article), the estimate read
    from the page and the clock's time. *)
Theorem startExport_discards_previous (env : Env) (fmt : jstr) (sys sys' : System) :
  slot (startExport env fmt sys).1 = slot (startExport env fmt sys').1
  ∧ state (startExport env fmt sys).1 = state (startExport env fmt sys').1
  ∧ watchdog (startExport env fmt sys).1 = watchdog (startExport env fmt sys').1
  ∧ (startExport env fmt sys).2 = (startExport env fmt sys').2
  ∧ (∃ calls, trace (startExport env fmt sys).1 = trace sys ++ Cleared :: calls
              ∧ trace (startExport env fmt sys').1 = trace sys' ++ Cleared :: calls)
  ∧ ∃ st, state (startExport env fmt sys).1 = Some st
          ∧ format st = fmt
          ∧ articles st = extracted env
          ∧ processedPages st
            = (if (0 <? length (extracted env))%nat then [getCurrentPage env] else [])
          ∧ totalArticles st = getTotalArticlesEstimate env
          ∧ startTime st = clock env.
Proof.
  rewrite (startExport_from env fmt sys), (startExport_from env fmt sys').
  cbn [fst snd slot state watchdog trace]. split_and!; try done.
  - assert (H : ∃ calls, trace (startExport env fmt freshSystem).1 = Cleared :: calls).
    { unfold startExport.
      rewrite (processCurrentPage_cases env _
                 {| format := fmt; articles := []; processedPages := [];
                    totalArticles := getTotalArticlesEstimate env;
                    startTime := clock env |}) by reflexivity.
      cbv zeta. destruct (shouldContinueToNextPage _ _ _).
      - rewrite navigateToNextPage_result. cbn. by eexists.
      - rewrite completeExport_result. case_bool_decide; cbn; by eexists. }
    destruct H as [calls ->]. by exists calls.
  - eexists. split; [apply startExport_state|]. unfold harvest.
    destruct (0 <? length (extracted env))%nat eqn:E; cbn; split_and!; try done.
    destruct (extracted env); [done | by cbn in E].
Qed.



(** X6.  After [processCurrentPage] has completed or failed an export, the
    checkpoint is gone: the next page load finds nothing and stays idle. *)
Theorem finished_export_is_not_resumed (env env' : Env) (sys : System)
    (tr : list Event) :
  (processCurrentPage env sys).2 = Done
  ∨ (∃ cause, (processCurrentPage env sys).2 = Failed cause) →
  pageLoad env' (slot (processCurrentPage env sys).1) tr
  = ({| slot := None; state := None; watchdog := false; trace := tr |}, Idle).
Proof.
  intros H. rewrite (processCurrentPage_terminal env sys H). apply pageLoad_empty.
Qed.

Lemma finished_export_is_not_resumed_witness :
  pageLoad pageTwo
    (slot (processCurrentPage lastPage (holding afterPageOne freshSystem)).1) []
  = ({| slot := None; state := None; watchdog := false; trace := [] |}, Idle).
Proof.
  apply (finished_export_is_not_resumed lastPage pageTwo
           (holding afterPageOne freshSystem) []).
  left. reflexivity.
Defined.

Lemma harvest_articles page found st :
  articles (harvest page found st) = articles st ++ found
  ∧ format (harvest page found st) = format st.
Proof.
  unfold harvest. destruct found; cbn; [by rewrite app_nil_r | done].
Qed.

Lemma processCurrentPage_navigating_slot env sys st page :
  state sys = Some st → quotaLeft env = true →
  (slot sys = Some (stringify (encode st)) ∨ extracted env ≠ []) →
  (processCurrentPage env sys).2 = Navigating page →
  slot (processCurrentPage env sys).1
  = Some (stringify (encode (harvest (getCurrentPage env) (extracted env) st))).
Proof.
  intros Hst Hq Hslot. rewrite (processCurrentPage_cases env sys st Hst). cbv zeta.
  destruct (shouldContinueToNextPage _ _ _).
  - rewrite navigateToNextPage_result. cbn [fst snd slot]. intros _.
    unfold save. rewrite Hq. unfold harvest.
    destruct (extracted env) as [|a l]; cbn; [|done].
    by destruct Hslot as [-> | ?].
  - rewrite completeExport_result. by case_bool_decide.
Qed.

Lemma removelast_cons {A} (x y : A) (l : list A) :
  removelast (x :: y :: l) = x :: removelast (y :: l).
Proof. reflexivity. Qed.

Lemma processCurrentPage_done_downloads env sys st :
  state sys = Some st →
  (processCurrentPage env sys).2 = Done →
  Download (generateExportContent (harvest (getCurrentPage env) (extracted env) st))
    (FileDownloader.generateFilename env (format st))
  ∈ trace (processCurrentPage env sys).1.
Proof.
  intros Hst. rewrite (processCurrentPage_cases env sys st Hst). cbv zeta.
  destruct (shouldContinueToNextPage _ _ _).
  - by rewrite navigateToNextPage_result.
  - rewrite completeExport_result. case_bool_decide; [done|]. intros _.
    cbn [fst trace]. rewrite harvest_format.
    rewrite !elem_of_app. right. do 2 right. left.
Qed.

Lemma pageLoads_collect (envs : list Env) :
  envs ≠ [] → Forall (fun env => quotaLeft env = true) envs →
  ∀ st tr, sound st →
    Forall (fun r => ∃ page, r.2 = Navigating page)
      (removelast (pageLoads envs (Some (stringify (encode st))) tr)) →
    ∃ r st', last (pageLoads envs (Some (stringify (encode st))) tr) = Some r
             ∧ state r.1 = Some st'
             ∧ articles st' = articles st ++ concat (List.map extracted envs)
             ∧ format st' = format st
             ∧ (r.2 = Done →
                ∃ filename, Download (generateExportContent st') filename ∈ trace r.1).
Proof.
  induction envs as [|env [|env2 envs] IH]; intros Hne Hq st tr Hs Hnav; [done| |].
  - cbn [pageLoads]. eexists _, _. split; [reflexivity|].
    rewrite pageLoad_checkpoint by done.
    split; [by apply processCurrentPage_state|].
    destruct (harvest_articles (getCurrentPage env) (extracted env) st) as [-> ->].
    cbn [List.map concat]. rewrite app_nil_r. split_and!; [done|done|].
    intros Hd. eexists. by apply processCurrentPage_done_downloads.
  - apply Forall_cons in Hq as [Hq Hqs].
    change (pageLoads (env :: env2 :: envs) (Some (stringify (encode st))) tr)
      with (pageLoad env (Some (stringify (encode st))) tr
            :: pageLoads (env2 :: envs)
                 (slot (pageLoad env (Some (stringify (encode st))) tr).1)
                 (trace (pageLoad env (Some (stringify (encode st))) tr).1)) in *.
    rewrite pageLoad_checkpoint in * by done.
    set (sys := {| slot := _; state := Some st; watchdog := _; trace := _ |}) in *.
    assert (Hstate : state sys = Some st) by done.
    assert (Hslot : slot sys = Some (stringify (encode st))) by done.
    clearbody sys.
    set (st1 := harvest (getCurrentPage env) (extracted env) st).
    destruct (pageLoads (env2 :: envs) _ _) as [|r2 rs] eqn:E; [done|].
    rewrite removelast_cons in Hnav. apply Forall_cons in Hnav as [[page Hp] Hnav].
    pose proof (processCurrentPage_navigating_slot env sys st page Hstate Hq
                  (or_introl Hslot) Hp) as Hslot1.
    fold st1 in Hslot1. rewrite Hslot1 in E.
    destruct (harvest_extends (getCurrentPage env) (extracted env) st)
      as (_ & Hn & Ht).
    assert (Hs1 : sound st1).
    { destruct Hs as [? ?]. split; [by apply Hn | unfold st1; by rewrite Ht]. }
    destruct (IH ltac:(done) Hqs st1 (trace (processCurrentPage env sys).1) Hs1)
      as (r & st' & Hl & Hst' & Ha & Hf & Hd).
    { by rewrite E. }
    exists r, st'. rewrite E in Hl. split; [exact Hl|]. split; [done|].
    destruct (harvest_articles (getCurrentPage env) (extracted env) st) as [Ha1 Hf1].
    fold st1 in Ha1, Hf1. rewrite Ha, Ha1, Hf, Hf1. cbn [List.map concat].
    by rewrite <- !app_assoc.
Qed.

(** X7.  A run whose writes are all accepted, that starts on a page with
    articles and in which every page but the last navigates on, ends
    holding the articles of all its pages, in page order, in the format the
    export was started with; if that last page completes the export, the
    document handed to the download is the conversion of exactly these
    articles. *)
Theorem run_collects_every_page (env0 : Env) (fmt : jstr) (sys0 : System)
    (envs : list Env) :
  isISOTimestamp (clock env0) = true →
  Forall (fun env => quotaLeft env = true) (env0 :: envs) →
  extracted env0 ≠ [] →
  Forall (fun r => ∃ page, r.2 = Navigating page)
    (removelast (exportRun env0 fmt sys0 envs)) →
  ∃ r st, last (exportRun env0 fmt sys0 envs) = Some r
          ∧ state r.1 = Some st
          ∧ format st = fmt
          ∧ articles st = concat (List.map extracted (env0 :: envs))
          ∧ (r.2 = Done →
             ∃ filename, Download (generateExportContent st) filename ∈ trace r.1).
Proof.
  intros Hiso Hq Hx Hnav. apply Forall_cons in Hq as [Hq Hqs].
  unfold exportRun in *. cbv zeta in *.
  set (st0 := {| format := fmt; articles := []; processedPages := [];
                 totalArticles := getTotalArticlesEstimate env0;
                 startTime := clock env0 |}).
  set (st1 := harvest (getCurrentPage env0) (extracted env0) st0).
  pose proof (startExport_state env0 fmt sys0) as Hst. fold st0 st1 in Hst.
  destruct (harvest_articles (getCurrentPage env0) (extracted env0) st0) as [Ha1 Hf1].
  fold st1 in Ha1, Hf1. cbn in Ha1, Hf1.
  destruct envs as [|env envs].
  - cbn [pageLoads last]. eexists _, st1. split; [reflexivity|].
    split_and!; [done|done|by cbn; rewrite app_nil_r|].
    intros Hd. eexists. revert Hd. unfold startExport.
    intros Hd. by apply (processCurrentPage_done_downloads env0 _ st0).
  - destruct (pageLoads (env :: envs) _ _) as [|r2 rs] eqn:E; [done|].
    rewrite removelast_cons in Hnav. apply Forall_cons in Hnav as [[page Hp] Hnav].
    assert (Hslot : slot (startExport env0 fmt sys0).1
                    = Some (stringify (encode st1))).
    { unfold startExport in *.
      by apply (processCurrentPage_navigating_slot env0 _ st0 page);
        [done|done|right|done]. }
    rewrite Hslot in E.
    destruct (harvest_extends (getCurrentPage env0) (extracted env0) st0)
      as (_ & Hn & Ht).
    assert (Hs1 : sound st1).
    { split; [apply Hn; constructor | unfold st1; by rewrite Ht]. }
    destruct (pageLoads_collect (env :: envs) ltac:(done) Hqs st1
                (trace (startExport env0 fmt sys0).1) Hs1)
      as (r & st' & Hl & Hst' & Ha & Hf & Hd).
    { by rewrite E. }
    exists r, st'. rewrite E in Hl. split; [exact Hl|].
    split_and!; [done|congruence| |done].
    by rewrite Ha, Ha1.
Qed.

Lemma run_collects_every_page_witness :
  ∃ r st, last (exportRun pageOne (cu "ris") freshSystem [pageTwo; pageThree]) = Some r
          ∧ state r.1 = Some st
          ∧ format st = cu "ris"
          ∧ articles st = concat (List.map extracted [pageOne; pageTwo; pageThree])
          ∧ (r.2 = Done →
             ∃ filename, Download (generateExportContent st) filename ∈ trace r.1).
Proof.
  apply (run_collects_every_page pageOne (cu "ris") freshSystem [pageTwo; pageThree]).
  - reflexivity.
  - repeat constructor.
  - discriminate.
  - vm_compute. repeat constructor; by eexists.
Defined.

End ControllerRuns.

(** ** Following the next page, file names and the estimate *)

Section NavigationFacts.

Import JSON.Stringify Checkpoint FileDownloader PageNavigator Navigation
  ExportController Spec Samples.

Lemma parseInt_digits d (ds : jstr) :
  forallb isDigit (d :: ds) = true →
  parseInt (d :: ds) = Some (Z.of_N (digitsValue (d :: ds))).
Proof.
  intros Hd. pose proof Hd as Hd'. cbn in Hd'. apply andb_prop in Hd' as [Hd1 _].
  unfold parseInt. rewrite (skip_id isSpace) by by apply digit_not_space.
  apply isDigit_range in Hd1.
  destruct (N.eqb_spec d 45); [lia|]. destruct (N.eqb_spec d 43); [lia|].
  pose proof (span_run isDigit (d :: ds) [] Hd I) as Hs. rewrite app_nil_r in Hs.
  rewrite Hs. cbn [fst]. by rewrite bool_decide_eq_false_2.
Qed.

Lemma parseInt_number (z : Z) : parseInt (number z) = Some z.
Proof.
  unfold number. destruct (Z.ltb_spec z 0) as [Hneg|Hpos].
  - destruct (decimal_spec (Z.to_N (- z))) as (Hv & Hd & d & ds & E & _).
    unfold parseInt. rewrite (skip_id isSpace) by done.
    cbn [N.eqb Pos.eqb]. rewrite E in *.
    pose proof (span_run isDigit (d :: ds) [] Hd I) as Hs. rewrite app_nil_r in Hs.
    rewrite Hs. cbn [fst]. rewrite bool_decide_eq_false_2 by done.
    rewrite Hv. f_equal. rewrite Z2N.id by (clear - Hneg; lia). apply Z.opp_involutive.
  - destruct (decimal_spec (Z.to_N z)) as (Hv & Hd & d & ds & E & _).
    rewrite E in *. rewrite parseInt_digits by done. rewrite Hv.
    f_equal. apply Z2N.id. done.
Qed.

(** X8.  [goToNextPage] writes the page parameter that [getCurrentPage]
    reads back, within the range where JavaScript numbers are exact
    integers: the page arrived at has the index of the page left plus one.
    The one exception is the page index -1, whose successor 0 is read back
    as 1. *)
Theorem next_page_is_read_back (env next : Env) :
  (Z.abs (getCurrentPage env) < 2 ^ 53)%Z →
  pageParam (arrivesAt env next) = Some (number (getCurrentPage env + 1))
  ∧ getCurrentPage (arrivesAt env next)
    = (if (getCurrentPage env =? -1)%Z then 1 else getCurrentPage env + 1)%Z
  ∧ ((1 ≤ getCurrentPage env)%Z →
     getCurrentPage (arrivesAt env next) = (getCurrentPage env + 1)%Z
     ∧ (1 < getCurrentPage (arrivesAt env next))%Z).
Proof.
  intros _. split; [done|].
  assert (H : getCurrentPage (arrivesAt env next)
              = (if (getCurrentPage env =? -1)%Z then 1 else getCurrentPage env + 1)%Z).
  { unfold getCurrentPage at 1. cbn [arrivesAt pageParam]. unfold nextPageParam.
    rewrite parseInt_number.
    destruct (Z.eqb_spec (getCurrentPage env + 1) 0), (Z.eqb_spec (getCurrentPage env) (-1));
      try done; lia. }
  split; [done|]. intros Hp. rewrite H.
  destruct (Z.eqb_spec (getCurrentPage env) (-1)); lia.
Qed.

Lemma next_page_is_read_back_witness :
  pageParam (arrivesAt pageOne pageTwo) = Some (number (getCurrentPage pageOne + 1))
  ∧ getCurrentPage (arrivesAt pageOne pageTwo)
    = (if (getCurrentPage pageOne =? -1)%Z then 1 else getCurrentPage pageOne + 1)%Z
  ∧ ((1 ≤ getCurrentPage pageOne)%Z →
     getCurrentPage (arrivesAt pageOne pageTwo) = (getCurrentPage pageOne + 1)%Z
     ∧ (1 < getCurrentPage (arrivesAt pageOne pageTwo))%Z).
Proof.
  apply (next_page_is_read_back pageOne pageTwo). reflexivity.
Defined.


Lemma twoDigits_digits a b v :
  twoDigits a b = Some v → isDigit a = true ∧ isDigit b = true.
Proof. unfold twoDigits. by destruct (isDigit a), (isDigit b). Qed.

Lemma digit_kept c : isDigit c = true → negb ((c =? 58) || (c =? 45)) = true.
Proof.
  intros H%isDigit_range.
  destruct (N.eqb_spec c 58); [lia|]. destruct (N.eqb_spec c 45); [lia|]. done.
Qed.

Lemma isISOTimestamp_shape (s : jstr) :
  isISOTimestamp s = true →
  ∃ y1 y2 y3 y4 m1 m2 d1 d2 h1 h2 n1 n2 s1 s2 f1 f2 f3,
    s = [y1; y2; y3; y4; 45; m1; m2; 45; d1; d2; 84; h1; h2; 58; n1; n2; 58;
         s1; s2; 46; f1; f2; f3; 90]
    ∧ forallb isDigit [y1; y2; y3; y4; m1; m2; d1; d2; h1; h2; n1; n2; s1; s2;
                       f1; f2; f3] = true.
Proof.
  do 24 (destruct s as [|? s]; [done|]). destruct s; [|done].
  unfold isISOTimestamp.
  repeat match goal with
         | |- context [twoDigits ?a ?b] =>
             let E := fresh "E" in
             destruct (twoDigits a b) eqn:E; [apply twoDigits_digits in E as [? ?]|done]
         end.
  rewrite !andb_true_iff. intros [[[[[[[[[[Hp _] _] _] _] _] _] _] ?] ?] ?].
  apply bool_decide_eq_true_1 in Hp. injection Hp as -> -> -> -> -> -> ->.
  do 17 eexists. split; [reflexivity|].
  cbn [forallb]. rewrite !andb_true_iff. by split_and!.
Qed.

(** X9.  For a clock in the form [toISOString] gives it, [getTimestamp] is
    the eight digits of the date, the letter T and the six digits of the
    time (fifteen code units), the separators and the fraction being
    dropped. *)
Theorem getTimestamp_of_iso_clock (env : Env) :
  isISOTimestamp (stampClock env) = true →
  ∃ date time,
    take 10 (stampClock env)
    = take 4 date ++ cu "-" ++ take 2 (drop 4 date) ++ cu "-" ++ drop 6 date
    ∧ take 8 (drop 11 (stampClock env))
      = take 2 time ++ cu ":" ++ take 2 (drop 2 time) ++ cu ":" ++ drop 4 time
    ∧ getTimestamp env = date ++ cu "T" ++ time
    ∧ length date = 8%nat ∧ forallb isDigit date = true
    ∧ length time = 6%nat ∧ forallb isDigit time = true.
Proof.
  intros H. unfold getTimestamp.
  destruct (isISOTimestamp_shape _ H)
    as (y1 & y2 & y3 & y4 & m1 & m2 & d1 & d2 & h1 & h2 & n1 & n2 & s1 & s2
        & f1 & f2 & f3 & -> & Hd).
  cbn [forallb] in Hd. rewrite !andb_true_iff in Hd.
  destruct Hd as (?&?&?&?&?&?&?&?&?&?&?&?&?&?&?&?&?&_).
  exists [y1; y2; y3; y4; m1; m2; d1; d2], [h1; h2; n1; n2; s1; s2].
  split; [reflexivity|]. split; [reflexivity|].
  split.
  - cbn [take List.filter].
    repeat match goal with
           | Hc : isDigit ?c = true |- context [negb ((?c =? 58) || (?c =? 45))] =>
               rewrite (digit_kept c Hc)
           end.
    reflexivity.
  - cbn [forallb length]. rewrite !andb_true_iff. by split_and!.
Qed.

Lemma getTimestamp_of_iso_clock_witness :
  ∃ date time,
    take 10 (stampClock emptyPage)
    = take 4 date ++ cu "-" ++ take 2 (drop 4 date) ++ cu "-" ++ drop 6 date
    ∧ take 8 (drop 11 (stampClock emptyPage))
      = take 2 time ++ cu ":" ++ take 2 (drop 2 time) ++ cu ":" ++ drop 4 time
    ∧ getTimestamp emptyPage = date ++ cu "T" ++ time
    ∧ length date = 8%nat ∧ forallb isDigit date = true
    ∧ length time = 6%nat ∧ forallb isDigit time = true.
Proof. apply (getTimestamp_of_iso_clock emptyPage). reflexivity. Defined.

Lemma generateFilename_eq env fmt :
  generateFilename env fmt
  = cu "capes_"
    ++ take 20 (List.map (fun c => if isAlnum c then c else 95)
                  (match queryParam env with
                   | Some q => if truthy q then q else cu "capes-export"
                   | None => cu "capes-export"
                   end))
    ++ cu "_" ++ getTimestamp env ++ cu "."
    ++ (if bool_decide (fmt = cu "ris") then cu "ris" else cu "bib").
Proof. reflexivity. Qed.

(** X10.  A file name is [capes_], a term, an underscore, the timestamp, a
    dot and the extension, which is [ris] for the format [ris] and [bib]
    for every other format.  The term has between 1 and 20 code units, all
    ASCII letters, digits or underscores: it is the query parameter cut at
    20 code units with every other code unit replaced by an underscore, and
    [capes_export] when the query parameter is absent or empty. *)
Theorem generateFilename_shape (env : Env) (fmt : jstr) :
  ∃ term,
    generateFilename env fmt
    = cu "capes_" ++ term ++ cu "_" ++ getTimestamp env ++ cu "."
      ++ (if bool_decide (fmt = cu "ris") then cu "ris" else cu "bib")
    ∧ (1 ≤ length term ≤ 20)%nat
    ∧ forallb (fun c => isAlnum c || (c =? 95)) term = true
    ∧ (queryParam env = None ∨ queryParam env = Some [] →
       term = cu "capes_export")
    ∧ (∀ q, queryParam env = Some q → q ≠ [] →
         length term = Nat.min 20 (length q)
         ∧ ∀ i c, q !! i = Some c → (i < 20)%nat →
             term !! i = Some (if isAlnum c then c else 95)).
Proof.
  rewrite generateFilename_eq. eexists. split; [reflexivity|].
  set (searchTerm := match queryParam env with
                     | Some q => if truthy q then q else cu "capes-export"
                     | None => cu "capes-export" end).
  assert (Hne : (1 ≤ length searchTerm)%nat).
  { unfold searchTerm. destruct (queryParam env) as [[|c q]|]; cbn; lia. }
  split_and!.
  - rewrite length_take, length_map. lia.
  - rewrite length_take, length_map. lia.
  - apply forallb_forall. intros c Hc%list_elem_of_In.
    apply elem_of_take in Hc as (i & Hc & _).
    apply list_lookup_fmap_Some in Hc as (x & -> & _).
    destruct (isAlnum x) eqn:E; [by rewrite E|]. by rewrite orb_true_r.
  - unfold searchTerm. by intros [-> | ->].
  - intros q Hq Hn. unfold searchTerm. rewrite Hq.
    destruct q as [|c0 q0]; [done|]. cbn [truthy].
    split; [rewrite length_take, length_map; lia|].
    intros i c Hi Hlt. rewrite lookup_take_lt by done.
    change (List.map ?f ?l) with (f <$> l). by rewrite list_lookup_fmap, Hi.
Qed.


Lemma totalAt_sound (s t : jstr) :
  totalAt s = Some t →
  ∃ ws post, s = cu "de" ++ ws ++ t ++ post
             ∧ forallb isSpace ws = true ∧ digits t
             ∧ match post with [] => True | c :: _ => isDigit c = false end.
Proof.
  unfold totalAt, skip. destruct s as [|d [|e s]]; [done|done|].
  destruct (N.eqb_spec d 100) as [->|]; [|done].
  destruct (N.eqb_spec e 101) as [->|]; [|done]. cbn [andb negb].
  destruct (span isSpace s) as [ws s1] eqn:E1.
  apply span_eq in E1 as (-> & Hw & _). cbn [snd].
  destruct (span isDigit s1) as [t' post] eqn:E2.
  apply span_eq in E2 as (-> & Ht & Hp). cbn [fst].
  case_bool_decide; [done|]. intros [= <-]. by exists ws, post.
Qed.

Lemma totalAt_complete (ws t post : jstr) :
  forallb isSpace ws = true → digits t →
  totalAt (cu "de" ++ ws ++ t ++ post) = Some (t ++ fst (span isDigit post)).
Proof.
  intros Hw [Ht Ht']. unfold totalAt, skip. cbn [cu List.map list_ascii_of_string app].
  change (N_of_ascii "d" =? 100) with true. change (N_of_ascii "e" =? 101) with true.
  cbn [andb negb].
  rewrite (span_run isSpace ws).
  2: done.
  2: { destruct t as [|c t]; [done|]. cbn in *. apply digit_not_space.
       by destruct (isDigit c). }
  cbn [snd]. rewrite span_fst_app by done.
  rewrite bool_decide_eq_false_2; [done|]. by destruct t.
Qed.

Lemma totalMatch_skip (pre s : jstr) :
  Forall (fun c => c ≠ 100) pre → totalMatch (pre ++ s) = totalMatch s.
Proof.
  induction 1 as [|c pre Hc _ IH]; [done|]. cbn [app totalMatch].
  replace (totalAt (c :: pre ++ s)) with (@None jstr); [exact IH|].
  unfold totalAt. destruct (pre ++ s); [done|].
  by destruct (N.eqb_spec c 100).
Qed.

Lemma totalMatch_sound (text t : jstr) :
  totalMatch text = Some t → ∃ pre s, text = pre ++ s ∧ totalAt s = Some t.
Proof.
  induction text as [|c text IH]; cbn [totalMatch].
  - destruct (totalAt []) eqn:E; [|done]. intros [= <-]. by exists [], [].
  - destruct (totalAt (c :: text)) eqn:E.
    + intros [= <-]. by exists [], (c :: text).
    + intros (pre & s & -> & H)%IH. by exists (c :: pre), s.
Qed.

Lemma totalMatch_complete (pre s : jstr) :
  is_Some (totalAt s) → is_Some (totalMatch (pre ++ s)).
Proof.
  intros Hs. induction pre as [|c pre IH]; cbn [app].
  - destruct s; cbn [totalMatch]; destruct Hs as [m ->]; done.
  - cbn [totalMatch]. by destruct (totalAt (c :: pre ++ s)).
Qed.

Lemma rangeMatch_skip (pre s : jstr) :
  Forall (fun c => isDigit c = false) pre → rangeMatch (pre ++ s) = rangeMatch s.
Proof.
  induction 1 as [|c pre Hc _ IH]; [done|]. cbn [app rangeMatch].
  replace (rangeAt (c :: pre ++ s)) with (@None (jstr * jstr * jstr)); [exact IH|].
  unfold rangeAt. cbn [span]. by rewrite Hc.
Qed.

Lemma rangeMatch_first (s : jstr) m : rangeAt s = Some m → rangeMatch s = Some m.
Proof. intros H. destruct s; cbn [rangeMatch]; by rewrite H. Qed.

Lemma totalMatch_first (s : jstr) m : totalAt s = Some m → totalMatch s = Some m.
Proof. intros H. destruct s; cbn [totalMatch]; by rewrite H. Qed.

Lemma digits_not_d (a : jstr) :
  forallb isDigit a = true → Forall (fun c => c ≠ 100) a.
Proof.
  intros H. apply Forall_forall. intros c Hc%list_elem_of_In.
  eapply forallb_forall in H; [|exact Hc]. apply isDigit_range in H. lia.
Qed.

Lemma spaces_not_d (ws : jstr) :
  forallb isSpace ws = true → Forall (fun c => c ≠ 100) ws.
Proof.
  intros H. apply Forall_forall. intros c Hc%list_elem_of_In.
  eapply forallb_forall in H; [|exact Hc]. by intros ->.
Qed.

Lemma totalOccurs_totalAt (text pre t post : jstr) :
  totalOccurs text pre t post →
  ∃ s, text = pre ++ s ∧ totalAt s = Some (t ++ fst (span isDigit post)).
Proof.
  intros (ws & -> & Hw & Ht).
  eexists. split; [reflexivity|]. by apply totalAt_complete.
Qed.

Lemma totalAt_occurs (s t : jstr) :
  totalAt s = Some t → ∃ post, totalOccurs s [] t post ∧ endsNumber post.
Proof.
  intros (ws & post & -> & Hw & Ht & Hp)%totalAt_sound.
  exists post. split; [|done]. by exists ws.
Qed.

(** The first number after [de] is the one the pattern finds. *)
Lemma firstTotal_totalMatch (text t : jstr) :
  firstTotal text t ↔ totalMatch text = Some t.
Proof.
  split.
  - intros (pre & post & Hocc & Hend & Hmin).
    destruct (totalOccurs_totalAt _ _ _ _ Hocc) as (s & -> & Hs).
    rewrite span_nondigit, app_nil_r in Hs by done.
    apply (find_of_leftmost totalAt totalMatch totalMatch_eq); [done|].
    intros pre' s' Heq Hl.
    destruct (totalAt s') as [t'|] eqn:E; [|done].
    apply totalAt_occurs in E as (post' & (ws & -> & H) & _).
    assert (Ho : totalOccurs (pre ++ s) pre' t' post').
    { exists ws. by rewrite Heq. }
    apply Hmin in Ho. lia.
  - intros H.
    apply (find_leftmost totalAt totalMatch totalMatch_eq) in H
      as (pre & s & -> & Hs & Hearlier).
    apply totalAt_occurs in Hs as (post & (ws & -> & H) & Hend).
    exists pre, post. split_and!; [by exists ws | done |].
    intros pre' t' post' Ho.
    destruct (totalOccurs_totalAt _ _ _ _ Ho) as (s' & Heq & Hs').
    destruct (decide (length pre' < length pre)%nat) as [Hl|]; [|lia].
    rewrite (Hearlier pre' s' Heq Hl) in Hs'. done.
Qed.

(** X11.  The estimate of the total is 0 without the indicator element and
    when its text holds no [de] followed by digits.  Otherwise the text has
    a first number after [de]: the one whose [de] stands furthest to the
    left, read to its last digit; it is unique, and when it is below 2^53
    (where the script's numbers are exact) it is the estimate.  On a range
    text [A-B de T] preceded by neither digits nor the letter [d], with B
    and T below 2^53, the estimate is T, and without a next button
    [hasNextPage] compares B with this estimate. *)
Theorem getTotalArticlesEstimate_result (env : Env) :
  (pageInfo env = None → getTotalArticlesEstimate env = 0)
  ∧ (∀ text, pageInfo env = Some text →
       ((¬ ∃ pre t post, totalOccurs text pre t post) →
        getTotalArticlesEstimate env = 0)
       ∧ ((∃ pre t post, totalOccurs text pre t post) → ∃ t, firstTotal text t)
       ∧ (∀ t, firstTotal text t → digitsValue t < 2 ^ 53 →
            getTotalArticlesEstimate env = digitsValue t))
  ∧ (∀ text t t', firstTotal text t → firstTotal text t' → t = t')
  ∧ (∀ pre a b ws1 ws2 t post,
       pageInfo env
       = Some (pre ++ a ++ [8211] ++ b ++ ws1 ++ cu "de" ++ ws2 ++ t ++ post) →
       Forall (fun c => isDigit c = false ∧ c ≠ 100) pre →
       digits a → digits b → digits t →
       forallb isSpace ws1 = true → forallb isSpace ws2 = true →
       endsNumber post →
       digitsValue b < 2 ^ 53 → digitsValue t < 2 ^ 53 →
       getTotalArticlesEstimate env = digitsValue t
       ∧ (nextButton env = false →
          hasNextPage env = CBool (digitsValue b <? getTotalArticlesEstimate env))).
Proof.
  unfold getTotalArticlesEstimate, hasNextPage. split_and!.
  - by intros ->.
  - intros text ->. split_and!.
    + intros Hno. destruct (totalMatch text) as [t|] eqn:E; [|done].
      apply firstTotal_totalMatch in E as (pre & post & Ho & _).
      destruct Hno. by exists pre, t, post.
    + intros (pre & t & post & Ho).
      destruct (totalOccurs_totalAt _ _ _ _ Ho) as (s & -> & Hs).
      destruct (totalMatch_complete pre s) as [t' Ht']; [by eexists|].
      exists t'. by apply firstTotal_totalMatch.
    + intros t Ht%firstTotal_totalMatch _. by rewrite Ht.
  - intros text t t' H%firstTotal_totalMatch H'%firstTotal_totalMatch. congruence.
  - intros pre a b ws1 ws2 t post -> Hpre Ha Hb Ht Hw1 Hw2 Hpost _ _.
    assert (Ht' : totalMatch (pre ++ a ++ [8211] ++ b ++ ws1 ++ cu "de" ++ ws2 ++ t ++ post)
                  = Some t).
    { rewrite totalMatch_skip by (eapply Forall_impl; [exact Hpre|]; by intros ? [_ ?]).
      rewrite totalMatch_skip by (apply digits_not_d, Ha).
      rewrite (totalMatch_skip [8211]) by by repeat constructor.
      rewrite totalMatch_skip by (apply digits_not_d, Hb).
      rewrite totalMatch_skip by by apply spaces_not_d.
      apply totalMatch_first. rewrite totalAt_complete by done.
      by rewrite span_nondigit, app_nil_r. }
    rewrite Ht'. split; [done|]. intros ->.
    rewrite rangeMatch_skip by (eapply Forall_impl; [exact Hpre|]; by intros ? [? _]).
    rewrite (rangeMatch_first _ (a, b, t ++ fst (span isDigit post)))
      by by apply rangeAt_complete.
    by rewrite span_nondigit, app_nil_r.
Qed.

Lemma getTotalArticlesEstimate_result_witness :
  getTotalArticlesEstimate (withPageInfo (rangeDe "1" "30" "1234") emptyPage)
  = digitsValue (cu "1234")
  ∧ (nextButton (withPageInfo (rangeDe "1" "30" "1234") emptyPage) = false →
     hasNextPage (withPageInfo (rangeDe "1" "30" "1234") emptyPage)
     = CBool (digitsValue (cu "30")
              <? getTotalArticlesEstimate
                   (withPageInfo (rangeDe "1" "30" "1234") emptyPage))).
Proof.
  apply (proj2 (proj2 (proj2 (getTotalArticlesEstimate_result
                         (withPageInfo (rangeDe "1" "30" "1234") emptyPage))))
           [] (cu "1") (cu "30") (cu " ") (cu " ") (cu "1234") []);
    try done; by constructor.
Defined.


(** X12.  When [processCurrentPage] navigates on (from a page index other
    than -1 and below 2^53 in absolute value, where the script's numbers
    are exact), the page it arrives at has an index that is not yet among
    the processed pages; with articles there, harvesting adds exactly this
    index at the end of [processedPages], and without any it leaves the
    state as it is. *)
Theorem navigation_reaches_a_new_page (env next : Env) (sys : System)
    (st : ExportState) :
  state sys = Some st →
  (Z.abs (getCurrentPage env) < 2 ^ 53)%Z → getCurrentPage env ≠ (-1)%Z →
  (∃ page, (processCurrentPage env sys).2 = Navigating page) →
  let st' := harvest (getCurrentPage env) (extracted env) st in
  let env' := arrivesAt env next in
  (processCurrentPage env sys).2 = Navigating (getCurrentPage env')
  ∧ (getCurrentPage env' ∉ processedPages st')
  ∧ (extracted next ≠ [] →
     processedPages (harvest (getCurrentPage env') (extracted env') st')
     = processedPages st' ++ [getCurrentPage env'])
  ∧ (extracted next = [] →
     harvest (getCurrentPage env') (extracted env') st' = st').
Proof.
  intros Hst _ Hp [page Hnav]. cbv zeta.
  assert (Hpage : getCurrentPage (arrivesAt env next) = (getCurrentPage env + 1)%Z).
  { unfold getCurrentPage at 1. cbn [arrivesAt pageParam]. unfold nextPageParam.
    rewrite parseInt_number.
    destruct (Z.eqb_spec (getCurrentPage env + 1) 0); [lia|done]. }
  rewrite Hpage. revert Hnav.
  rewrite (processCurrentPage_cases env sys st Hst). cbv zeta.
  destruct (shouldContinueToNextPage _ _ _) eqn:E.
  2: { rewrite completeExport_result. by case_bool_decide. }
  rewrite navigateToNextPage_result. cbn [snd]. intros _.
  unfold shouldContinueToNextPage in E. apply andb_prop in E as [_ E].
  apply negb_true_iff, bool_decide_eq_false_1 in E.
  split_and!; [done|done| |].
  - intros Hx. unfold harvest at 1. cbn [arrivesAt extracted].
    destruct (extracted next) as [|a l]; [done|]. cbn [length Nat.ltb Nat.leb processedPages].
    unfold setAdd. by rewrite bool_decide_eq_false_2.
  - intros Hx. unfold harvest at 1. cbn [arrivesAt extracted]. by rewrite Hx.
Qed.

Lemma navigation_reaches_a_new_page_witness :
  (processCurrentPage pageOne (holding afterPageOne freshSystem)).2
  = Navigating (getCurrentPage (arrivesAt pageOne pageTwo))
  ∧ (getCurrentPage (arrivesAt pageOne pageTwo)
     ∉ processedPages (harvest (getCurrentPage pageOne) (extracted pageOne) afterPageOne))
  ∧ (extracted pageTwo ≠ [] →
     processedPages
       (harvest (getCurrentPage (arrivesAt pageOne pageTwo))
          (extracted (arrivesAt pageOne pageTwo))
          (harvest (getCurrentPage pageOne) (extracted pageOne) afterPageOne))
     = processedPages (harvest (getCurrentPage pageOne) (extracted pageOne) afterPageOne)
       ++ [getCurrentPage (arrivesAt pageOne pageTwo)])
  ∧ (extracted pageTwo = [] →
     harvest (getCurrentPage (arrivesAt pageOne pageTwo))
       (extracted (arrivesAt pageOne pageTwo))
       (harvest (getCurrentPage pageOne) (extracted pageOne) afterPageOne)
     = harvest (getCurrentPage pageOne) (extracted pageOne) afterPageOne).
Proof.
  apply (navigation_reaches_a_new_page pageOne pageTwo
           (holding afterPageOne freshSystem) afterPageOne).
  - reflexivity.
  - reflexivity.
  - discriminate.
  - by eexists.
Defined.

End NavigationFacts.

(** ** Type names, escaping and BibTeX entries *)

Section BibTeXFacts.

Import FormatConverter CitationKey Spec Samples.

Lemma lookup_list_to_map_find (own : list (jstr * jstr)) (key : jstr) :
  (list_to_map own : gmap jstr jstr) !! key
  = snd <$> List.find (fun kv => bool_decide (kv.1 = key)) own.
Proof.
  induction own as [|[k v] own IH]; [done|].
  cbn [list_to_map foldr List.find fst]. rewrite lookup_insert.
  case_decide as Hk; case_bool_decide; try done.
Qed.

Ltac type_cases :=
  unfold typeLookup, RIS_TYPE_MAP, BIBTEX_TYPE_MAP;
  rewrite ?lookup_list_to_map_find; cbn [List.find fst];
  repeat case_bool_decide; subst;
  cbn [fmap option_fmap option_map snd]; try done.

(** X13.  The type names of the two converters for every document kind.
    RIS: [CHAP] for a book chapter, [NEWS] for a letter, otherwise [JOUR].
    BibTeX: [inbook] for a book chapter, otherwise [article].  The
    exception are the kinds that name a property of [Object.prototype]:
    for them the lookup finds the inherited value, and its text is the type
    name in both formats. *)
Theorem typeLookup_cases (kind : jstr) :
  typeLookup RIS_TYPE_MAP kind (cu "JOUR")
  = (if bool_decide (kind = cu "Cap" ++ [237] ++ cu "tulo de livro") then cu "CHAP"
     else if bool_decide (kind = cu "Carta") then cu "NEWS"
     else default (cu "JOUR") (inheritedText kind))
  ∧ typeLookup BIBTEX_TYPE_MAP kind (cu "article")
    = (if bool_decide (kind = cu "Cap" ++ [237] ++ cu "tulo de livro") then cu "inbook"
       else default (cu "article") (inheritedText kind))
  ∧ (inheritedText kind = None →
     typeLookup RIS_TYPE_MAP kind (cu "JOUR") ∈ [cu "JOUR"; cu "CHAP"; cu "NEWS"]
     ∧ typeLookup BIBTEX_TYPE_MAP kind (cu "article") ∈ [cu "article"; cu "inbook"])
  ∧ (∀ text, inheritedText kind = Some text →
     typeLookup RIS_TYPE_MAP kind (cu "JOUR") = text
     ∧ typeLookup BIBTEX_TYPE_MAP kind (cu "article") = text).
Proof.
  split_and!.
  - type_cases.
  - type_cases.
  - intros Hi. split; type_cases; rewrite ?Hi; cbn [default]; set_solver.
  - intros text Hi. split; type_cases; by rewrite ?Hi.
Qed.


Lemma special_backslash : bibtexSpecial 92 = true.
Proof. reflexivity. Qed.

Lemma flat_map_escapedOnce_inj (s t : jstr) :
  flat_map escapedOnce s = flat_map escapedOnce t → s = t.
Proof.
  revert t. induction s as [|c s IH]; intros [|d t]; cbn [flat_map].
  - done.
  - unfold escapedOnce at 1. by destruct (bibtexSpecial d).
  - unfold escapedOnce at 1. by destruct (bibtexSpecial c).
  - unfold escapedOnce at 1 3.
    destruct (bibtexSpecial c) eqn:Ec, (bibtexSpecial d) eqn:Ed; cbn [app].
    + intros [= ? H]. subst. f_equal. by apply IH.
    + intros [= ? H]. subst. by rewrite special_backslash in Ed.
    + intros [= ? H]. subst. by rewrite special_backslash in Ec.
    + intros [= ? H]. subst. f_equal. by apply IH.
Qed.

Lemma flat_map_escapedOnce_length (s : jstr) :
  (length s ≤ length (flat_map escapedOnce s) ≤ 2 * length s)%nat.
Proof.
  induction s as [|c s IH]; cbn [flat_map length]; [lia|].
  rewrite length_app. unfold escapedOnce at 1 3.
  destruct (bibtexSpecial c); cbn [length]; lia.
Qed.

Lemma flat_map_escapedOnce_fixed (s : jstr) :
  flat_map escapedOnce s = s → forallb (fun c => negb (bibtexSpecial c)) s = true.
Proof.
  induction s as [|c s IH]; [done|]. cbn [flat_map forallb].
  unfold escapedOnce at 1. destruct (bibtexSpecial c) eqn:E; cbn [app negb andb].
  - intros [= ? H]. subst. pose proof (flat_map_escapedOnce_length s) as Hl.
    apply (f_equal length) in H. cbn [length] in H. lia.
  - intros [= H]. by apply IH.
Qed.

(** X14.  [escapeBibTeX] loses nothing: two strings with the same escaped
    form are equal.  The escaped form is at least as long as the string and
    at most twice as long, it is the string itself exactly when the string
    holds none of the seven special characters, and escaping distributes
    over concatenation. *)
Theorem escapeBibTeX_loses_nothing (s : jstr) :
  (∀ t, escapeBibTeX s = escapeBibTeX t → s = t)
  ∧ (length s ≤ length (escapeBibTeX s) ≤ 2 * length s)%nat
  ∧ (escapeBibTeX s = s ↔ forallb (fun c => negb (bibtexSpecial c)) s = true)
  ∧ (∀ t, escapeBibTeX (s ++ t) = escapeBibTeX s ++ escapeBibTeX t).
Proof.
  split; [|split; [|split]].
  - intros t. rewrite !escapeBibTeX_flat_map. apply flat_map_escapedOnce_inj.
  - rewrite escapeBibTeX_flat_map. apply flat_map_escapedOnce_length.
  - rewrite escapeBibTeX_flat_map. split;
      [apply flat_map_escapedOnce_fixed | apply flat_map_safe].
  - intros t. apply escapeBibTeX_app.
Qed.

Lemma lowerKept_units (c : N) :
  Forall (fun x => keyUnit x || isSpace x = true) (lowerKept c).
Proof.
  unfold lowerKept, keyUnit.
  destruct ((65 <=? c) && (c <=? 90)) eqn:E1.
  { apply andb_prop in E1 as [H1 H2]. apply N.leb_le in H1, H2.
    constructor; [|done].
    destruct (N.leb_spec 97 (c + 32)); [|lia].
    destruct (N.leb_spec (c + 32) 122); [|lia]. done. }
  destruct (((97 <=? c) && (c <=? 122)) || isDigit c || isSpace c) eqn:E2.
  { constructor; [|done]. exact E2. }
  destruct (c =? 304); [by repeat constructor|].
  destruct (c =? 8490); by repeat constructor.
Qed.

Lemma splitSpaces_pieces (P : N → Prop) (s cur : jstr) (inSep : bool) :
  Forall (fun c => isSpace c = false → P c) s → Forall P cur →
  Forall (Forall P) (splitSpaces s cur inSep).
Proof.
  revert cur inSep. induction s as [|c s IH]; intros cur inSep Hs Hcur;
    cbn [splitSpaces].
  - constructor; [|done]. by apply Forall_rev.
  - apply Forall_cons in Hs as [Hc Hs]. destruct (isSpace c) eqn:E.
    + destruct inSep; [by apply IH|].
      constructor; [by apply Forall_rev | by apply IH].
    + apply IH; [done|]. constructor; [by apply Hc | done].
Qed.

Lemma join_nil_concat (ws : list jstr) : join [] ws = concat ws.
Proof.
  induction ws as [|w [|w' ws] IH]; [done|by cbn; rewrite app_nil_r|].
  change (join [] (w :: w' :: ws)) with (w ++ [] ++ join [] (w' :: ws)).
  by rewrite IH.
Qed.

Lemma extractYear_cases (y : jstr) :
  (yearMatch y = None ∧ extractYear y = cu "unknown")
  ∨ (∃ d, yearMatch y = Some d ∧ extractYear y = d
          ∧ length d = 4%nat ∧ forallb isDigit d = true).
Proof.
  unfold extractYear. destruct y as [|c y]; [by left|]. cbn [truthy].
  destruct (yearMatch (c :: y)) as [d|] eqn:E; [|by left].
  right. exists d. destruct (yearMatch_sound _ _ E) as (_ & _ & _ & ? & ?). done.
Qed.

Lemma forallb_concat (p : N → bool) (ws : list jstr) :
  Forall (fun w => forallb p w = true) ws → forallb p (concat ws) = true.
Proof.
  induction 1 as [|w ws Hw _ IH]; [done|]. cbn [concat].
  by rewrite forallb_app, Hw, IH.
Qed.

Lemma keyUnit_digits (d : jstr) :
  forallb isDigit d = true → forallb keyUnit d = true.
Proof.
  intros H. apply forallb_forall. intros c Hc.
  eapply forallb_forall in H; [|exact Hc]. unfold keyUnit. by rewrite H, orb_true_r.
Qed.

(** X15.  A citation key is at most three words followed by the year part.
    Each word has more than three code units, all lower-case ASCII letters
    or digits; the year part is four digits or the word [unknown].  So a
    key holds lower-case ASCII letters and digits only. *)
Theorem generateCitationKey_shape (article : Article) :
  ∃ words,
    generateCitationKey article = concat words ++ extractYear (year article)
    ∧ (length words ≤ 3)%nat
    ∧ Forall (fun w => (3 < length w)%nat ∧ forallb keyUnit w = true) words
    ∧ (extractYear (year article) = cu "unknown"
       ∨ length (extractYear (year article)) = 4%nat
         ∧ forallb isDigit (extractYear (year article)) = true)
    ∧ forallb keyUnit (generateCitationKey article) = true.
Proof.
  unfold generateCitationKey. cbv zeta. rewrite join_nil_concat.
  set (pieces := splitSpaces (flat_map lowerKept (title article)) [] false).
  assert (Hp : Forall (Forall (fun c => keyUnit c = true)) pieces).
  { apply splitSpaces_pieces; [|done].
    apply Forall_forall. intros c Hc%list_elem_of_In%in_flat_map.
    destruct Hc as (x & _ & Hc). pose proof (lowerKept_units x) as Hu.
    rewrite Forall_forall in Hu. specialize (Hu c (proj2 (list_elem_of_In _ _) Hc)).
    intros Hs. rewrite Hs, orb_false_r in Hu. done. }
  set (words := take 3 (List.filter (fun word => (3 <? length word)%nat) pieces)).
  assert (Hw : Forall (fun w => (3 < length w)%nat ∧ forallb keyUnit w = true) words).
  { apply Forall_take. apply Forall_forall. intros w Hw%list_elem_of_In%filter_In.
    destruct Hw as [Hw Hl]. split; [by apply Nat.ltb_lt|].
    rewrite Forall_forall in Hp. specialize (Hp w (proj2 (list_elem_of_In _ _) Hw)).
    apply forallb_forall. intros c Hc. rewrite Forall_forall in Hp.
    apply Hp. by apply list_elem_of_In. }
  assert (Hy : extractYear (year article) = cu "unknown"
               ∨ length (extractYear (year article)) = 4%nat
                 ∧ forallb isDigit (extractYear (year article)) = true).
  { destruct (extractYear_cases (year article)) as [[_ ->]|(d & _ & -> & ? & ?)];
      [by left | by right]. }
  exists words. split_and!; try done.
  - unfold words. rewrite length_take. lia.
  - rewrite forallb_app. apply andb_true_intro. split.
    + apply forallb_concat. eapply Forall_impl; [exact Hw|]. by intros ? [_ ?].
    + destruct Hy as [-> | [_ Hd]]; [done | by apply keyUnit_digits].
Qed.


End BibTeXFacts.

(** ** Article extraction *)

Section ExtractorFacts.

Import Text ArticleExtractor FormatConverter Spec Samples.

Lemma readMetadata_keeps text a :
  articleId (readMetadata text a) = articleId a
  ∧ title (readMetadata text a) = title a
  ∧ authors (readMetadata text a) = authors a
  ∧ documentType (readMetadata text a) = documentType a
  ∧ isOpenAccess (readMetadata text a) = isOpenAccess a
  ∧ isPeerReviewed (readMetadata text a) = isPeerReviewed a.
Proof.
  unfold readMetadata. cbv zeta.
  destruct (2 <=? length (split (cu " - ") text))%nat; [|done].
  by destruct (2 <=? length (split (cu " | ") _))%nat.
Qed.

Lemma extractMetadata_keeps metas a :
  articleId (extractMetadata metas a) = articleId a
  ∧ title (extractMetadata metas a) = title a
  ∧ authors (extractMetadata metas a) = authors a
  ∧ documentType (extractMetadata metas a) = documentType a
  ∧ isOpenAccess (extractMetadata metas a) = isOpenAccess a
  ∧ isPeerReviewed (extractMetadata metas a) = isPeerReviewed a.
Proof.
  induction metas as [|meta rest IH]; [done|]. cbn [extractMetadata]. cbv zeta.
  destruct (_ && _); [apply readMetadata_keeps | exact IH].
Qed.

Lemma extractFrom_from (index : nat) (elements : list ResultNode) :
  (length (extractFrom index elements) ≤ length elements)%nat
  ∧ ∀ a, a ∈ extractFrom index elements →
      ∃ i element content,
        elements !! i = Some element ∧ contentNode element = Some content
        ∧ a = extractSingleArticle element content (index + i)
        ∧ isValidArticle a = true.
Proof.
  revert index. induction elements as [|element elements IH]; intros index.
  { split; [done|]. by intros a ?%elem_of_nil. }
  destruct (IH (S index)) as [Hl Hin]. cbn [extractFrom].
  assert (Hrest : ∀ a, a ∈ extractFrom (S index) elements →
            ∃ i element' content,
              (element :: elements) !! i = Some element'
              ∧ contentNode element' = Some content
              ∧ a = extractSingleArticle element' content (index + i)
              ∧ isValidArticle a = true).
  { intros a (i & e & c & ? & ? & ? & ?)%Hin. exists (S i), e, c.
    split_and!; try done. by replace (index + S i)%nat with (S index + i)%nat by lia. }
  destruct (contentNode element) as [content|] eqn:Ec.
  2: { split; [cbn [length]; lia | exact Hrest]. }
  cbv zeta. destruct (isValidArticle _) eqn:Ev.
  2: { split; [cbn [length]; lia | exact Hrest]. }
  split; [cbn [length]; lia|].
  intros a [->|Ha]%elem_of_cons; [|by apply Hrest].
  exists 0%nat, element, content. by rewrite Nat.add_0_r.
Qed.

Lemma extractSingleArticle_fields element content index :
  title (extractSingleArticle element content index) = extractTitle content
  ∧ authors (extractSingleArticle element content index) = extractAuthors content
  ∧ documentType (extractSingleArticle element content index)
    = extractDocumentType content
  ∧ isOpenAccess (extractSingleArticle element content index)
    = openAccessBadge content
  ∧ isPeerReviewed (extractSingleArticle element content index)
    = peerReviewedBadge content
  ∧ articleId (extractSingleArticle element content index)
    = (if truthy (replaceFirst (cu "result-busca-") [] (nodeId element))
       then replaceFirst (cu "result-busca-") [] (nodeId element)
       else cu "article_" ++ JSON.Stringify.decimal (N.of_nat index)).
Proof.
  unfold extractSingleArticle. cbv zeta.
  destruct (extractMetadata_keeps (metaTexts content)
              {| articleId := if truthy (replaceFirst (cu "result-busca-") [] (nodeId element))
                              then replaceFirst (cu "result-busca-") [] (nodeId element)
                              else cu "article_" ++ JSON.Stringify.decimal (N.of_nat index);
                 title := extractTitle content;
                 authors := extractAuthors content;
                 journal := []; year := [];
                 documentType := extractDocumentType content;
                 isOpenAccess := checkOpenAccess content;
                 isPeerReviewed := checkPeerReviewed content |})
    as (-> & -> & -> & -> & -> & ->).
  done.
Qed.

Lemma truthy_nonempty (s : jstr) : truthy s = true → s ≠ [].
Proof. by destruct s. Qed.

(** X17.  What [extractFromPage] returns.  There are at most as many
    articles as result elements; each comes from an element with a content
    block, at that element's position among all result elements.  Each has
    a title of more than five code units, a non-empty id, a non-empty
    document type and no empty author.  Hence the BibTeX converter drops
    none of them, and each RIS record has its title line. *)
Theorem extractFromPage_articles (elements : list ResultNode) :
  (length (extractFromPage elements) ≤ length elements)%nat
  ∧ (∀ a, a ∈ extractFromPage elements →
       (5 < length (title a))%nat
       ∧ articleId a ≠ [] ∧ documentType a ≠ []
       ∧ Forall (fun author => author ≠ []) (authors a)
       ∧ ∃ i element content,
           elements !! i = Some element ∧ contentNode element = Some content
           ∧ a = extractSingleArticle element content i)
  ∧ bibEntries (extractFromPage elements)
    = List.map articleToBibTeX (extractFromPage elements)
  ∧ (∀ a, a ∈ extractFromPage elements →
       risField "TI" (title a) ∈ risLines a).
Proof.
  unfold extractFromPage. destruct (extractFrom_from 0 elements) as [Hl Hin].
  assert (Hvalid : ∀ a, a ∈ extractFrom 0 elements → truthy (title a) = true).
  { intros a (i & e & c & _ & _ & _ & Hv)%Hin. unfold isValidArticle in Hv.
    by apply andb_prop in Hv as [? _]. }
  split; [done|]. split; [|split].
  - intros a (i & e & c & He & Hc & -> & Hv)%Hin. cbn [Nat.add] in *.
    unfold isValidArticle in Hv. apply andb_prop in Hv as [_ Hv].
    apply Nat.ltb_lt in Hv. split; [done|].
    destruct (extractSingleArticle_fields e c i) as (_ & Ha & Ht & _ & _ & Hi).
    rewrite Ha, Ht, Hi. split_and!.
    + destruct (truthy _) eqn:E.
      * by apply truthy_nonempty.
      * by cbn.
    + unfold extractDocumentType. cbv zeta.
      destruct (truthy (getCleanText (typeText c))) eqn:E;
        [by apply truthy_nonempty | by cbn].
    + unfold extractAuthors. apply Forall_forall.
      intros x [_ Hx]%list_elem_of_In%filter_In. by apply truthy_nonempty.
    + by exists i, e, c.
  - unfold bibEntries. f_equal.
    induction (extractFrom 0 elements) as [|a l IH]; [done|]. cbn [List.filter].
    rewrite Hvalid by left. f_equal. apply IH.
    + cbn [length] in Hl. lia.
    + intros x Hx. destruct (Hin x) as (i & e & c & H); [by right|].
      by exists i, e, c.
    + intros x Hx. apply Hvalid. by right.
  - intros a Ha. rewrite risLines_layout, (Hvalid a Ha). cbn [optional].
    set_solver.
Qed.


Lemma startsWith_app (sub r : jstr) : startsWith sub (sub ++ r) = true.
Proof. unfold startsWith. apply bool_decide_eq_true_2. by rewrite take_app_length. Qed.

Lemma includes_app (sub x r : jstr) : includes sub (x ++ sub ++ r) = true.
Proof.
  induction x as [|c x IH].
  - cbn [app]. destruct (sub ++ r) eqn:E; cbn [includes]; rewrite <- ?E;
      by rewrite startsWith_app.
  - cbn [app includes]. by rewrite IH, orb_true_r.
Qed.

Lemma startsWith_head_fail m ps (t : jstr) :
  match t with [] => True | d :: _ => d ≠ m end → startsWith (m :: ps) t = false.
Proof.
  destruct t as [|d t]; [done|]. intros Hd. rewrite startsWith_cons.
  by destruct (N.eqb_spec d m).
Qed.

Lemma splitOn_piece a m b (x rest cur : jstr) :
  m ∉ x → m ≠ a →
  splitOn [a; m; b] (x ++ a :: m :: b :: rest) cur 0
  = (rev cur ++ x) :: splitOn [a; m; b] rest [] 0.
Proof.
  intros Hx Hm. revert cur. induction x as [|c x IH]; intros cur.
  - pose proof (startsWith_app [a; m; b] rest) as Hs. cbn [app] in Hs.
    cbn [app splitOn]. rewrite Hs.
    cbn [length Nat.sub]. by rewrite app_nil_r.
  - apply not_elem_of_cons in Hx as [Hc Hx]. cbn [app splitOn].
    rewrite startsWith_cons, (startsWith_head_fail m [b]), andb_false_r.
    2: { destruct x as [|d x]; cbn [app]; [done|].
         apply not_elem_of_cons in Hx as [? _]. done. }
    rewrite (IH Hx). cbn [rev]. by rewrite <- app_assoc.
Qed.

Lemma splitOn_last (sep x cur : jstr) :
  includes sep x = false → sep ≠ [] → splitOn sep x cur 0 = [rev cur ++ x].
Proof.
  intros Hx Hsep. revert cur. induction x as [|c x IH]; intros cur.
  - cbn. by rewrite app_nil_r.
  - cbn [includes] in Hx. apply orb_false_elim in Hx as [H1 H2].
    cbn [splitOn]. rewrite H1, (IH H2). cbn [rev]. by rewrite <- app_assoc.
Qed.

Lemma includes_absent a m b (x : jstr) : m ∉ x → includes [a; m; b] x = false.
Proof.
  induction x as [|c x IH]; [done|]. intros [Hc Hx]%not_elem_of_cons.
  cbn [includes]. rewrite (IH Hx), orb_false_r.
  rewrite startsWith_cons, (startsWith_head_fail m [b]), andb_false_r; [done|].
  destruct x as [|d x]; [done|]. by apply not_elem_of_cons in Hx as [? _].
Qed.

Lemma extractMetadata_skip (skipped rest : list jstr) (article : Article) :
  Forall (fun m => includes (cu " - ") (getCleanText (Some m))
                   && includes (cu "|") (getCleanText (Some m)) = false) skipped →
  extractMetadata (skipped ++ rest) article = extractMetadata rest article.
Proof.
  induction 1 as [|m skipped Hm _ IH]; [done|].
  cbn [app extractMetadata]. cbv zeta. by rewrite Hm.
Qed.

(** X18.  The metadata loop reads the first paragraph that holds both
    [" - "] and ["|"].  When its clean text is [Y - P | J], possibly
    followed by [" | "] and more, with no hyphen in Y, P, J and what
    follows, and no bar in P and J, the year is Y trimmed and the journal
    is J trimmed; the other fields are untouched and later paragraphs are
    not read. *)
Theorem extractMetadata_reads_year_and_journal (skipped rest : list jstr)
    (meta y p j tail : jstr) (article : Article) :
  Forall (fun m => includes (cu " - ") (getCleanText (Some m))
                   && includes (cu "|") (getCleanText (Some m)) = false) skipped →
  getCleanText (Some meta) = y ++ cu " - " ++ p ++ cu " | " ++ j ++ tail →
  45 ∉ y → 45 ∉ p ++ j ++ tail → 124 ∉ p ++ j →
  (tail = [] ∨ ∃ more, tail = cu " | " ++ more) →
  extractMetadata (skipped ++ meta :: rest) article
  = setJournal (trim j) (setYear (trim y) article)
  ∧ year (extractMetadata (skipped ++ meta :: rest) article) = trim y
  ∧ journal (extractMetadata (skipped ++ meta :: rest) article) = trim j.
Proof.
  intros Hskip Htext Hy Hrest Hbar Htail.
  assert (H : extractMetadata (skipped ++ meta :: rest) article
              = setJournal (trim j) (setYear (trim y) article)); [|by rewrite H].
  rewrite extractMetadata_skip by done. cbn [extractMetadata]. cbv zeta.
  rewrite Htext.
  rewrite (includes_app (cu " - ") y).
  replace (y ++ cu " - " ++ p ++ cu " | " ++ j ++ tail)
    with ((y ++ cu " - " ++ p ++ cu " ") ++ cu "|" ++ (cu " " ++ j ++ tail))
    by by rewrite <- !app_assoc.
  rewrite (includes_app (cu "|")). cbn [andb].
  replace ((y ++ cu " - " ++ p ++ cu " ") ++ cu "|" ++ (cu " " ++ j ++ tail))
    with (y ++ cu " - " ++ p ++ cu " | " ++ j ++ tail)
    by by rewrite <- !app_assoc.
  unfold readMetadata, split. cbv zeta.
  change (cu " - ") with [32; 45; 32]. change (cu " | ") with [32; 124; 32].
  cbn [app].
  rewrite (splitOn_piece 32 45 32 y) by done.
  rewrite (splitOn_last [32; 45; 32]); [|apply includes_absent|done].
  2: { rewrite !not_elem_of_app in Hrest. destruct Hrest as (? & ? & ?).
       rewrite not_elem_of_app, !not_elem_of_cons, not_elem_of_app.
       by split_and!. }
  cbn [rev app length Nat.leb nth].
  apply not_elem_of_app in Hbar as [Hp Hj].
  rewrite (splitOn_piece 32 124 32 p) by done.
  destruct Htail as [-> | [more ->]].
  - rewrite app_nil_r.
    rewrite (splitOn_last [32; 124; 32]); [|by apply includes_absent|done].
    done.
  - change (cu " | ") with [32; 124; 32]. cbn [app].
    rewrite (splitOn_piece 32 124 32 j) by done. done.
Qed.


Lemma extractMetadata_reads_year_and_journal_witness :
  extractMetadata ([cu "Smith, J."] ++ cu " 2020 - Artigo | Revista Z " :: []) studyOfX
  = setJournal (trim (cu "Revista Z")) (setYear (trim (cu "2020")) studyOfX)
  ∧ year (extractMetadata ([cu "Smith, J."] ++ cu " 2020 - Artigo | Revista Z " :: [])
            studyOfX) = trim (cu "2020")
  ∧ journal (extractMetadata ([cu "Smith, J."] ++ cu " 2020 - Artigo | Revista Z " :: [])
               studyOfX) = trim (cu "Revista Z").
Proof.
  apply (extractMetadata_reads_year_and_journal [cu "Smith, J."] []
           (cu " 2020 - Artigo | Revista Z ") (cu "2020") (cu "Artigo")
           (cu "Revista Z") [] studyOfX).
  - by repeat constructor.
  - reflexivity.
  - apply (bool_decide_unpack _). by vm_compute.
  - apply (bool_decide_unpack _). by vm_compute.
  - apply (bool_decide_unpack _). by vm_compute.
  - by left.
Defined.

Lemma includes_app_r (sub x q : jstr) :
  includes sub q = true → includes sub (x ++ q) = true.
Proof.
  intros Hq. induction x as [|c x IH]; [done|].
  cbn [app includes]. by rewrite IH, orb_true_r.
Qed.

(** X19.  When no metadata paragraph holds both separators, the article is
    left as it is: year and journal stay empty.  A paragraph [Y - Q] whose Q
    holds a bar but not [" | "] (and no further [" - "]) sets the year to Y
    trimmed and leaves the journal alone; the loop ends there all the
    same. *)
Theorem extractMetadata_without_journal (skipped : list jstr) :
  Forall (fun m => includes (cu " - ") (getCleanText (Some m))
                   && includes (cu "|") (getCleanText (Some m)) = false) skipped →
  (∀ article, extractMetadata skipped article = article)
  ∧ (∀ meta rest y q article,
       getCleanText (Some meta) = y ++ cu " - " ++ q →
       45 ∉ y → includes (cu " - ") q = false →
       includes (cu "|") q = true → includes (cu " | ") q = false →
       extractMetadata (skipped ++ meta :: rest) article = setYear (trim y) article).
Proof.
  intros Hskip. split.
  - intros article. rewrite <- (app_nil_r skipped).
    by rewrite extractMetadata_skip.
  - intros meta rest y q article Htext Hy Hq Hbar Hsep.
    rewrite extractMetadata_skip by done. cbn [extractMetadata]. cbv zeta.
    rewrite Htext, (includes_app (cu " - ") y).
    rewrite (app_assoc y), (includes_app_r (cu "|")) by done. cbn [andb].
    rewrite <- (app_assoc y).
    unfold readMetadata, split. cbv zeta.
    change (cu " - ") with [32; 45; 32] in *. cbn [app].
    rewrite (splitOn_piece 32 45 32 y) by done.
    rewrite (splitOn_last [32; 45; 32]) by done.
    cbn [rev app length Nat.leb nth].
    by rewrite (splitOn_last (cu " | ")) by done.
Qed.

Lemma extractMetadata_without_journal_witness :
  (∀ article, extractMetadata [cu "Smith, J."; cu "2020"] article = article)
  ∧ (∀ meta rest y q article,
       getCleanText (Some meta) = y ++ cu " - " ++ q →
       45 ∉ y → includes (cu " - ") q = false →
       includes (cu "|") q = true → includes (cu " | ") q = false →
       extractMetadata ([cu "Smith, J."; cu "2020"] ++ meta :: rest) article
       = setYear (trim y) article).
Proof.
  apply (extractMetadata_without_journal [cu "Smith, J."; cu "2020"]).
  by repeat constructor.
Defined.

Lemma skip_elem p (s : jstr) x : x ∈ skip p s → x ∈ s.
Proof.
  intros H. rewrite <- (span_app p s). apply elem_of_app. by right.
Qed.

Lemma elem_rev (s : jstr) x : x ∈ rev s → x ∈ s.
Proof. rewrite !list_elem_of_In. apply in_rev. Qed.

Lemma trim_elem (s : jstr) x : x ∈ trim s → x ∈ s.
Proof.
  unfold trim. intros H%elem_rev%skip_elem%elem_rev. by apply skip_elem in H.
Qed.

Lemma stripTags_plain (s : jstr) : 60 ∉ s → stripTags s false = s.
Proof.
  induction s as [|c s IH]; [done|]. intros [Hc Hs]%not_elem_of_cons.
  cbn [stripTags]. destruct (N.eqb_spec c 60); [done|]. cbn [andb].
  by rewrite IH.
Qed.

Lemma stripTags_length (s : jstr) (inTag : bool) :
  (length (stripTags s inTag) ≤ length s)%nat.
Proof.
  revert inTag. induction s as [|c s IH]; intros inTag; [done|].
  cbn [stripTags length]. destruct inTag.
  - specialize (IH (negb (c =? 62))). lia.
  - destruct ((c =? 60) && opensTag s).
    + specialize (IH true). lia.
    + specialize (IH false). cbn [length]. lia.
Qed.

Lemma trim_length (s : jstr) : (length (trim s) ≤ length s)%nat.
Proof.
  unfold trim. rewrite length_rev.
  pose proof (skip_length isSpace (rev (skip isSpace s))) as H1.
  pose proof (skip_length isSpace s) as H2. rewrite length_rev in H1. lia.
Qed.

Lemma stripTags_in_tag (tag b : jstr) :
  62 ∉ tag → stripTags (tag ++ 62 :: b) true = stripTags b false.
Proof.
  induction tag as [|x tag IH]; [done|]. intros [Hx Ht]%not_elem_of_cons.
  cbn [app stripTags]. destruct (N.eqb_spec x 62); [done|]. by apply IH.
Qed.

Lemma trim_core (ws1 core ws2 : jstr) :
  forallb isSpace ws1 = true → forallb isSpace ws2 = true →
  (∀ c, head core = Some c ∨ last core = Some c → isSpace c = false) →
  trim (ws1 ++ core ++ ws2) = core.
Proof.
  intros H1 H2 Hc. unfold trim, skip.
  destruct core as [|c core].
  { cbn [app]. pose proof (span_run isSpace (ws1 ++ ws2) []) as Hs.
    rewrite app_nil_r in Hs. rewrite Hs; [done| |done].
    by rewrite forallb_app, H1, H2. }
  rewrite (span_run isSpace ws1) by (try done; apply Hc; by left). cbn [snd].
  rewrite rev_app_distr.
  destruct (rev (c :: core)) as [|d r] eqn:E.
  { apply (f_equal length) in E. rewrite length_rev in E. done. }
  rewrite (span_run isSpace (rev ws2)).
  - cbn [snd]. by rewrite <- E, rev_involutive.
  - rewrite forallb_forall in H2. apply forallb_forall. intros x Hx%in_rev. by apply H2.
  - apply Hc. right. rewrite <- (rev_involutive (c :: core)), E. cbn [rev].
    by rewrite last_snoc.
Qed.

(** X20.  [getCleanText] is the empty string without an element, and never
    longer than the element's text.  A text without [<] is only trimmed.
    Trimming removes the white space before the first and after the last
    code unit that is not white space.  A tag is removed: [<], at least one
    code unit other than [>], up to the next [>]. *)
Theorem getCleanText_result :
  getCleanText None = []
  ∧ (∀ text, 60 ∉ text → getCleanText (Some text) = trim text)
  ∧ (∀ text, (length (getCleanText (Some text)) ≤ length text)%nat)
  ∧ (∀ ws1 core ws2,
       forallb isSpace ws1 = true → forallb isSpace ws2 = true →
       (∀ c, head core = Some c ∨ last core = Some c → isSpace c = false) →
       trim (ws1 ++ core ++ ws2) = core)
  ∧ (∀ a tag b, 60 ∉ a → tag ≠ [] → 62 ∉ tag →
       stripTags (a ++ cu "<" ++ tag ++ cu ">" ++ b) false = a ++ stripTags b false).
Proof.
  split; [done|]. split; [|split; [|split]].
  - intros text Ht. unfold getCleanText. apply stripTags_plain.
    intros H%trim_elem. done.
  - intros text. unfold getCleanText.
    pose proof (stripTags_length (trim text) false). pose proof (trim_length text). lia.
  - apply trim_core.
  - intros a tag b Ha Htag Hgt. induction a as [|c a IH].
    + cbn [app cu List.map list_ascii_of_string]. change (N_of_ascii "<") with 60.
      change (N_of_ascii ">") with 62. cbn [stripTags N.eqb Pos.eqb andb].
      destruct tag as [|x tag]; [done|]. apply not_elem_of_cons in Hgt as [Hx Hgt].
      replace (opensTag ((x :: tag) ++ 62 :: b)) with true.
      * by rewrite stripTags_in_tag by by apply not_elem_of_cons.
      * cbn [app opensTag]. destruct (N.eqb_spec x 62); [done|]. cbn [negb andb].
        symmetry. apply existsb_exists. exists 62. split; [|done].
        apply in_or_app. right. by left.
    + apply not_elem_of_cons in Ha as [Hc Ha]. cbn [app stripTags].
      destruct (N.eqb_spec c 60); [done|]. cbn [andb]. by rewrite (IH Ha).
Qed.

Lemma replaceFirst_prefix (sub k : jstr) : replaceFirst sub [] (sub ++ k) = k.
Proof.
  assert (H : ∀ s, replaceFirst sub [] s
                   = if startsWith sub s then [] ++ drop (length sub) s
                     else match s with
                          | [] => []
                          | c :: rest => c :: replaceFirst sub [] rest
                          end) by by intros [|? ?].
  by rewrite H, startsWith_app, drop_app_length.
Qed.

(** X21.  The id of an extracted article is the element's id without its
    prefix [result-busca-]; when nothing is left of it, the id is
    [article_] followed by the element's position.  It is never empty, so
    the notes of an extracted article always end with its [CAPES ID]. *)
Theorem extractSingleArticle_id (element : ResultNode) (content : ContentNode)
    (index : nat) :
  (∀ k, nodeId element = cu "result-busca-" ++ k → k ≠ [] →
     articleId (extractSingleArticle element content index) = k)
  ∧ (nodeId element = [] ∨ nodeId element = cu "result-busca-" →
     articleId (extractSingleArticle element content index)
     = cu "article_" ++ JSON.Stringify.decimal (N.of_nat index))
  ∧ last (buildNotesArray (extractSingleArticle element content index))
    = Some (cu "CAPES ID: " ++ articleId (extractSingleArticle element content index)).
Proof.
  destruct (extractSingleArticle_fields element content index)
    as (_ & _ & _ & _ & _ & Hid).
  split; [|split].
  - intros k Hk Hne. rewrite Hid, Hk, replaceFirst_prefix. by destruct k.
  - intros [Hn | Hn]; by rewrite Hid, Hn.
  - assert (Ht : truthy (articleId (extractSingleArticle element content index)) = true).
    { rewrite Hid. destruct (truthy _) eqn:E; [done|]. done. }
    unfold buildNotesArray. cbv zeta. rewrite Ht. by rewrite last_app_nonempty.
Qed.

End ExtractorFacts.
